(** * Research orchestration engine: cost engine, graph scorer, strategy planner

  A shallow embedding of the decision layer of the repository:
  - [models/data_models.py]                    (module [DataModels])
  - [pipeline/pipeline_core/cost_engine.py]    (module [CostEngine])
  - [pipeline/pipeline_core/graph_scorer.py]   (module [GraphScorer])
  - [pipeline/pipeline_core/strategy_planner.py] (module [StrategyPlanner])
  - [pipeline/pipeline.py]                     (module [Pipeline])
  - [pipeline/pipeline_core/query_generator.py] (module [QueryGenerator])

  Conventions.  Python [int] is [Z].  Python [float] is idealised as an
  exact rational [Q]: the arithmetic operators keep their source order and
  constants, and no binary rounding error is modelled.  [str] is [string].
  Wall-clock reads ([time.time()]) are explicit arguments named [now]. *)

From Stdlib Require Import ZArith QArith Qround Qabs Lqa Lia List Sorted Ascii String.
From stdpp Require Import base option list strings pretty gmap.
Import ListNotations.

Local Open Scope Z_scope.

(** ** Python numerics *)

Module Py.

(** [round(x)] for an exact value: nearest integer, ties to even. *)
Definition round_half_even (x : Q) : Z :=
  let f := Qfloor x in
  match Qcompare (x - inject_Z f) (1 # 2) with
  | Lt => f
  | Gt => f + 1
  | Eq => if Z.even f then f else f + 1
  end.

(** [round(x, ndigits)] with [ndigits >= 0]. *)
Definition round (x : Q) (ndigits : nat) : Q :=
  let scale := inject_Z (10 ^ Z.of_nat ndigits) in
  (inject_Z (round_half_even (x * scale)) / scale)%Q.

(** Two-argument [min] and [max]: the first argument wins a tie. *)
Definition min (a b : Q) : Q := if Qlt_le_dec b a then b else a.
Definition max (a b : Q) : Q := if Qlt_le_dec a b then b else a.


Definition Qgeb (a b : Q) : bool := Qle_bool b a.
Definition Qltb (a b : Q) : bool := negb (Qle_bool b a).

(** [max(xs, key=f)]: the first element whose key is maximal. *)
Definition max_by {A : Type} (key : A -> Q) (xs : list A) : option A :=
  match xs with
  | [] => None
  | x :: rest =>
      Some (fold_left
              (fun best y => if Qlt_le_dec (key best) (key y) then y else best)
              rest x)
  end.

(** ASCII whitespace, as [str.strip()] and [int()] skip it. *)
Definition is_space (a : ascii) : bool :=
  let n := nat_of_ascii a in
  ((9 <=? n) && (n <=? 13) || (28 <=? n) && (n <=? 32))%nat.

(** [text.lstrip()] and [text.strip()] *)
Fixpoint lstrip (s : string) : string :=
  match s with
  | String a rest => if is_space a then lstrip rest else s
  | EmptyString => EmptyString
  end.

Definition strip (s : string) : string :=
  String.rev (lstrip (String.rev (lstrip s))).

(** [needle in text] *)
Fixpoint contains (needle text : string) : bool :=
  String.prefix needle text
  || match text with
     | EmptyString => false
     | String _ rest => contains needle rest
     end.

End Py.

(** ** models/data_models.py *)

Module DataModels.

(** An element of [city_evidence].  The code only looks at dict items and
    at their ["source_url"] entry; [EvOther] is any item that is not a
    dict, [ev_source_url = None] a dict without that key. *)
Inductive evidence :=
| EvDict (quote : string) (ev_source_url : option string)
| EvOther.

(** A [Fragment], as [to_dict] stores it in a candidate. *)
Record Fragment := mkFragment {
  fragment_type : string;
  value : string;
  source_url : string;
  source_type : string;
  context : string;
  search_query : string;
  search_wave : Z;
  timestamp : Q
}.

Record ChannelCandidate := mkCandidate {
  candidate_id : string;
  channel_name : string;
  channel_url : string;
  alternative_names : list string;
  target_city : string;
  target_state : string;
  target_category : string;
  fragments : list Fragment;
  fragment_count : Z;
  independent_sources : Z;
  city_evidence : list evidence;
  city_score : Q;
  category_evidence : list evidence;
  category_score : Q;
  yt_verified : bool;
  yt_exists : bool;
  yt_real_name : string;
  yt_subscribers_text : string;
  yt_subscribers_count : Z;
  yt_subscriber_match : bool;
  yt_last_upload_text : string;
  yt_last_upload_recent : bool;
  yt_description : string;
  total_score : Q;
  verified : bool;
  rejection_reasons : list string
}.



(** [e.get("source_url","") for e in ... if isinstance(e,dict) and
    e.get("source_url")] *)
Definition evidence_urls (evs : list evidence) : list string :=
  omap (fun e =>
          match e with
          | EvDict _ (Some u) => if decide (u = "") then None else Some u
          | _ => None
          end) evs.

(** [set(...)] followed by [len]: the number of distinct urls. *)
Definition srcs (evs : list evidence) : list string :=
  remove_dups (evidence_urls evs).




End DataModels.

(** *** Properties of the candidate score *)

Module DataModelsFacts.
Import DataModels.







End DataModelsFacts.

(** ** An insertion-ordered dictionary with string keys

    Python's [dict] keeps insertion order, and [max], [sorted] and the list
    comprehensions of the cost engine observe it, so the sources table is an
    association list: [dict_set] overwrites in place and appends a new key. *)

Module PyDict.

Definition dict (V : Type) : Type := list (string * V).

Fixpoint dict_get {V : Type} (k : string) (d : dict V) : option V :=
  match d with
  | [] => None
  | (k', v) :: rest => if String.eqb k k' then Some v else dict_get k rest
  end.

Fixpoint dict_set {V : Type} (k : string) (v : V) (d : dict V) : dict V :=
  match d with
  | [] => [(k, v)]
  | (k', v') :: rest =>
      if String.eqb k k' then (k, v) :: rest else (k', v') :: dict_set k v rest
  end.

Definition dict_values {V : Type} (d : dict V) : list V := map snd d.

Definition dict_keys {V : Type} (d : dict V) : list string := map fst d.

End PyDict.

(** ** pipeline/pipeline_core/cost_engine.py *)

Module CostEngine.
Import PyDict.

Record SourceStats := mkSourceStats {
  name : string;
  priority : Q;
  attempts : Z;
  hits : Z;
  misses : Z;
  total_cost : Q;
  total_value : Q;
  patience : Z;
  exhausted : bool;
  last_hit_at : Z;
  created_at : Q
}.

Definition hit_rate (s : SourceStats) : Q :=
  (inject_Z (hits s) / inject_Z (Z.max 1 (attempts s)))%Q.

Definition roi (s : SourceStats) : Q :=
  (total_value s / Py.max (1 # 100) (total_cost s))%Q.

Definition drought (s : SourceStats) : Z := attempts s - last_hit_at s.

Definition effective_priority (s : SourceStats) : Q :=
  if exhausted s then 0%Q
  else if attempts s =? 0 then priority s
  else
    let base := (priority s * (3 # 10))%Q in
    let perf := (hit_rate s * 100 * (5 # 10))%Q in
    let recency_penalty := Py.min 30 (inject_Z (drought s) * (15 # 10)) in
    let roi_bonus := Py.min 20 (roi s * 5) in
    Py.max 0 (base + perf - recency_penalty + roi_bonus)%Q.

Record ActionLog := mkActionLog {
  al_source : string;
  al_query : string;
  al_found : Z;
  al_cost : Q;
  al_value : Q;
  roi_predicted : Q;
  decision : string;
  timestamp : Q
}.

(** The constructor arguments of [CostEngine]. *)
Record Config := mkConfig {
  target_count : Z;
  patience_initial : Z;
  patience_recharge : Z;
  patience_drain : Z;
  epsilon : Q;
  min_roi : Q;
  global_budget : Z
}.

Record Engine := mkEngine {
  cfg : Config;
  sources : dict SourceStats;
  total_found : Z;
  total_actions : Z;
  action_log : list ActionLog;
  started_at : Q;
  _stopped : bool;
  _stop_reason : string
}.

Definition init (c : Config) (now : Q) : Engine :=
  mkEngine c [] 0 0 [] now false "".

Definition with_sources (e : Engine) (d : dict SourceStats) : Engine :=
  mkEngine (cfg e) d (total_found e) (total_actions e) (action_log e)
    (started_at e) (_stopped e) (_stop_reason e).

Definition add_source (nm : string) (prio : Q) (now : Q) (e : Engine) : Engine :=
  match dict_get nm (sources e) with
  | Some _ => e
  | None =>
      with_sources e
        (dict_set nm
           (mkSourceStats nm prio 0 0 0 0 0 (patience_initial (cfg e)) false 0 now)
           (sources e))
  end.

Definition get_source (nm : string) (e : Engine) : option SourceStats :=
  dict_get nm (sources e).

(** [self._stop(reason, detail)] *)
Definition _stop (reason detail : string) (e : Engine) : Engine :=
  mkEngine (cfg e) (sources e) (total_found e) (total_actions e) (action_log e)
    (started_at e) true (reason +:+ ": " +:+ detail).

Definition force_stop (e : Engine) : Engine := _stop "manual" "Stopped by user" e.

Definition active (e : Engine) : list SourceStats :=
  filter (fun s => exhausted s = false) (dict_values (sources e)).

Definition should_stop (e : Engine) : bool * Engine :=
  if _stopped e then (true, e)
  else if target_count (cfg e) <=? total_found e then
    (true,
     _stop "target_reached"
       ("Found " +:+ pretty (total_found e) +:+ "/"
        +:+ pretty (target_count (cfg e)) +:+ " targets") e)
  else if global_budget (cfg e) <=? total_actions e then
    (true,
     _stop "budget_exhausted"
       ("Used " +:+ pretty (total_actions e) +:+ "/"
        +:+ pretty (global_budget (cfg e)) +:+ " actions") e)
  else
    match active e, sources e with
    | [], _ :: _ =>
        (true,
         _stop "all_sources_exhausted"
           ("All " +:+ pretty (length (sources e)) +:+ " sources exhausted") e)
    | _, _ => (false, e)
    end.

(** The feedback loop and the selection policy read [math.exp] and the
    [random] module; both are taken as given. *)

Section Decisions.

(** [math.exp] *)
Variable exp : Q -> Q.

Definition predict_roi (source_name : string) (estimated_cost : Q) (e : Engine) : Q :=
  match dict_get source_name (sources e) with
  | None => 0%Q
  | Some src =>
      if exhausted src then 0%Q
      else
        let prior := (priority src / 100)%Q in
        let p_success :=
          if attempts src =? 0 then prior
          else
            let alpha := Py.min 1 (inject_Z (attempts src) / 10) in
            ((1 - alpha) * prior + alpha * hit_rate src)%Q in
        let drought_decay := exp (- (5 # 100) * inject_Z (drought src))%Q in
        let p_adjusted := (p_success * drought_decay)%Q in
        (p_adjusted / Py.max (1 # 100) estimated_cost)%Q
  end.

(** The source after a hit: [src.attempts] and [src.total_cost] have already
    been bumped by the caller. *)
Definition record_hit (c : Config) (found : Z) (value : Q) (src : SourceStats)
    : SourceStats :=
  mkSourceStats (name src) (priority src) (attempts src) (hits src + found)
    (misses src) (total_cost src) (total_value src + value)
    (Z.min (patience_initial c * 2) (patience src + patience_recharge c))
    (exhausted src) (attempts src) (created_at src).

(** The source after a miss, with the decision label that is logged. *)
Definition record_miss (c : Config) (src : SourceStats) : SourceStats * string :=
  let drained := patience src - patience_drain c in
  if drained <=? 0 then
    (mkSourceStats (name src) (priority src) (attempts src) (hits src)
       (misses src + 1) (total_cost src) (total_value src) 0 true
       (last_hit_at src) (created_at src), "exhausted")
  else
    (mkSourceStats (name src) (priority src) (attempts src) (hits src)
       (misses src + 1) (total_cost src) (total_value src) drained
       (exhausted src) (last_hit_at src) (created_at src), "miss").

Definition bump_attempt (cost : Q) (src : SourceStats) : SourceStats :=
  mkSourceStats (name src) (priority src) (attempts src + 1) (hits src)
    (misses src) (total_cost src + cost) (total_value src) (patience src)
    (exhausted src) (last_hit_at src) (created_at src).

Definition report_result (source_name : string) (found : Z) (cost value : Q)
    (query : string) (now : Q) (e : Engine) : Engine :=
  match dict_get source_name (sources e) with
  | None => e
  | Some src =>
      let value :=
        if (0 <? found) && Qeq_bool value 0 then (inject_Z found * 10)%Q
        else value in
      let src1 := bump_attempt cost src in
      let '(src2, decision, found_total) :=
        if 0 <? found then
          (record_hit (cfg e) found value src1, "hit", total_found e + found)
        else
          let '(s, d) := record_miss (cfg e) src1 in (s, d, total_found e) in
      let e1 :=
        mkEngine (cfg e) (dict_set source_name src2 (sources e)) found_total
          (total_actions e + 1) (action_log e) (started_at e) (_stopped e)
          (_stop_reason e) in
      let roi := predict_roi source_name cost e1 in
      mkEngine (cfg e1) (sources e1) (total_found e1) (total_actions e1)
        (action_log e ++ [mkActionLog source_name query found cost value roi
                            decision now])
        (started_at e1) (_stopped e1) (_stop_reason e1)
  end.

(** [k] misses in a row on one source; each report may carry its own cost,
    value, query and clock reading. *)
Definition report_misses (source_name : string)
    (reports : list (Q * Q * string * Q)) (e : Engine) : Engine :=
  fold_left
    (fun acc '(cost, value, query, now) =>
       report_result source_name 0 cost value query now acc)
    reports e.

(** The non-exhausted sources, each with its position in the table. *)
Definition active_indexed (e : Engine) : list (nat * SourceStats) :=
  filter (fun p => exhausted (snd p) = false)
    (imap (fun i kv => (i, snd kv)) (sources e)).

Definition mark_exhausted (src : SourceStats) : SourceStats :=
  mkSourceStats (name src) (priority src) (attempts src) (hits src)
    (misses src) (total_cost src) (total_value src) (patience src) true
    (last_hit_at src) (created_at src).

(** [next_source], with the recursion depth bounded by [fuel].  [rand n] is
    the value of the [n]-th call to [random.random()] and [pick] the index
    drawn by [random.choice].  [None] means the fuel ran out. *)
Fixpoint next_source_fuel (fuel : nat) (rand : nat -> Q) (pick : nat)
    (level : nat) (e : Engine) : option (option string * Engine) :=
  match fuel with
  | O => None
  | S fuel' =>
      let act := active_indexed e in
      match Py.max_by (fun p => effective_priority (snd p)) act with
      | None => Some (None, e)
      | Some (i, best) =>
          let others :=
            filter (fun p => name (snd p) <> name best) act in
          match
            (if Py.Qltb (rand level) (epsilon (cfg e))
                && (1 <? Z.of_nat (length act))
             then others else []) with
          | o :: os =>
              let chosen :=
                nth (pick mod length (o :: os)) (o :: os) o in
              Some (Some (name (snd chosen)), e)
          | [] =>
              let roi := predict_roi (name best) 1 e in
              if Py.Qltb roi (min_roi (cfg e)) && (5 <? attempts best) then
                next_source_fuel fuel' rand pick (S level)
                  (with_sources e
                     (alter (fun kv => (fst kv, mark_exhausted (snd kv))) i
                        (sources e)))
              else Some (Some (name best), e)
          end
      end
  end.

(** Every recursive call exhausts one more source, so one unit of fuel per
    registered source, plus one, is enough. *)
Definition next_source (rand : nat -> Q) (pick : nat) (e : Engine)
    : option string * Engine :=
  default (None, e)
    (next_source_fuel (S (length (sources e))) rand pick 0 e).

(** The ["reason"] entry of [evaluate_action]'s answer.  [RoiTooLow roi floor]
    stands for the formatted text ["ROI too low (roi < floor)"]. *)
Inductive reason :=
| UnknownSource
| SourceExhausted
| Stopped (stop_reason : string)
| RoiTooLow (roi floor : Q)
| Go.

Record Evaluation := mkEvaluation {
  execute : bool;
  ev_roi : Q;
  ev_reason : reason;
  source_patience : Z
}.

Definition evaluate_action (source_name : string) (estimated_cost : Q)
    (e : Engine) : Evaluation * Engine :=
  match dict_get source_name (sources e) with
  | None => (mkEvaluation false 0 UnknownSource 0, e)
  | Some src =>
      if exhausted src then (mkEvaluation false 0 SourceExhausted 0, e)
      else
        let '(stop, e1) := should_stop e in
        if stop then
          (mkEvaluation false 0 (Stopped (_stop_reason e1)) (patience src), e1)
        else
          let roi := predict_roi source_name estimated_cost e1 in
          if Py.Qltb roi (min_roi (cfg e1)) && (5 <? attempts src) then
            (mkEvaluation false (Py.round roi 4)
               (RoiTooLow roi (min_roi (cfg e1))) (patience src), e1)
          else (mkEvaluation true (Py.round roi 4) Go (patience src), e1)
  end.

(** One call on the engine's public surface, and a run of such calls. *)
Inductive call :=
| AddSource (nm : string) (prio now : Q)
| ReportResult (nm : string) (found : Z) (cost value : Q) (query : string) (now : Q)
| ShouldStop
| NextSource (rand : nat -> Q) (pick : nat)
| EvaluateAction (nm : string) (estimated_cost : Q)
| ForceStop.

Definition exec (e : Engine) (c : call) : Engine :=
  match c with
  | AddSource nm prio now => add_source nm prio now e
  | ReportResult nm found cost value query now =>
      report_result nm found cost value query now e
  | ShouldStop => snd (should_stop e)
  | NextSource rand pick => snd (next_source rand pick e)
  | EvaluateAction nm c => snd (evaluate_action nm c e)
  | ForceStop => force_stop e
  end.

Definition run (calls : list call) (e : Engine) : Engine :=
  fold_left exec calls e.

Definition is_force_stop (c : call) : bool :=
  match c with ForceStop => true | _ => false end.

End Decisions.

End CostEngine.

(** *** Properties of the ordered dictionary *)

Module PyDictFacts.
Import PyDict.

Lemma dict_get_set_eq {V : Type} (k : string) (v : V) (d : dict V) :
  dict_get k (dict_set k v d) = Some v.
Proof.
  induction d as [| [k' v'] d IH]; simpl.
  - now rewrite String.eqb_refl.
  - destruct (String.eqb k k') eqn:E; simpl; rewrite ?String.eqb_refl, ?E; auto.
Qed.

Lemma dict_get_set_ne {V : Type} (k k' : string) (v : V) (d : dict V) :
  k <> k' -> dict_get k' (dict_set k v d) = dict_get k' d.
Proof.
  intros Hne. induction d as [| [k0 v0] d IH]; simpl.
  - destruct (String.eqb_spec k' k); congruence.
  - destruct (String.eqb_spec k k0) as [-> | Hk]; simpl.
    + destruct (String.eqb_spec k' k0); congruence.
    + destruct (String.eqb_spec k' k0); auto.
Qed.

Lemma dict_get_None_set {V : Type} (k k' : string) (v : V) (d : dict V) :
  k <> k' -> dict_get k' d = None -> dict_get k' (dict_set k v d) = None.
Proof. intros Hne Hd. now rewrite dict_get_set_ne. Qed.

End PyDictFacts.

(** *** Properties of the cost engine *)

Module CostEngineFacts.
Import PyDict PyDictFacts CostEngine.

Lemma py_min_compat (a a' b b' : Q) :
  (a == a')%Q -> (b == b')%Q -> (Py.min a b == Py.min a' b')%Q.
Proof.
  intros Ha Hb. unfold Py.min.
  destruct (Qlt_le_dec b a), (Qlt_le_dec b' a'); lra.
Qed.

Lemma py_max_compat (a a' b b' : Q) :
  (a == a')%Q -> (b == b')%Q -> (Py.max a b == Py.max a' b')%Q.
Proof.
  intros Ha Hb. unfold Py.max.
  destruct (Qlt_le_dec a b), (Qlt_le_dec a' b'); lra.
Qed.

(** The ranking formula in the words of the specification. *)
Definition priority_formula (s : SourceStats) : Q :=
  Py.max 0
    ((3 # 10) * priority s + (5 # 10) * (hit_rate s * 100)
     - Py.min 30 ((15 # 10) * inject_Z (drought s))
     + Py.min 20 (5 * roi s))%Q.

(** A source as [add_source] creates it, with prior priority 50 and the
    default patience of 30. *)
Definition untried_source : SourceStats :=
  mkSourceStats "direct" 50 0 0 0 0 0 30 false 0 0.

(** C8, as stated, fails: a source with no attempt yet is ranked at its initial
    priority (50), not at the value of the formula (15). *)
Lemma effective_priority_untried_is_prior :
  exhausted untried_source = false /\
  (effective_priority untried_source == 50)%Q /\
  (priority_formula untried_source == 15)%Q /\
  ~ (effective_priority untried_source == priority_formula untried_source)%Q.
Proof. vm_compute. repeat split; intros H; discriminate H. Qed.

(** C8 (amended): the effective priority is 0 for an exhausted source; for a
    source that is not exhausted it is the initial priority while nothing
    has been attempted, and max(0, 0.3*priority + 0.5*(hit rate*100)
    - min(30, 1.5*drought) + min(20, 5*ROI)) once there is at least one
    attempt. *)
Theorem effective_priority_spec (s : SourceStats) :
  (exhausted s = true -> effective_priority s = 0%Q) /\
  (exhausted s = false -> attempts s = 0 ->
   effective_priority s = priority s) /\
  (exhausted s = false -> attempts s <> 0 ->
   (effective_priority s == priority_formula s)%Q).
Proof.
  unfold effective_priority, priority_formula. repeat split.
  - intros ->. reflexivity.
  - intros -> ->. reflexivity.
  - intros -> Hne. apply Z.eqb_neq in Hne. rewrite Hne. cbv zeta.
    apply py_max_compat; [reflexivity |].
    assert (Py.min 30 (inject_Z (drought s) * (15 # 10))
            == Py.min 30 ((15 # 10) * inject_Z (drought s)))%Q as Hp
      by (apply py_min_compat; lra).
    assert (Py.min 20 (roi s * 5) == Py.min 20 (5 * roi s))%Q as Hr
      by (apply py_min_compat; lra).
    rewrite Hp, Hr. lra.
Qed.

(** A source with two attempts, one hit at the first attempt, cost 2 and
    value 10: 15 + 25 - 1.5 + 20 = 58.5 on both sides. *)
Lemma effective_priority_spec_tried :
  let s := mkSourceStats "direct" 50 2 1 1 2 10 29 false 1 0 in
  (effective_priority s == priority_formula s)%Q /\
  (effective_priority s == 117 # 2)%Q.
Proof.
  cbv zeta. split.
  - apply effective_priority_spec; [reflexivity | discriminate].
  - vm_compute. reflexivity.
Defined.

Section Feedback.

Variable exp : Q -> Q.

(** The engine the orchestrator builds: target 450, patience 30, recharge
    20, drain 1, epsilon 0.10, ROI floor 0.05, budget 5000. *)
Definition orchestrator_config : Config :=
  mkConfig 450 30 20 1 (1 # 10) (5 # 100) 5000.

Lemma report_result_miss_lookup (e : Engine) (nm : string) (cost value : Q)
    (query : string) (now : Q) (src : SourceStats) :
  dict_get nm (sources e) = Some src ->
  let e' := report_result exp nm 0 cost value query now e in
  cfg e' = cfg e /\
  dict_get nm (sources e') =
    Some (fst (record_miss (cfg e) (bump_attempt cost src))).
Proof.
  intros Hget. cbv zeta. unfold report_result. rewrite Hget.
  change (0 <? 0) with false. cbv iota. simpl andb. cbv iota.
  destruct (record_miss (cfg e) (bump_attempt cost src)) as [s2 dec] eqn:Hm.
  simpl. split; [reflexivity | apply dict_get_set_eq].
Qed.

(** What one miss does to the two fields the patience budget lives in. *)
Lemma record_miss_patience (c : Config) (cost : Q) (src : SourceStats) :
  let s' := fst (record_miss c (bump_attempt cost src)) in
  (patience src - patience_drain c <= 0 ->
   patience s' = 0 /\ exhausted s' = true) /\
  (0 < patience src - patience_drain c ->
   patience s' = patience src - patience_drain c /\
   exhausted s' = exhausted src).
Proof.
  cbv zeta. unfold record_miss, bump_attempt. simpl.
  destruct (Z.leb_spec (patience src - patience_drain c) 0); simpl;
    split; intros; try lia; auto.
Qed.

(** The invariant carried along a run of misses: [j] misses so far. *)
Definition drained (p d j : Z) (s : SourceStats) : Prop :=
  patience s = Z.max 0 (p - j * d) /\
  (exhausted s = true <-> 0 < j /\ Z.max 0 (p - j * d) = 0).

Lemma drained_step (c : Config) (cost : Q) (j : Z) (s : SourceStats) :
  0 <= patience_initial c -> 0 <= j ->
  drained (patience_initial c) (patience_drain c) j s ->
  drained (patience_initial c) (patience_drain c) (j + 1)
    (fst (record_miss c (bump_attempt cost s))).
Proof.
  intros Hp Hj [Hpat Hex].
  pose proof (record_miss_patience c cost s) as Hstep. cbv zeta in Hstep.
  destruct Hstep as [Hlow Hhigh].
  set (p := patience_initial c) in *. set (d := patience_drain c) in *.
  assert (d < 0 -> j * d <= - j) as Hneg by (intros; nia).
  unfold drained.
  replace (p - (j + 1) * d) with (p - j * d - d) by ring.
  destruct (Z_le_gt_dec (patience s - d) 0) as [Hle | Hgt].
  - destruct (Hlow Hle) as [-> ->]. split; [| split; [lia | easy]]; lia.
  - destruct (Hhigh ltac:(lia)) as [-> ->]. split; [lia |].
    destruct (exhausted s) eqn:Hes.
    + assert (0 < j /\ Z.max 0 (p - j * d) = 0) as [? ?] by (apply Hex; auto).
      lia.
    + split; [discriminate | lia].
Qed.

Lemma report_misses_drained (reports : list (Q * Q * string * Q)) :
  forall (e : Engine) (nm : string) (j : Z) (s : SourceStats),
    0 <= patience_initial (cfg e) -> 0 <= j ->
    dict_get nm (sources e) = Some s ->
    drained (patience_initial (cfg e)) (patience_drain (cfg e)) j s ->
    exists s',
      dict_get nm (sources (report_misses exp nm reports e)) = Some s' /\
      drained (patience_initial (cfg e)) (patience_drain (cfg e))
        (j + Z.of_nat (length reports)) s'.
Proof.
  induction reports as [| [[[cost value] query] now] reports IH];
    intros e nm j s Hp Hj Hget Hinv.
  - exists s. simpl. rewrite Z.add_0_r. auto.
  - pose proof (report_result_miss_lookup e nm cost value query now s Hget)
      as Hone. cbv zeta in Hone. destruct Hone as [Hcfg Hget'].
    unfold report_misses. simpl fold_left.
    destruct (IH (report_result exp nm 0 cost value query now e) nm (j + 1)
                (fst (record_miss (cfg e) (bump_attempt cost s))))
      as (s' & Hs' & Hinv'); rewrite ?Hcfg; auto; try lia.
    + now apply drained_step.
    + exists s'. split; [exact Hs' |]. rewrite Hcfg in Hinv'.
      replace (j + Z.of_nat (length ((cost, value, query, now) :: reports)))
        with (j + 1 + Z.of_nat (length reports))
        by (simpl length; lia).
      exact Hinv'.
Qed.

(** C2: a source registered fresh under patience budget [p >= 0] and drain
    [d] has patience max(0, p - k*d) after [k] consecutive misses, and is
    exhausted exactly when a miss has brought that value to 0; with p = 30
    and d = 1 that is after 30 misses and not before. *)
Theorem patience_after_consecutive_misses (e : Engine) (nm : string)
    (prio now : Q) (reports : list (Q * Q * string * Q)) :
  0 <= patience_initial (cfg e) ->
  get_source nm e = None ->
  let p := patience_initial (cfg e) in
  let d := patience_drain (cfg e) in
  let k := Z.of_nat (length reports) in
  exists s,
    get_source nm (report_misses exp nm reports (add_source nm prio now e))
      = Some s /\
    patience s = Z.max 0 (p - k * d) /\
    (exhausted s = true <-> 0 < k /\ Z.max 0 (p - k * d) = 0) /\
    (0 < p -> (exhausted s = true <-> Z.max 0 (p - k * d) = 0)) /\
    (p = 30 -> d = 1 -> (exhausted s = true <-> 30 <= k)).
Proof.
  intros Hp Hfresh. cbv zeta. unfold get_source in *.
  set (s0 := mkSourceStats nm prio 0 0 0 0 0 (patience_initial (cfg e))
               false 0 now).
  assert (add_source nm prio now e
          = with_sources e (dict_set nm s0 (sources e))) as Hadd
    by (unfold add_source; now rewrite Hfresh).
  destruct (report_misses_drained reports (add_source nm prio now e) nm 0 s0)
    as (s & Hs & Hpat & Hex).
  - rewrite Hadd. exact Hp.
  - lia.
  - rewrite Hadd. apply dict_get_set_eq.
  - rewrite Hadd. simpl. split; [simpl; lia |].
    split; [discriminate | lia].
  - rewrite Hadd in Hpat, Hex. simpl cfg in Hpat, Hex.
    rewrite Z.add_0_l in Hpat, Hex.
    exists s. split; [exact Hs |]. split; [exact Hpat |].
    split; [exact Hex |]. split.
    + intros Hpos. rewrite Hex. split; [tauto |]. intros H0. split; [| auto].
      destruct (length reports); [simpl in H0; lia | lia].
    + intros H30 H1. rewrite Hex, H30, H1. lia.
Qed.

(** A report with [found = 0] on a registered source is a miss: one more
    attempt and one more miss, no hit, nothing found. *)
Lemma report_result_zero_found_is_miss (e : Engine) (nm : string)
    (cost value : Q) (query : string) (now : Q) (src : SourceStats) :
  get_source nm e = Some src ->
  let e' := report_result exp nm 0 cost value query now e in
  total_found e' = total_found e /\
  total_actions e' = total_actions e + 1 /\
  exists src',
    get_source nm e' = Some src' /\
    misses src' = misses src + 1 /\ hits src' = hits src /\
    attempts src' = attempts src + 1.
Proof.
  intros Hget. cbv zeta. unfold get_source in *.
  destruct (report_result_miss_lookup e nm cost value query now src Hget)
    as [_ Hsrc].
  split; [| split].
  - unfold report_result. rewrite Hget. simpl.
    now destruct (record_miss (cfg e) (bump_attempt cost src)).
  - unfold report_result. rewrite Hget. simpl.
    now destruct (record_miss (cfg e) (bump_attempt cost src)).
  - eexists. split; [exact Hsrc |]. unfold record_miss, bump_attempt. simpl.
    destruct (_ <=? 0); simpl; auto.
Qed.

(** C9: reporting a result for a name that [add_source] never registered
    changes nothing: source statistics, counters and action log are those of
    the engine before the call. *)
Theorem report_result_unknown_source (e : Engine) (nm : string) (found : Z)
    (cost value : Q) (query : string) (now : Q) :
  get_source nm e = None ->
  report_result exp nm found cost value query now e = e.
Proof.
  unfold get_source, report_result. intros ->. reflexivity.
Qed.

(** [next_source] terminates: every recursive call has exhausted one more
    source, so the fuel handed out by [next_source] is never used up. *)
Definition count_active (d : dict SourceStats) : nat :=
  length (filter (fun p : string * SourceStats => exhausted (snd p) = false) d).

Lemma active_indexed_count (d : dict SourceStats) :
  forall h : nat -> nat,
    length (filter (fun p : nat * SourceStats => exhausted (snd p) = false)
              (imap (fun i kv => (h i, snd kv)) d))
    = count_active d.
Proof.
  unfold count_active. induction d as [| [k s] d IH]; intros h; [reflexivity |].
  specialize (IH (fun i => h (S i))). cbv beta in IH.
  change (imap (fun i kv => (h i, snd kv)) ((k, s) :: d))
    with ((h 0%nat, s)
          :: imap (fun (i : nat) (kv : string * SourceStats) =>
                     (h (S i), snd kv)) d).
  rewrite filter_cons.
  rewrite (filter_cons
             (fun p : string * SourceStats => exhausted (snd p) = false)).
  cbn [snd].
  destruct (decide (exhausted s = false)); cbn [length]; now rewrite IH.
Qed.

Lemma max_by_In {A : Type} (key : A -> Q) (xs : list A) (x : A) :
  Py.max_by key xs = Some x -> In x xs.
Proof.
  destruct xs as [| x0 xs]; [discriminate |]. simpl. intros [= <-].
  assert (forall l b, fold_left
            (fun best y => if Qlt_le_dec (key best) (key y) then y else best)
            l b = b \/
          In (fold_left
                (fun best y => if Qlt_le_dec (key best) (key y) then y else best)
                l b) l) as H.
  { induction l as [| y l IH]; intros b; simpl; [now left |].
    destruct (IH (if Qlt_le_dec (key b) (key y) then y else b)) as [-> | Hin].
    - destruct (Qlt_le_dec (key b) (key y)); auto.
    - auto. }
  destruct (H xs x0) as [-> | Hin]; auto.
Qed.

Lemma active_indexed_lookup (e : Engine) (i : nat) (s : SourceStats) :
  In (i, s) (active_indexed e) ->
  exhausted s = false /\ exists k, sources e !! i = Some (k, s).
Proof.
  unfold active_indexed. intros Hin. apply list_elem_of_In in Hin.
  apply list_elem_of_filter in Hin as [Hact Hin]. split; [exact Hact |].
  apply elem_of_lookup_imap in Hin as (j & [k s'] & [= -> ->] & Hj).
  eauto.
Qed.

Lemma count_active_mark (d : dict SourceStats) :
  forall (i : nat) (k : string) (s : SourceStats),
    d !! i = Some (k, s) -> exhausted s = false ->
    S (count_active
         (alter (fun kv => (fst kv, mark_exhausted (snd kv))) i d))
    = count_active d.
Proof.
  unfold count_active.
  induction d as [| [k0 s0] d IH]; intros i k s Hi Hs; [discriminate |].
  destruct i as [| i]; simpl in Hi.
  - injection Hi as -> ->.
    change (alter (fun kv : string * SourceStats =>
                     (fst kv, mark_exhausted (snd kv))) 0%nat ((k, s) :: d))
      with ((k, mark_exhausted s) :: d).
    rewrite !(filter_cons
                (fun p : string * SourceStats => exhausted (snd p) = false)).
    cbn [snd mark_exhausted exhausted]. rewrite Hs.
    destruct (decide (true = false)); [discriminate |].
    destruct (decide (false = false)); [reflexivity | congruence].
  - change (alter (fun kv : string * SourceStats =>
                     (fst kv, mark_exhausted (snd kv))) (S i) ((k0, s0) :: d))
      with ((k0, s0)
            :: alter (fun kv : string * SourceStats =>
                        (fst kv, mark_exhausted (snd kv))) i d).
    rewrite !(filter_cons
                (fun p : string * SourceStats => exhausted (snd p) = false)).
    cbn [snd].
    destruct (decide (exhausted s0 = false)); cbn [length];
      [f_equal |]; exact (IH i k s Hi Hs).
Qed.

Lemma next_source_fuel_enough (fuel : nat) :
  forall (rand : nat -> Q) (pick level : nat) (e : Engine),
    (count_active (sources e) < fuel)%nat ->
    is_Some (next_source_fuel exp fuel rand pick level e).
Proof.
  induction fuel as [| fuel IH]; intros rand pick level e Hfuel; [lia |].
  simpl.
  destruct (Py.max_by _ (active_indexed e)) as [[i best] |] eqn:Hmax;
    [| eauto].
  destruct (if _ && _ then _ else _) as [| o os]; [| eauto].
  destruct (_ && _); [| eauto].
  apply max_by_In, active_indexed_lookup in Hmax as (Hact & k & Hi).
  apply IH. simpl.
  pose proof (count_active_mark (sources e) i k best Hi Hact). lia.
Qed.

Lemma next_source_total (rand : nat -> Q) (pick : nat) (e : Engine) :
  next_source_fuel exp (S (length (sources e))) rand pick 0 e
  = Some (next_source exp rand pick e).
Proof.
  unfold next_source.
  destruct (next_source_fuel_enough (S (length (sources e))) rand pick 0 e)
    as [res ->]; [| reflexivity].
  apply Nat.lt_succ_r. unfold count_active. apply length_filter.
Qed.

(** No call on the engine clears the stop flag, and only [force_stop]
    rewrites the recorded reason. *)
Lemma next_source_fuel_flags (fuel : nat) :
  forall (rand : nat -> Q) (pick level : nat) (e : Engine)
         (r : option string) (e' : Engine),
    next_source_fuel exp fuel rand pick level e = Some (r, e') ->
    _stopped e' = _stopped e /\ _stop_reason e' = _stop_reason e.
Proof.
  induction fuel as [| fuel IH]; intros rand pick level e r e' H;
    [discriminate |].
  simpl in H.
  destruct (Py.max_by _ (active_indexed e)) as [[i best] |];
    [| injection H as _ <-; auto].
  destruct (if _ && _ then _ else _) as [| o os].
  - destruct (_ && _).
    + apply IH in H. simpl in H. exact H.
    + injection H as _ <-. auto.
  - injection H as _ <-. auto.
Qed.

Lemma next_source_flags (rand : nat -> Q) (pick : nat) (e : Engine) :
  _stopped (snd (next_source exp rand pick e)) = _stopped e /\
  _stop_reason (snd (next_source exp rand pick e)) = _stop_reason e.
Proof.
  unfold next_source.
  destruct (next_source_fuel exp _ rand pick 0 e) as [[r e'] |] eqn:H;
    simpl; [| auto].
  exact (next_source_fuel_flags _ _ _ _ _ _ _ H).
Qed.

Lemma should_stop_stopped (e : Engine) :
  _stopped e = true -> should_stop e = (true, e).
Proof. unfold should_stop. intros ->. reflexivity. Qed.

Lemma report_result_flags (e : Engine) (nm : string) (found : Z)
    (cost value : Q) (query : string) (now : Q) :
  let e' := report_result exp nm found cost value query now e in
  _stopped e' = _stopped e /\ _stop_reason e' = _stop_reason e.
Proof.
  cbv zeta. unfold report_result.
  destruct (dict_get nm (sources e)) as [src |]; [| auto].
  destruct (0 <? found); [simpl; auto |].
  destruct (record_miss (cfg e) (bump_attempt cost src)). simpl. auto.
Qed.

Lemma exec_keeps_stopped (e : Engine) (c : call) :
  _stopped e = true ->
  _stopped (exec exp e c) = true /\
  (is_force_stop c = false -> _stop_reason (exec exp e c) = _stop_reason e).
Proof.
  intros Hs. destruct c; simpl.
  - unfold add_source. destruct (dict_get nm (sources e)); simpl; auto.
  - destruct (report_result_flags e nm found cost value query now) as [-> ->].
    auto.
  - rewrite (should_stop_stopped e Hs). auto.
  - destruct (next_source_flags rand pick e) as [-> ->]. auto.
  - unfold evaluate_action. destruct (dict_get nm (sources e)) as [src |];
      [| auto].
    destruct (exhausted src); [auto |].
    rewrite (should_stop_stopped e Hs). simpl. auto.
  - split; [reflexivity | discriminate].
Qed.

Lemma run_keeps_stopped (calls : list call) :
  forall e : Engine,
    _stopped e = true ->
    _stopped (run exp calls e) = true /\
    (forallb (fun c => negb (is_force_stop c)) calls = true ->
     _stop_reason (run exp calls e) = _stop_reason e).
Proof.
  induction calls as [| c calls IH]; intros e Hs; [simpl; auto |].
  destruct (exec_keeps_stopped e c Hs) as [Hs1 Hr1].
  destruct (IH (exec exp e c) Hs1) as [Hs2 Hr2].
  unfold run in *. simpl fold_left. split; [exact Hs2 |].
  simpl forallb. intros Hall. apply andb_prop in Hall as [Hc Hall].
  rewrite (Hr2 Hall). apply Hr1. now destruct (is_force_stop c).
Qed.

Lemma should_stop_true_stopped (e e' : Engine) :
  should_stop e = (true, e') -> _stopped e' = true.
Proof.
  unfold should_stop. destruct (_stopped e) eqn:Hs.
  - intros [= <-]. exact Hs.
  - destruct (_ <=? _); [intros [= <-]; reflexivity |].
    destruct (_ <=? _); [intros [= <-]; reflexivity |].
    destruct (active e), (sources e); intros [= <-] || discriminate.
    reflexivity.
Qed.

(** C3: [should_stop] answers true as soon as [total_found >= target_count],
    whatever [total_actions] and the budget are, and, on an engine that had
    not stopped before, records a reason that starts with "target_reached"; the
    budget is looked at only when the target is not reached, and the sources
    only when neither fired; and once it has answered true it keeps
    answering true after any further calls on the engine, with the recorded
    reason unchanged unless [force_stop] is called. *)
Theorem should_stop_order_and_terminal (e : Engine) :
  (_stopped e = false ->
   target_count (cfg e) <= total_found e ->
   exists e',
     should_stop e = (true, e') /\ _stopped e' = true /\
     _stop_reason e' =
       "target_reached: Found " +:+ pretty (total_found e) +:+ "/"
       +:+ pretty (target_count (cfg e)) +:+ " targets" /\
     String.prefix "target_reached" (_stop_reason e') = true) /\
  (target_count (cfg e) <= total_found e -> fst (should_stop e) = true) /\
  (_stopped e = false ->
   total_found e < target_count (cfg e) ->
   global_budget (cfg e) <= total_actions e ->
   exists e',
     should_stop e = (true, e') /\ _stopped e' = true /\
     _stop_reason e' =
       "budget_exhausted: Used " +:+ pretty (total_actions e) +:+ "/"
       +:+ pretty (global_budget (cfg e)) +:+ " actions") /\
  (_stopped e = false ->
   total_found e < target_count (cfg e) ->
   total_actions e < global_budget (cfg e) ->
   active e = [] -> sources e <> [] ->
   exists e',
     should_stop e = (true, e') /\ _stopped e' = true /\
     _stop_reason e' =
       "all_sources_exhausted: All " +:+ pretty (length (sources e))
       +:+ " sources exhausted") /\
  (_stopped e = false ->
   total_found e < target_count (cfg e) ->
   total_actions e < global_budget (cfg e) ->
   active e <> [] \/ sources e = [] ->
   should_stop e = (false, e)) /\
  (forall (e' : Engine) (calls : list call),
     should_stop e = (true, e') ->
     fst (should_stop (run exp calls e')) = true /\
     _stopped (run exp calls e') = true /\
     (forallb (fun c => negb (is_force_stop c)) calls = true ->
      _stop_reason (run exp calls e') = _stop_reason e')).
Proof.
  repeat split.
  - intros Hs Ht. unfold should_stop. rewrite Hs.
    apply Z.leb_le in Ht. rewrite Ht.
    eexists. repeat split.
  - intros Ht. unfold should_stop. apply Z.leb_le in Ht. rewrite Ht.
    now destruct (_stopped e).
  - intros Hs Ht Hb. unfold should_stop. rewrite Hs.
    apply Z.leb_gt in Ht. rewrite Ht. apply Z.leb_le in Hb. rewrite Hb.
    eexists. repeat split.
  - intros Hs Ht Hb Ha Hne. unfold should_stop. rewrite Hs.
    apply Z.leb_gt in Ht. rewrite Ht. apply Z.leb_gt in Hb. rewrite Hb.
    rewrite Ha. destruct (sources e) eqn:Hsrc; [congruence |].
    eexists. repeat split.
  - intros Hs Ht Hb Ha. unfold should_stop. rewrite Hs.
    apply Z.leb_gt in Ht. rewrite Ht. apply Z.leb_gt in Hb. rewrite Hb.
    destruct Ha as [Ha | Ha].
    + destruct (active e); [congruence | reflexivity].
    + rewrite Ha. now destruct (active e).
  - apply should_stop_true_stopped in H.
    destruct (run_keeps_stopped calls e' H) as [Hs _].
    now rewrite (should_stop_stopped _ Hs).
  - apply should_stop_true_stopped in H.
    now destruct (run_keeps_stopped calls e' H).
  - apply should_stop_true_stopped in H.
    now destruct (run_keeps_stopped calls e' H).
Qed.

End Feedback.

(** Concrete runs.  The decay function only feeds the logged ROI, so any
    stand-in for [math.exp] will do here. *)
Definition flat_decay (_ : Q) : Q := 1%Q.

Definition orchestrator_engine : Engine :=
  add_source "indirect" 40 0
    (add_source "semi_direct" 60 0
       (add_source "direct" 90 0 (init orchestrator_config 0))).

Definition one_miss : Q * Q * string * Q := (1%Q, 0%Q, "q", 0%Q).

(** Scenario B: three misses on a fresh source with patience 30 and drain 1
    leave patience 27 and the source active. *)
Lemma patience_after_three_misses :
  exists s,
    get_source "direct"
      (report_misses flat_decay "direct" [one_miss; one_miss; one_miss]
         (add_source "direct" 90 0 (init orchestrator_config 0))) = Some s /\
    patience s = 27 /\ exhausted s = false.
Proof.
  destruct (patience_after_consecutive_misses flat_decay
              (init orchestrator_config 0) "direct" 90 0
              [one_miss; one_miss; one_miss])
    as (s & Hs & Hp & _ & _ & H30); [simpl; lia | reflexivity |].
  exists s. split; [exact Hs |]. split; [exact Hp |].
  destruct (exhausted s); [| reflexivity].
  assert (30 <= 3) as Habs by (apply H30; reflexivity).
  exfalso. revert Habs. apply Z.lt_nge. reflexivity.
Defined.

(** Scenario B, continued: the thirtieth miss exhausts the source and the
    twenty-ninth does not. *)
Example thirty_misses_exhaust :
  (exhausted <$> get_source "direct"
     (report_misses flat_decay "direct" (replicate 29 one_miss)
        orchestrator_engine)) = Some false /\
  (exhausted <$> get_source "direct"
     (report_misses flat_decay "direct" (replicate 30 one_miss)
        orchestrator_engine)) = Some true.
Proof. split; vm_compute; reflexivity. Qed.

Lemma report_result_unregistered_noop :
  report_result flat_decay "reddit" 2 1 0 "q" 5 orchestrator_engine
  = orchestrator_engine.
Proof.
  apply (report_result_unknown_source flat_decay orchestrator_engine "reddit").
  reflexivity.
Defined.

(** Scenario C: three finds against a target of three, after one action out
    of a budget of 5000. *)
Definition target_met_engine : Engine :=
  report_result flat_decay "direct" 3 1 0 "q" 1
    (add_source "direct" 90 0
       (init (mkConfig 3 30 20 1 (1 # 10) (5 # 100) 5000) 0)).

Lemma should_stop_target_before_budget :
  total_actions target_met_engine < global_budget (cfg target_met_engine) /\
  exists e',
    should_stop target_met_engine = (true, e') /\
    _stopped e' = true /\
    _stop_reason e' = "target_reached: Found 3/3 targets" /\
    String.prefix "target_reached" (_stop_reason e') = true.
Proof.
  split; [reflexivity |].
  apply (proj1 (should_stop_order_and_terminal flat_decay target_met_engine));
    [reflexivity | discriminate].
Defined.

End CostEngineFacts.

(** ** pipeline/pipeline_core/graph_scorer.py

    The SQLite file is a record of tables.  [entities] and [targets] are row
    lists in rowid order, which is the order a [SELECT] without [ORDER BY]
    scans them in; [scores], [score_totals] and [config] carry a uniqueness
    constraint on the columns they are read by and are maps from that key.
    [AUTOINCREMENT] is a per-table counter.  Every connection runs
    [PRAGMA foreign_keys=ON], so a write whose [REFERENCES] column names a
    missing parent row raises [IntegrityError] and the [with] block rolls the
    call back.  The [tasks] and [logs] tables are not touched by the
    operations below and are left out.  JSON columns hold the value whose
    [json.dumps] the code stores. *)

Module GraphScorer.
Import PyDict.

Inductive exception := IntegrityError | ValueError.

Inductive outcome (A : Type) :=
| Ok (a : A)
| Raise (err : exception).
Arguments Ok {A} a.
Arguments Raise {A} err.

Definition outcome_map {A B : Type} (f : A -> B) (o : outcome A) : outcome B :=
  match o with
  | Ok a => Ok (f a)
  | Raise err => Raise err
  end.

(** *** [int(text)] on ASCII input: optional surrounding whitespace, an
    optional sign, decimal digits with single underscores between them. *)

Definition digit_value (a : ascii) : option Z :=
  let n := nat_of_ascii a in
  if ((48 <=? n) && (n <=? 57))%nat then Some (Z.of_nat n - 48) else None.

Fixpoint parse_digits (s : string) (acc : Z) (after_digit : bool) : option Z :=
  match s with
  | EmptyString => if after_digit then Some acc else None
  | String a rest =>
      match digit_value a with
      | Some d => parse_digits rest (acc * 10 + d) true
      | None =>
          if Ascii.eqb a "_" && after_digit then parse_digits rest acc false
          else None
      end
  end.

Definition py_int (text : string) : option Z :=
  match Py.strip text with
  | String "+" rest => parse_digits rest 0 false
  | String "-" rest => Z.opp <$> parse_digits rest 0 false
  | body => parse_digits body 0 false
  end.

(** *** Rows *)

Record EntityRow := mkEntity {
  e_id : Z;
  e_name : string;
  e_kind : string;
  e_subkind : string;
  e_city : string;
  e_state : string;
  e_country : string;
  e_institution : string;
  e_year : Z;
  e_source_url : string;
  e_source_type : string;
  e_status : string;
  e_metadata : string;
  e_created_at : Q;
  e_updated_at : Q
}.

Record TargetRow := mkTarget {
  t_id : Z;
  t_entity_id : Z;
  t_platform : string;
  t_url : string;
  t_name : string;
  t_description : string;
  t_followers : Z;
  t_last_activity : string;
  t_is_active : bool;
  t_keywords : list string;
  t_location_detected : bool;
  t_topic_detected : bool;
  t_is_creator : bool;
  t_external_links : list string;
  t_raw_data : string;
  t_scanned_at : Q
}.

Record CriterionRow := mkCriterion {
  c_id : Z;
  c_name : string;
  c_label : string;
  c_description : string;
  c_points : Z;
  c_category : string;
  c_sort_order : Z
}.

Record ScoreRow := mkScore {
  s_id : Z;
  s_target_id : Z;
  s_criterion_name : string;
  s_met : bool;
  s_points_awarded : Z;
  s_evidence : string;
  s_computed_at : Q
}.

(** One entry of the itemised breakdown. *)
Record Detail := mkDetail {
  d_label : string;
  d_max : Z;
  d_awarded : Z;
  d_met : bool;
  d_evidence : string
}.

Record ScoreTotalRow := mkScoreTotal {
  st_target_id : Z;
  st_total : Z;
  st_max_possible : Z;
  st_validated : bool;
  st_threshold : Z;
  st_details : dict Detail;
  st_computed_at : Q
}.

Record Store := mkStore {
  entities : list EntityRow;
  entities_seq : Z;
  targets : list TargetRow;
  targets_seq : Z;
  criteria : list CriterionRow;
  criteria_seq : Z;
  scores : gmap (Z * string) ScoreRow;
  scores_seq : Z;
  score_totals : gmap Z ScoreTotalRow;
  config : gmap string string
}.

Definition empty_store : Store := mkStore [] 0 [] 0 [] 0 ∅ 0 ∅ ∅.

Definition with_entities (s : Store) (rows : list EntityRow) (seq : Z) : Store :=
  mkStore rows seq (targets s) (targets_seq s) (criteria s) (criteria_seq s)
    (scores s) (scores_seq s) (score_totals s) (config s).

Definition with_targets (s : Store) (rows : list TargetRow) (seq : Z) : Store :=
  mkStore (entities s) (entities_seq s) rows seq (criteria s) (criteria_seq s)
    (scores s) (scores_seq s) (score_totals s) (config s).

Definition with_scores (s : Store) (rows : gmap (Z * string) ScoreRow) (seq : Z)
    : Store :=
  mkStore (entities s) (entities_seq s) (targets s) (targets_seq s)
    (criteria s) (criteria_seq s) rows seq (score_totals s) (config s).

Definition with_score_totals (s : Store) (rows : gmap Z ScoreTotalRow) : Store :=
  mkStore (entities s) (entities_seq s) (targets s) (targets_seq s)
    (criteria s) (criteria_seq s) (scores s) (scores_seq s) rows (config s).

Definition entity_exists (id : Z) (s : Store) : bool :=
  existsb (fun r => e_id r =? id) (entities s).

Definition target_exists (id : Z) (s : Store) : bool :=
  existsb (fun r => t_id r =? id) (targets s).

(** *** Configuration *)

Definition get_config (key dflt : string) (s : Store) : string :=
  default dflt (config s !! key).

Record CriterionSpec := mkCriterionSpec {
  cs_name : string;
  cs_label : option string;
  cs_description : option string;
  cs_points : option Z;
  cs_category : option string
}.

Definition criterion_of_spec (seq : Z) (i : nat) (cr : CriterionSpec) : CriterionRow :=
  mkCriterion (seq + 1 + Z.of_nat i) (cs_name cr)
    (default (cs_name cr) (cs_label cr)) (default "" (cs_description cr))
    (default 0 (cs_points cr)) (default "default" (cs_category cr))
    (Z.of_nat i).

(** [DELETE FROM criteria], one [INSERT] per spec in order, then the
    threshold.  [name] is [UNIQUE]: a repeated name aborts the whole call. *)
Definition configure_criteria (specs : list CriterionSpec) (threshold : Z)
    (s : Store) : outcome Store :=
  if decide (NoDup (map cs_name specs)) then
    Ok (mkStore (entities s) (entities_seq s) (targets s) (targets_seq s)
          (imap (criterion_of_spec (criteria_seq s)) specs)
          (criteria_seq s + Z.of_nat (length specs))
          (scores s) (scores_seq s) (score_totals s)
          (<["threshold" := pretty threshold]> (config s)))
  else Raise IntegrityError.

Fixpoint insert_by_sort_order (cr : CriterionRow) (rows : list CriterionRow)
    : list CriterionRow :=
  match rows with
  | [] => [cr]
  | r :: rest =>
      if c_sort_order cr <? c_sort_order r then cr :: rows
      else r :: insert_by_sort_order cr rest
  end.

(** [SELECT * FROM criteria ORDER BY sort_order] *)
Definition get_criteria (s : Store) : list CriterionRow :=
  fold_left (fun acc cr => insert_by_sort_order cr acc) (criteria s) [].

(** *** Entities *)

Record EntityKw := mkEntityKw {
  kw_subkind : option string;
  kw_city : option string;
  kw_state : option string;
  kw_country : option string;
  kw_institution : option string;
  kw_year : option Z;
  kw_source_url : option string;
  kw_source_type : option string;
  kw_status : option string;
  kw_metadata : option string
}.

Definition no_entity_kw : EntityKw :=
  mkEntityKw None None None None None None None None None None.

Definition add_entity (name kind : string) (kw : EntityKw) (now : Q)
    (s : Store) : Z * Store :=
  let city := default "" (kw_city kw) in
  match List.find
          (fun r => String.eqb (e_name r) name && String.eqb (e_city r) city)
          (entities s) with
  | Some existing => (e_id existing, s)
  | None =>
      let id := entities_seq s + 1 in
      (id,
       with_entities s
         (entities s ++
          [mkEntity id name kind (default "" (kw_subkind kw)) city
             (default "" (kw_state kw)) (default "" (kw_country kw))
             (default "" (kw_institution kw)) (default 0 (kw_year kw))
             (default "" (kw_source_url kw)) (default "" (kw_source_type kw))
             (default "found" (kw_status kw)) (default "{}" (kw_metadata kw))
             now now])
         id)
  end.

Definition set_entity_status (status : string) (now : Q) (r : EntityRow) : EntityRow :=
  mkEntity (e_id r) (e_name r) (e_kind r) (e_subkind r) (e_city r) (e_state r)
    (e_country r) (e_institution r) (e_year r) (e_source_url r)
    (e_source_type r) status (e_metadata r) (e_created_at r) now.

(** *** Targets *)

Record TargetKw := mkTargetKw {
  kw_name : option string;
  kw_description : option string;
  kw_followers : option Z;
  kw_last_activity : option string;
  kw_is_active : option bool;
  kw_keywords : option (list string);
  kw_location_detected : option bool;
  kw_topic_detected : option bool;
  kw_is_creator : option bool;
  kw_external_links : option (list string);
  kw_raw_data : option string
}.

Definition no_target_kw : TargetKw :=
  mkTargetKw None None None None None None None None None None None.

Definition set_target_entity (entity_id : Z) (r : TargetRow) : TargetRow :=
  mkTarget (t_id r) entity_id (t_platform r) (t_url r) (t_name r)
    (t_description r) (t_followers r) (t_last_activity r) (t_is_active r)
    (t_keywords r) (t_location_detected r) (t_topic_detected r)
    (t_is_creator r) (t_external_links r) (t_raw_data r) (t_scanned_at r).

(** The rows hit by [UPDATE targets SET entity_id=? WHERE id=? AND
    entity_id=0]. *)
Definition unlinked (id : Z) (r : TargetRow) : bool :=
  (t_id r =? id) && (t_entity_id r =? 0).

Definition add_target (url : string) (entity_id : Z) (platform : string)
    (kw : TargetKw) (now : Q) (s : Store) : outcome (Z * Store) :=
  match List.find (fun r => String.eqb (t_url r) url) (targets s) with
  | Some existing =>
      if (entity_id =? 0) || negb (existsb (unlinked (t_id existing)) (targets s))
      then Ok (t_id existing, s)
      else if entity_exists entity_id s then
        Ok (t_id existing,
            with_targets s
              (map (fun r =>
                      if unlinked (t_id existing) r
                      then set_target_entity entity_id r else r)
                 (targets s))
              (targets_seq s))
      else Raise IntegrityError
  | None =>
      if entity_exists entity_id s then
        let id := targets_seq s + 1 in
        Ok (id,
            with_targets s
              (targets s ++
               [mkTarget id entity_id platform url (default "" (kw_name kw))
                  (default "" (kw_description kw)) (default 0 (kw_followers kw))
                  (default "" (kw_last_activity kw))
                  (default false (kw_is_active kw))
                  (default [] (kw_keywords kw))
                  (default false (kw_location_detected kw))
                  (default false (kw_topic_detected kw))
                  (default false (kw_is_creator kw))
                  (default [] (kw_external_links kw))
                  (default "{}" (kw_raw_data kw)) now])
              id)
      else Raise IntegrityError
  end.

(** *** Scoring *)

Definition set_criterion (target_id : Z) (criterion_name : string) (met : bool)
    (evidence : string) (now : Q) (s : Store) : outcome Store :=
  let cr := List.find (fun r => String.eqb (c_name r) criterion_name) (criteria s) in
  let pts :=
    match cr with
    | Some row => if met then c_points row else 0
    | None => 0
    end in
  if target_exists target_id s then
    let id := scores_seq s + 1 in
    Ok (with_scores s
          (<[(target_id, criterion_name) :=
               mkScore id target_id criterion_name met pts evidence now]>
             (scores s))
          id)
  else Raise IntegrityError.

Record ScoreResult := mkScoreResult {
  r_target_id : Z;
  r_total : Z;
  r_max_possible : Z;
  r_validated : bool;
  r_threshold : Z;
  r_details : dict Detail
}.

(** One turn of the loop over the configured criteria. *)
Definition score_step (s : Store) (target_id : Z)
    (acc : Z * Z * dict Detail) (cr : CriterionRow) : Z * Z * dict Detail :=
  let '(total, max_possible, details) := acc in
  let sc := scores s !! (target_id, c_name cr) in
  let awarded := from_option s_points_awarded 0 sc in
  let met := from_option s_met false sc in
  (total + awarded, max_possible + c_points cr,
   dict_set (c_name cr)
     (mkDetail (c_label cr) (c_points cr) awarded met
        (from_option s_evidence "" sc))
     details).

Definition compute_score (target_id : Z) (now_total now_status : Q)
    (s : Store) : outcome (ScoreResult * Store) :=
  let criteria := get_criteria s in
  match py_int (get_config "threshold" "60" s) with
  | None => Raise ValueError
  | Some threshold =>
      let '(total, max_possible, details) :=
        fold_left (score_step s target_id) criteria (0, 0, []) in
      let validated := threshold <=? total in
      if target_exists target_id s then
        let s1 :=
          with_score_totals s
            (<[target_id :=
                 mkScoreTotal target_id total max_possible validated threshold
                   details now_total]> (score_totals s)) in
        let s2 :=
          match List.find (fun r => t_id r =? target_id) (targets s1) with
          | Some t =>
              if t_entity_id t =? 0 then s1
              else
                let new_status := if validated then "validated" else "scored" in
                with_entities s1
                  (map (fun r =>
                          if e_id r =? t_entity_id t
                          then set_entity_status new_status now_status r
                          else r)
                     (entities s1))
                  (entities_seq s1)
          | None => s1
          end in
        Ok (mkScoreResult target_id total max_possible validated threshold
              details, s2)
      else Raise IntegrityError
  end.

End GraphScorer.

(** *** Properties of the graph scorer *)

Module GraphScorerFacts.
Import PyDict PyDictFacts GraphScorer.

Lemma find_app_new {A : Type} (p : A -> bool) (l : list A) (x : A) :
  List.find p l = None -> p x = true -> List.find p (l ++ [x]) = Some x.
Proof.
  intros Hnone Hx. induction l as [| y l IH]; simpl in *.
  - now rewrite Hx.
  - destruct (p y); [discriminate | auto].
Qed.

Lemma insert_by_sort_order_In (cr x : CriterionRow) (rows : list CriterionRow) :
  In x (insert_by_sort_order cr rows) -> x = cr \/ In x rows.
Proof.
  induction rows as [| r rows IH]; simpl.
  - intros [<- | []]. now left.
  - destruct (c_sort_order cr <? c_sort_order r); simpl.
    + intros [<- | [<- | H]]; auto.
    + intros [<- | H]; auto. destruct (IH H); auto.
Qed.

Lemma get_criteria_In (s : Store) (x : CriterionRow) :
  In x (get_criteria s) -> In x (criteria s).
Proof.
  unfold get_criteria.
  assert (forall l acc, In x (fold_left
            (fun acc cr => insert_by_sort_order cr acc) l acc) ->
          In x l \/ In x acc) as H.
  { induction l as [| cr l IH]; simpl; intros acc Hin; [auto |].
    destruct (IH _ Hin) as [? | Hacc]; [auto |].
    destruct (insert_by_sort_order_In _ _ _ Hacc); subst; auto. }
  intros Hin. destruct (H _ _ Hin) as [? | []]. assumption.
Qed.

Lemma get_criteria_names (s : Store) (nm : string) :
  ~ In nm (map c_name (criteria s)) -> ~ In nm (map c_name (get_criteria s)).
Proof.
  intros Hnot Hin. apply in_map_iff in Hin as (cr & <- & Hcr).
  apply Hnot, in_map, get_criteria_In, Hcr.
Qed.

(** The loop of [compute_score] reads the store only through the score rows
    of the criteria it walks. *)
Lemma fold_score_step_ext (s s' : Store) (tid : Z) (crs : list CriterionRow) :
  (forall cr, In cr crs ->
     scores s !! (tid, c_name cr) = scores s' !! (tid, c_name cr)) ->
  forall acc,
    fold_left (score_step s tid) crs acc = fold_left (score_step s' tid) crs acc.
Proof.
  induction crs as [| cr crs IH]; intros Hext acc; [reflexivity |].
  simpl. rewrite IH by (intros; apply Hext; now right).
  f_equal. unfold score_step. destruct acc as [[total maxp] details].
  now rewrite (Hext cr) by now left.
Qed.

(** What [compute_score] returns depends on the criteria, the threshold, the
    score rows of the configured criteria and the existence of the target;
    the clock readings only end up in the store. *)
Lemma compute_score_result_ext (s s' : Store) (tid : Z) (t1 t1' t2 t2' : Q) :
  criteria s' = criteria s ->
  config s' = config s ->
  targets s' = targets s ->
  (forall cr, In cr (criteria s) ->
     scores s' !! (tid, c_name cr) = scores s !! (tid, c_name cr)) ->
  outcome_map fst (compute_score tid t2 t2' s')
  = outcome_map fst (compute_score tid t1 t1' s).
Proof.
  intros Hc Hg Ht Hs. unfold compute_score, get_config, get_criteria, target_exists.
  rewrite Hc, Hg, Ht.
  destruct (py_int _) as [threshold |]; [| reflexivity].
  rewrite (fold_score_step_ext s' s tid)
    by (intros cr Hin; apply Hs, get_criteria_In; exact Hin).
  fold (get_criteria s).
  destruct (fold_left (score_step s tid) (get_criteria s) (0, 0, []))
    as [[total maxp] details].
  destruct (existsb _ (targets s)); reflexivity.
Qed.

(** [compute_score] writes the cached total and the linked entity's status,
    nothing else. *)
Lemma compute_score_frame (s s1 : Store) (tid : Z) (t t' : Q) (r : ScoreResult) :
  compute_score tid t t' s = Ok (r, s1) ->
  criteria s1 = criteria s /\ config s1 = config s /\
  targets s1 = targets s /\ scores s1 = scores s.
Proof.
  unfold compute_score.
  destruct (py_int _) as [threshold |]; [| discriminate].
  destruct (fold_left _ _ _) as [[total maxp] details].
  destruct (target_exists tid s); [| discriminate].
  intros [= _ <-]. simpl.
  destruct (List.find _ (targets s)) as [tr |]; [| auto].
  destruct (t_entity_id tr =? 0); auto.
Qed.

Lemma set_entity_status_twice (status : string) (now : Q) (id : Z)
    (rows : list EntityRow) :
  let f := fun r => if e_id r =? id then set_entity_status status now r else r in
  map f (map f rows) = map f rows.
Proof.
  cbv zeta. rewrite map_map. apply map_ext. intros r.
  destruct (e_id r =? id) eqn:E; simpl; rewrite E; reflexivity.
Qed.

(** Recomputing at the same clock readings rewrites the store with what it
    already holds. *)
Lemma compute_score_again_same_store (s s1 : Store) (tid : Z) (t t' : Q)
    (r : ScoreResult) :
  compute_score tid t t' s = Ok (r, s1) ->
  compute_score tid t t' s1 = Ok (r, s1).
Proof.
  intros H. destruct (compute_score_frame _ _ _ _ _ _ H) as (Hc & Hg & Ht & Hs).
  revert H. unfold compute_score, get_config, get_criteria, target_exists.
  rewrite Hc, Hg, Ht.
  destruct (py_int _) as [threshold |]; [| discriminate].
  rewrite (fold_score_step_ext s1 s tid) by (intros; now rewrite Hs).
  destruct (fold_left (score_step s tid) _ (0, 0, [])) as [[total maxp] details].
  destruct (existsb _ (targets s)); [| discriminate].
  cbn [targets with_score_totals]. rewrite Ht.
  destruct (List.find _ (targets s)) as [tr |].
  - destruct (t_entity_id tr =? 0).
    + intros [= <- <-]. cbn. now rewrite insert_insert_eq.
    + intros [= <- <-]. cbn. rewrite insert_insert_eq.
      now rewrite set_entity_status_twice.
  - intros [= <- <-]. cbn. now rewrite insert_insert_eq.
Qed.

(** C6: when [compute_score] returns an aggregate, calling it again right
    away returns the same aggregate (total, max_possible, validated,
    threshold and per-criterion breakdown), leaves criteria and score rows
    as they were, and caches exactly that aggregate; when it raises, it
    raises the same exception again. *)
Theorem compute_score_idempotent (s : Store) (tid : Z) (t1 t1' t2 t2' : Q) :
  match compute_score tid t1 t1' s with
  | Ok (r1, s1) =>
      exists s2,
        compute_score tid t2 t2' s1 = Ok (r1, s2) /\
        criteria s2 = criteria s1 /\ scores s2 = scores s1 /\
        score_totals s2 !! tid =
          Some (mkScoreTotal tid (r_total r1) (r_max_possible r1)
                  (r_validated r1) (r_threshold r1) (r_details r1) t2) /\
        (t2 = t1 -> t2' = t1' -> s2 = s1)
  | Raise err => compute_score tid t2 t2' s = Raise err
  end.
Proof.
  destruct (compute_score tid t1 t1' s) as [[r1 s1] | err] eqn:H1.
  - destruct (compute_score_frame _ _ _ _ _ _ H1) as (Hc & Hg & Ht & Hs).
    pose proof (compute_score_result_ext s s1 tid t1 t1' t2 t2' Hc Hg Ht
                  (fun cr _ => f_equal (fun m => m !! (tid, c_name cr)) Hs))
      as Hext.
    rewrite H1 in Hext. simpl in Hext.
    destruct (compute_score tid t2 t2' s1) as [[r2 s2] | err] eqn:H2;
      simpl in Hext; [| discriminate].
    injection Hext as ->. exists s2. split; [reflexivity |].
    destruct (compute_score_frame _ _ _ _ _ _ H2) as (Hc2 & _ & _ & Hs2).
    repeat split; auto.
    + revert H2. unfold compute_score.
      destruct (py_int _) as [threshold |]; [| discriminate].
      destruct (fold_left _ _ _) as [[total maxp] details].
      destruct (target_exists tid s1); [| discriminate].
      cbn [targets with_score_totals].
      destruct (List.find _ (targets s1)) as [tr |];
        [destruct (t_entity_id tr =? 0) |];
        intros [= <- <-]; cbn; apply lookup_insert_eq.
    + intros -> ->.
      pose proof (compute_score_again_same_store _ _ _ _ _ _ H1) as H3.
      congruence.
  - pose proof (compute_score_result_ext s s tid t1 t1' t2 t2' eq_refl eq_refl
                  eq_refl (fun _ _ => eq_refl)) as Hext.
    rewrite H1 in Hext. simpl in Hext.
    destruct (compute_score tid t2 t2' s) as [[r2 s2] | err2];
      simpl in Hext; congruence.
Qed.

Lemma fold_score_step_details (s : Store) (tid : Z) (nm : string)
    (crs : list CriterionRow) :
  ~ In nm (map c_name crs) ->
  forall acc,
    dict_get nm (snd acc) = None ->
    dict_get nm (snd (fold_left (score_step s tid) crs acc)) = None.
Proof.
  induction crs as [| cr crs IH]; intros Hnot acc Hacc; [exact Hacc |].
  simpl. apply IH; [intros Hin; apply Hnot; now right |].
  destruct acc as [[total maxp] details]. simpl in *.
  apply dict_get_None_set; [| exact Hacc].
  intros Heq. apply Hnot. now left.
Qed.

(** C10: for a criterion name that is not in the configured set,
    [set_criterion] on an existing target stores a row with
    [points_awarded = 0] whatever [met] is, and [compute_score] for that
    target returns what it returned without the row: the row adds nothing to
    the total and has no entry in the breakdown. *)
Theorem set_criterion_unconfigured_name (s : Store) (tid : Z) (nm : string)
    (met : bool) (evidence : string) (now : Q) :
  ~ In nm (map c_name (criteria s)) ->
  target_exists tid s = true ->
  exists s',
    set_criterion tid nm met evidence now s = Ok s' /\
    scores s' !! (tid, nm)
      = Some (mkScore (scores_seq s + 1) tid nm met 0 evidence now) /\
    criteria s' = criteria s /\
    forall t t' : Q,
      outcome_map fst (compute_score tid t t' s')
        = outcome_map fst (compute_score tid t t' s) /\
      forall r s'',
        compute_score tid t t' s' = Ok (r, s'') ->
        dict_get nm (r_details r) = None.
Proof.
  intros Hnot Hex. unfold set_criterion. rewrite Hex.
  assert (List.find (fun r => String.eqb (c_name r) nm) (criteria s) = None)
    as Hfind.
  { destruct (List.find _ (criteria s)) as [row |] eqn:Hf; [| reflexivity].
    apply find_some in Hf as [Hin Heq]. apply String.eqb_eq in Heq.
    exfalso. apply Hnot. rewrite <- Heq. now apply in_map. }
  rewrite Hfind. eexists. split; [reflexivity |]. cbn [scores with_scores].
  split; [apply lookup_insert_eq |]. split; [reflexivity |].
  intros t t'. split.
  - apply compute_score_result_ext; try reflexivity.
    intros cr Hin. cbn [scores with_scores]. apply lookup_insert_ne.
    intros [= Heq]. apply Hnot. rewrite Heq. now apply in_map.
  - unfold compute_score.
    destruct (py_int _) as [threshold |]; [| discriminate].
    match goal with
    | |- context [fold_left ?f ?l ?a] =>
        pose proof (fold_score_step_details
                      (with_scores s
                         (<[(tid, nm) := mkScore (scores_seq s + 1) tid nm met
                                           0 evidence now]> (scores s))
                         (scores_seq s + 1))
                      tid nm l (get_criteria_names s nm Hnot) a eq_refl) as Hd;
        destruct (fold_left f l a) as [[total maxp] details]
    end.
    destruct (target_exists tid _); [| discriminate].
    intros r s'' [= <- _]. exact Hd.
Qed.

Lemma find_map_stable {A : Type} (p : A -> bool) (g : A -> A) (l : list A) :
  (forall x, p (g x) = p x) ->
  List.find p (map g l) = g <$> List.find p l.
Proof.
  intros Hp. induction l as [| x l IH]; simpl; [reflexivity |].
  rewrite Hp. destruct (p x); [reflexivity | exact IH].
Qed.

Lemma set_target_entity_same (r : TargetRow) :
  set_target_entity (t_entity_id r) r = r.
Proof. now destruct r. Qed.

(** After a successful [add_target], the url is stored under the returned
    identifier. *)
Lemma add_target_stored (s s1 : Store) (url : string) (e1 : Z) (p1 : string)
    (kw1 : TargetKw) (now1 : Q) (id1 : Z) :
  add_target url e1 p1 kw1 now1 s = Ok (id1, s1) ->
  exists r,
    List.find (fun r => String.eqb (t_url r) url) (targets s1) = Some r /\
    t_id r = id1.
Proof.
  unfold add_target.
  destruct (List.find _ (targets s)) as [existing |] eqn:Hfind.
  - destruct (_ || _).
    + intros [= <- <-]. eauto.
    + destruct (entity_exists e1 s); [| discriminate].
      intros [= <- <-]. cbn [targets with_targets].
      rewrite find_map_stable, Hfind.
      * simpl. eexists. split; [reflexivity |].
        now destruct (unlinked (t_id existing) existing).
      * intros x. now destruct (unlinked (t_id existing) x).
  - destruct (entity_exists e1 s); [| discriminate].
    intros [= <- <-]. cbn [targets with_targets].
    eexists. split; [apply find_app_new; [exact Hfind |] |]; simpl.
    + apply String.eqb_refl.
    + reflexivity.
Qed.

(** Two target rows that agree on every column but the entity link. *)
Definition same_payload (r1 r2 : TargetRow) : Prop :=
  r2 = set_target_entity (t_entity_id r2) r1.

(** The link is kept, or it was empty on row [id] and is now [entity_id]. *)
Definition link_backfilled (id entity_id : Z) (r1 r2 : TargetRow) : Prop :=
  t_entity_id r2 = t_entity_id r1 \/
  (t_id r1 = id /\ t_entity_id r1 = 0 /\ entity_id <> 0 /\
   t_entity_id r2 = entity_id).

Lemma backfill_rows (id entity_id : Z) (rows : list TargetRow) :
  entity_id <> 0 ->
  Forall2 (fun r1 r2 => same_payload r1 r2 /\ link_backfilled id entity_id r1 r2)
    rows
    (map (fun r => if unlinked id r then set_target_entity entity_id r else r)
       rows).
Proof.
  intros Hne. induction rows as [| r rows IH]; simpl; constructor; [| exact IH].
  unfold same_payload, link_backfilled.
  destruct (unlinked id r) eqn:Hu.
  - split; [reflexivity |]. right. unfold unlinked in Hu.
    apply andb_prop in Hu as [Hi He]. simpl. lia.
  - split; [now rewrite set_target_entity_same | now left].
Qed.

Lemma same_rows (id entity_id : Z) (rows : list TargetRow) :
  Forall2 (fun r1 r2 => same_payload r1 r2 /\ link_backfilled id entity_id r1 r2)
    rows rows.
Proof.
  induction rows as [| r rows IH]; constructor; [| exact IH].
  unfold same_payload, link_backfilled.
  split; [now rewrite set_target_entity_same | now left].
Qed.

(** C4: a second [add_entity] with the same name and city returns the
    identifier of the first and leaves the store as the first call left it;
    a second [add_target] with the same url returns the identifier of the
    first, and every stored target row keeps all its columns, except that
    the entity link of the row with that identifier goes from 0 to the
    entity id supplied when that id is not 0.  The store is untouched when
    no backfill applies.  (The backfill is a write, so the foreign key is
    checked: a supplied id that names no entity raises.) *)
Theorem add_twice_dedup (s : Store) :
  (forall (name kind1 kind2 : string) (kw1 kw2 : EntityKw) (now1 now2 : Q),
     default "" (kw_city kw2) = default "" (kw_city kw1) ->
     add_entity name kind2 kw2 now2 (snd (add_entity name kind1 kw1 now1 s))
     = add_entity name kind1 kw1 now1 s) /\
  (forall (url p1 p2 : string) (e1 e2 : Z) (kw1 kw2 : TargetKw)
          (now1 now2 : Q) (id1 : Z) (s1 : Store),
     add_target url e1 p1 kw1 now1 s = Ok (id1, s1) ->
     let backfill :=
       negb (e2 =? 0) && existsb (unlinked id1) (targets s1) in
     (backfill = false ->
      add_target url e2 p2 kw2 now2 s1 = Ok (id1, s1)) /\
     (backfill = true -> entity_exists e2 s1 = true ->
      exists s2,
        add_target url e2 p2 kw2 now2 s1 = Ok (id1, s2) /\
        s2 = with_targets s1 (targets s2) (targets_seq s1) /\
        Forall2
          (fun r1 r2 => same_payload r1 r2 /\ link_backfilled id1 e2 r1 r2)
          (targets s1) (targets s2)) /\
     (backfill = true -> entity_exists e2 s1 = false ->
      add_target url e2 p2 kw2 now2 s1 = Raise IntegrityError)).
Proof.
  split.
  - intros name kind1 kind2 kw1 kw2 now1 now2 Hcity.
    destruct (List.find
                (fun r => String.eqb (e_name r) name
                          && String.eqb (e_city r) (default "" (kw_city kw1)))
                (entities s)) as [existing |] eqn:Hfind.
    + assert (add_entity name kind1 kw1 now1 s = (e_id existing, s)) as ->
        by (unfold add_entity; now rewrite Hfind).
      unfold add_entity. cbn [snd]. now rewrite Hcity, Hfind.
    + assert (add_entity name kind1 kw1 now1 s
              = add_entity name kind1 kw1 now1 s) as H1 by reflexivity.
      unfold add_entity at 2 in H1. rewrite Hfind in H1. rewrite H1.
      unfold add_entity. cbn [snd entities with_entities]. rewrite Hcity.
      erewrite find_app_new; [reflexivity | exact Hfind |].
      simpl. now rewrite !String.eqb_refl.
  - intros url p1 p2 e1 e2 kw1 kw2 now1 now2 id1 s1 Hfirst.
    destruct (add_target_stored _ _ _ _ _ _ _ _ Hfirst) as (r & Hfind & <-).
    cbv zeta. unfold add_target. rewrite Hfind.
    destruct (e2 =? 0) eqn:He2; simpl.
    + repeat split; intros; discriminate || reflexivity.
    + destruct (existsb (unlinked (t_id r)) (targets s1)); simpl.
      * repeat split; try discriminate.
        -- intros _ ->. eexists. split; [reflexivity |].
           cbn [targets with_targets]. split; [reflexivity |].
           apply backfill_rows. now apply Z.eqb_neq.
        -- intros _ ->. reflexivity.
      * repeat split; intros; discriminate || reflexivity.
Qed.

(** The store of the module's usage example: three criteria with threshold
    60, one entity, its channel, two criteria met. *)
Definition demo_criteria : list CriterionSpec :=
  [mkCriterionSpec "diplome_confirme" (Some "Diplome confirme") None (Some 30) None;
   mkCriterionSpec "localisation_bio" (Some "Ville dans la bio") None (Some 30) None;
   mkCriterionSpec "site_personnel" (Some "Lien site externe") None (Some 10) None].

Definition demo_url : string := "https://youtube.com/@johndoe".

Definition or_else {A : Type} (o : outcome A) (a : A) : A :=
  match o with
  | Ok x => x
  | Raise _ => a
  end.

Definition configured_store : Store :=
  or_else (configure_criteria demo_criteria 60 empty_store) empty_store.

Definition entity_store : Store :=
  snd (add_entity "John Doe" "person" no_entity_kw 1 configured_store).

Definition target_store : Store :=
  snd (or_else (add_target demo_url 1 "youtube" no_target_kw 2 entity_store)
         (0, entity_store)).

Definition scored_store : Store :=
  or_else (set_criterion 1 "localisation_bio" true "" 4
             (or_else (set_criterion 1 "diplome_confirme" true "" 3 target_store)
                target_store))
    target_store.

(** A store that holds a channel with an empty entity link next to the
    entity it belongs to. *)
Definition unlinked_store : Store :=
  with_targets entity_store
    [mkTarget 1 0 "youtube" demo_url "John" "" 0 "" false [] false false false
       [] "{}" 2]
    1.

Lemma add_twice_dedup_demo :
  add_entity "John Doe" "organization" no_entity_kw 9 entity_store
    = (1, entity_store) /\
  add_target demo_url 1 "vimeo"
    (mkTargetKw (Some "other") None (Some 5) None None None None None None
       None None) 9 target_store
    = Ok (1, target_store) /\
  exists s2,
    add_target demo_url 1 "vimeo" no_target_kw 9 unlinked_store = Ok (1, s2) /\
    targets s2 =
      [mkTarget 1 1 "youtube" demo_url "John" "" 0 "" false [] false false
         false [] "{}" 2].
Proof.
  split; [| split].
  - exact (proj1 (add_twice_dedup configured_store) "John Doe" "person"
             "organization" no_entity_kw no_entity_kw 1%Q 9%Q eq_refl).
  - exact (proj1 (proj2 (add_twice_dedup entity_store) demo_url "youtube"
                    "vimeo" 1 1 no_target_kw _ 2%Q 9%Q 1 target_store eq_refl)
             eq_refl).
  - destruct (proj1 (proj2 (proj2 (add_twice_dedup unlinked_store) demo_url
                 "youtube" "vimeo" 0 1 no_target_kw no_target_kw 2%Q 9%Q 1
                 unlinked_store eq_refl)) eq_refl eq_refl)
      as (s2 & Hcall & _ & _).
    exists s2. split; [exact Hcall |].
    revert Hcall. vm_compute. intros [= <-]. reflexivity.
Defined.

Lemma compute_score_twice_demo :
  exists r1 s1 s2,
    compute_score 1 5 6 scored_store = Ok (r1, s1) /\
    r_total r1 = 60 /\ r_max_possible r1 = 70 /\ r_validated r1 = true /\
    compute_score 1 7 8 s1 = Ok (r1, s2).
Proof.
  pose proof (compute_score_idempotent scored_store 1 5 6 7 8) as H.
  destruct (compute_score 1 5 6 scored_store) as [[r1 s1] | err] eqn:E.
  - destruct H as (s2 & H2 & _). exists r1, s1, s2.
    split; [reflexivity |]. split; [| split; [| split; [| exact H2]]];
      revert E; vm_compute; intros [= <- _]; reflexivity.
  - exfalso. revert E. vm_compute. discriminate.
Defined.

Lemma set_criterion_unconfigured_demo :
  exists s',
    set_criterion 1 "bonus" true "seen" 5 scored_store = Ok s' /\
    (s_points_awarded <$> scores s' !! (1, "bonus")) = Some 0 /\
    outcome_map r_total (outcome_map fst (compute_score 1 6 7 s')) = Ok 60.
Proof.
  destruct (set_criterion_unconfigured_name scored_store 1 "bonus" true "seen" 5)
    as (s' & Hset & Hrow & _ & Hsame).
  - vm_compute. intros H. decompose [or] H; discriminate || assumption.
  - reflexivity.
  - exists s'. split; [exact Hset |]. split; [now rewrite Hrow |].
    destruct (Hsame 6%Q 7%Q) as [-> _]. vm_compute. reflexivity.
Defined.

End GraphScorerFacts.

(** ** pipeline/pipeline_core/strategy_planner.py *)

Module StrategyPlanner.

(** [text.replace(old, new)] for a non-empty [old]: every occurrence, left
    to right, without overlap.  [skip] counts the characters of a match that
    remain to be dropped. *)
Fixpoint replace_go (old new : string) (skip : nat) (text : string) : string :=
  match text with
  | EmptyString => EmptyString
  | String c rest =>
      match skip with
      | S k => replace_go old new k rest
      | O =>
          if String.prefix old text
          then new +:+ replace_go old new (String.length old - 1) rest
          else String c (replace_go old new 0 rest)
      end
  end.

Definition replace (old new text : string) : string :=
  replace_go old new 0 text.

#[local] Unset Elimination Schemes.

Inductive Step := mkStep {
  id : string;
  action : string;
  description : string;
  queries : list string;
  expected_output : string;
  sub_steps : list Step;
  source_type : string;
  priority : Q;
  depends_on : string;
  condition : string
}.

#[local] Set Elimination Schemes.

Record Strategy := mkStrategy {
  name : string;
  tier : string;
  tier_label : string;
  strat_description : string;
  steps : list Step;
  estimated_cost : string;
  estimated_yield : string;
  strat_priority : Z
}.

(** One entry of the list [flatten_queries] returns. *)
Record QueryDescriptor := mkQuery {
  q_query : string;
  q_strategy : string;
  q_tier : string;
  q_step_id : string;
  q_step_action : string;
  q_source_type : string;
  q_priority : Q;
  q_condition : string
}.

(** [q.replace("{city}", city).replace("{state}", state)
      .replace("{country}", "USA")] *)
Definition fill (city state q : string) : string :=
  replace "{country}" "USA" (replace "{state}" state (replace "{city}" city q)).

Definition describe (strat_name tier city state : string) (step : Step)
    (q : string) : QueryDescriptor :=
  mkQuery (fill city state q) strat_name tier (id step) (action step)
    (source_type step) (priority step) (condition step).

(** The body of the loop of [_flatten_steps] for one step: its own queries
    are appended to [result], then its sub-steps are walked. *)
Fixpoint flatten_step (strat_name tier city state : string) (step : Step)
    (result : list QueryDescriptor) : list QueryDescriptor :=
  let result :=
    fold_left (fun acc q => acc ++ [describe strat_name tier city state step q])
      (queries step) result in
  (fix walk (subs : list Step) (acc : list QueryDescriptor) :=
     match subs with
     | [] => acc
     | sub :: rest => walk rest (flatten_step strat_name tier city state sub acc)
     end) (sub_steps step) result.

Definition _flatten_steps (steps : list Step) (strat_name tier city state : string)
    (result : list QueryDescriptor) : list QueryDescriptor :=
  fold_left (fun acc step => flatten_step strat_name tier city state step acc)
    steps result.

(** [result.sort(key=lambda x: x["priority"], reverse=True)].  The sort is
    stable, which fixes its result: each element goes in front of the first
    one whose priority is not larger than its own. *)
Fixpoint insert_desc (x : QueryDescriptor) (sorted : list QueryDescriptor)
    : list QueryDescriptor :=
  match sorted with
  | [] => [x]
  | y :: rest =>
      if Qlt_le_dec (q_priority x) (q_priority y)
      then y :: insert_desc x rest
      else x :: sorted
  end.

Definition sort_by_priority_desc (l : list QueryDescriptor) : list QueryDescriptor :=
  fold_right insert_desc [] l.

(** [strategies or self.last_strategies] *)
Definition or_last (strategies : option (list Strategy))
    (last_strategies : list Strategy) : list Strategy :=
  match strategies with
  | Some (s :: rest) => s :: rest
  | _ => last_strategies
  end.

Definition flatten_queries (last_strategies : list Strategy)
    (strategies : option (list Strategy)) (city state : string) : list QueryDescriptor :=
  let strategies := or_last strategies last_strategies in
  let result :=
    fold_left
      (fun acc strat =>
         _flatten_steps (steps strat) (name strat) (tier strat) city state acc)
      strategies [] in
  sort_by_priority_desc result.

End StrategyPlanner.

(** *** Properties of the strategy planner *)

Module StrategyPlannerFacts.
Import StrategyPlanner.

(** Induction over a step tree: the property may be assumed of every
    sub-step. *)
Lemma Step_tree_ind (P : Step -> Prop) :
  (forall i a d qs eo subs st p dep c,
     Forall P subs -> P (mkStep i a d qs eo subs st p dep c)) ->
  forall step, P step.
Proof.
  intros Hnode. fix IH 1. intros [i a d qs eo subs st p dep c].
  apply Hnode. induction subs as [| sub subs IHsubs]; constructor.
  - apply IH.
  - exact IHsubs.
Qed.

(** The depth-first walk in the words of the specification: a step comes
    before its sub-steps, and these, each with its own subtree, in order. *)
Fixpoint preorder (step : Step) : list Step :=
  step :: flat_map preorder (sub_steps step).

Definition step_queries (strat_name tier city state : string) (step : Step)
    : list QueryDescriptor :=
  map (describe strat_name tier city state step) (queries step).

Definition dfs_queries (strategies : list Strategy) (city state : string)
    : list QueryDescriptor :=
  flat_map
    (fun strat =>
       flat_map (step_queries (name strat) (tier strat) city state)
         (flat_map preorder (steps strat)))
    strategies.

Lemma fold_left_snoc {A B : Type} (f : A -> B) (l : list A) (acc : list B) :
  fold_left (fun acc x => acc ++ [f x]) l acc = acc ++ map f l.
Proof.
  revert acc. induction l as [| x l IH]; intros acc; simpl.
  - now rewrite app_nil_r.
  - now rewrite IH, <- app_assoc.
Qed.

Lemma flatten_step_preorder (sn tr city state : string) (step : Step) :
  forall result,
    flatten_step sn tr city state step result
    = result ++ flat_map (step_queries sn tr city state) (preorder step).
Proof.
  induction step as [i a d qs eo subs st p dep c IH] using Step_tree_ind.
  intros result. simpl. rewrite fold_left_snoc.
  unfold step_queries at 1. simpl queries.
  rewrite (app_assoc result). generalize (result ++
    map (describe sn tr city state (mkStep i a d qs eo subs st p dep c)) qs).
  induction IH as [| sub subs Hsub _ IHsubs]; intros acc; simpl.
  - now rewrite app_nil_r.
  - rewrite IHsubs, Hsub, flat_map_app, <- app_assoc. reflexivity.
Qed.

Lemma flatten_steps_preorder (sn tr city state : string) (l : list Step) :
  forall result,
    _flatten_steps l sn tr city state result
    = result ++ flat_map (step_queries sn tr city state) (flat_map preorder l).
Proof.
  unfold _flatten_steps. induction l as [| step l IH]; intros result; simpl.
  - now rewrite app_nil_r.
  - rewrite IH, flatten_step_preorder, flat_map_app, <- app_assoc. reflexivity.
Qed.

Lemma flatten_queries_dfs (last : list Strategy)
    (strategies : option (list Strategy)) (city state : string) :
  flatten_queries last strategies city state
  = sort_by_priority_desc (dfs_queries (or_last strategies last) city state).
Proof.
  unfold flatten_queries, dfs_queries. f_equal.
  rewrite <- (app_nil_l (flat_map _ _)). generalize (@nil QueryDescriptor).
  induction (or_last strategies last) as [| strat l IH]; intros acc; simpl.
  - now rewrite app_nil_r.
  - rewrite IH, flatten_steps_preorder, <- app_assoc. reflexivity.
Qed.

Example replace_every_occurrence :
  replace "{city}" "Austin" "{city} vloggers near {city}"
    = "Austin vloggers near Austin" /\
  replace "aa" "b" "aaa" = "ba" /\
  fill "Austin" "Texas" "{city}, {state}, {country}" = "Austin, Texas, USA".
Proof. repeat split. Qed.

(** Descending order of priority. *)
Definition desc (a b : QueryDescriptor) : Prop :=
  (q_priority b <= q_priority a)%Q.

Definition has_priority (p : Q) (d : QueryDescriptor) : bool :=
  Qeq_bool (q_priority d) p.

Lemma insert_desc_perm (x : QueryDescriptor) (l : list QueryDescriptor) :
  Permutation (x :: l) (insert_desc x l).
Proof.
  induction l as [| y l IH]; simpl; [reflexivity |].
  destruct (Qlt_le_dec (q_priority x) (q_priority y)); [| reflexivity].
  rewrite perm_swap. now apply perm_skip.
Qed.

Lemma sort_perm (l : list QueryDescriptor) :
  Permutation l (sort_by_priority_desc l).
Proof.
  induction l as [| x l IH]; simpl; [reflexivity |].
  rewrite <- insert_desc_perm. now apply perm_skip.
Qed.

Lemma insert_desc_sorted (x : QueryDescriptor) (l : list QueryDescriptor) :
  StronglySorted desc l -> StronglySorted desc (insert_desc x l).
Proof.
  induction 1 as [| y l Hsorted IH Hall]; simpl.
  - repeat constructor.
  - destruct (Qlt_le_dec (q_priority x) (q_priority y)) as [Hlt | Hle].
    + constructor; [exact IH |].
      rewrite <- insert_desc_perm. constructor; [| exact Hall].
      unfold desc. now apply Qlt_le_weak.
    + constructor; [now constructor |].
      constructor; [exact Hle |].
      apply (Forall_impl _ _ _ Hall). unfold desc.
      intros z Hz. now apply Qle_trans with (q_priority y).
Qed.

Lemma sort_sorted (l : list QueryDescriptor) :
  StronglySorted desc (sort_by_priority_desc l).
Proof.
  induction l as [| x l IH]; simpl; [constructor |].
  now apply insert_desc_sorted.
Qed.

(** Inserting never moves an element past one of the same priority. *)
Lemma filter_insert_desc (p : Q) (x : QueryDescriptor) (l : list QueryDescriptor) :
  List.filter (has_priority p) (insert_desc x l)
  = List.filter (has_priority p) (x :: l).
Proof.
  induction l as [| y l IH]; [reflexivity |].
  simpl insert_desc.
  destruct (Qlt_le_dec (q_priority x) (q_priority y)) as [Hlt | Hle];
    [| reflexivity].
  simpl in *. rewrite IH. unfold has_priority.
  destruct (Qeq_bool (q_priority x) p) eqn:Hx; [| reflexivity].
  destruct (Qeq_bool (q_priority y) p) eqn:Hy; [| reflexivity].
  apply Qeq_bool_iff in Hx, Hy. exfalso. rewrite Hx, Hy in Hlt.
  exact (Qlt_irrefl _ Hlt).
Qed.

Lemma sort_stable (p : Q) (l : list QueryDescriptor) :
  List.filter (has_priority p) (sort_by_priority_desc l)
  = List.filter (has_priority p) l.
Proof.
  induction l as [| x l IH]; [reflexivity |].
  simpl sort_by_priority_desc. rewrite filter_insert_desc.
  simpl. now rewrite IH.
Qed.

Lemma dfs_queries_filled (strategies : list Strategy) (city state : string) :
  Forall
    (fun d =>
       exists strat step q,
         In strat strategies /\ In q (queries step) /\
         d = describe (name strat) (tier strat) city state step q)
    (dfs_queries strategies city state).
Proof.
  apply List.Forall_forall. intros d Hd. unfold dfs_queries in Hd.
  apply in_flat_map in Hd as (strat & Hstrat & Hd).
  apply in_flat_map in Hd as (step & _ & Hd).
  apply in_map_iff in Hd as (q & <- & Hq).
  exists strat, step, q. auto.
Qed.

(** The example of the specification: one strategy whose three top-level
    steps have priorities 10, 90 and 50. *)
Definition example_step (i q : string) (p : Q) : Step :=
  mkStep i "search" "" [q] "" [] "press" p "" "always".

Definition example_strategy : Strategy :=
  mkStrategy "Direct" "direct" "Strategie directe" ""
    [example_step "S1" "{city} film school" 10;
     example_step "S2" "filmmakers in {city}, {state}" 90;
     example_step "S3" "{state} {country} directors" 50]
    "low" "high" 1.

(** C7: [flatten_queries] returns the queries of the depth-first walk of the
    step trees of all strategies (those passed in, or the planner's last
    ones when none are passed), each built from a step query by placeholder
    substitution, in descending order of step priority, queries of equal
    priority staying in the order of the walk; steps of priorities
    10, 90, 50 come out as 90, 50, 10. *)
Theorem flatten_queries_sorted_walk (last : list Strategy)
    (strategies : option (list Strategy)) (city state : string) :
  let walk := dfs_queries (or_last strategies last) city state in
  let result := flatten_queries last strategies city state in
  Permutation walk result /\
  StronglySorted desc result /\
  (forall p : Q,
     List.filter (has_priority p) result = List.filter (has_priority p) walk) /\
  Forall
    (fun d =>
       exists strat step q,
         In strat (or_last strategies last) /\ In q (queries step) /\
         q_priority d = priority step /\
         q_query d =
           replace "{country}" "USA"
             (replace "{state}" state (replace "{city}" city q)))
    result /\
  map (fun d => (q_priority d, q_query d))
    (flatten_queries [] (Some [example_strategy]) "Austin" "Texas")
  = [(90%Q, "filmmakers in Austin, Texas");
     (50%Q, "Texas USA directors");
     (10%Q, "Austin film school")].
Proof.
  cbv zeta. rewrite flatten_queries_dfs. repeat split.
  - apply sort_perm.
  - apply sort_sorted.
  - intros p. apply sort_stable.
  - rewrite <- sort_perm.
    apply (Forall_impl _ _ _ (dfs_queries_filled _ city state)).
    intros d (strat & step & q & Hs & Hq & ->).
    exists strat, step, q. repeat split; auto.
Qed.

End StrategyPlannerFacts.

(** ** pipeline/pipeline.py: one category wave

    The wave is straight-line code around calls to collaborators (query
    generation, checkpoints, browser search, triage, page fetch and
    extraction, assembly, follow-ups, verification).  What those calls
    return is given by a [Collaborators] record; every call the wave makes
    is recorded, in order, in a trace of events.  The bookkeeping done
    inside the search sub-method (the per-query cost evaluation and the
    entries appended to [search_log]) belongs to that collaborator and is
    not tracked. *)

Module Pipeline.

Definition MAX_WAVES : Z := 3.
Definition MAX_PAGES_TO_FETCH : nat := 25.

Inductive status := PENDING | IN_PROGRESS | RESOLVED | PARTIAL | FAILED.

(** The city and category a wave works on. *)
Record Place := mkPlace {
  city : string;
  state_name : string;
  cat_key : string;
  cat_label : string
}.

Record Query := mkQuery {
  query : string;
  angle : string
}.

Record SearchResult := mkResult {
  url : string;
  title : string
}.

(** An entry of [other_cities_mentioned], kept as the extractor returns it. *)
Record CrossMention := mkCrossMention {
  mention : string
}.

(** A candidate as the assembler returns it: a dict with optional keys. *)
Record Candidate := mkCandidate {
  channel_name : option string;
  channel_url : option string
}.

Record CategoryResolution := mkCategoryResolution {
  category : string;
  cat_status : status;
  waves_attempted : Z;
  candidates : list DataModels.ChannelCandidate;
  best_candidate : option DataModels.ChannelCandidate;
  failure_reason : string;
  search_log : list Query
}.

(** The answer of a checkpoint: ["skip"], ["modify"], or anything else. *)
Inductive response := Continue | Modify | Skip.

Inductive page_outcome :=
| Stopped
| FetchFailed
| Extracted (frags : list DataModels.Fragment) (cross : list CrossMention).

Record Collaborators := mkCollaborators {
  generate_queries : list Query;
  cp_queries : response;
  cp_modifications : list Query;
  search : list Query -> list SearchResult;
  cp_search : response;
  triage_results : list SearchResult -> list SearchResult;
  fetch_and_extract : nat -> SearchResult -> page_outcome;
  assemble_candidates : list DataModels.Fragment -> list Candidate;
  cp_candidates : response;
  followups : list Candidate -> list Candidate;
  verify_youtube : list Candidate -> list DataModels.ChannelCandidate
}.

Inductive event :=
| GenerateQueries
| Checkpoint (name : string)
| Search (queries : list Query)
| SaveSearchCsv
| CostReport (source : string) (found cost value : Z) (report_query : string)
| Triage (results : list SearchResult)
| FetchPage (page_url : string)
| Assemble (frags : list DataModels.Fragment)
| GraphAddEntity (name : string)
| GraphAddTarget (target_url : string)
| Followups
| VerifyYoutube
| CategoryResolved
| SaveVerifiedCsv
| AnalyzeFailure (wave tr pf fr vr : Z).

(** What a wave has done so far. *)
Record Run := mkRun {
  cat_res : CategoryResolution;
  cross_city_fragments : list CrossMention;
  trace : list event
}.

Definition emit (ev : event) (r : Run) : Run :=
  mkRun (cat_res r) (cross_city_fragments r) (trace r ++ [ev]).

Definition set_failed (reason : string) (r : Run) : Run :=
  let c := cat_res r in
  mkRun
    (mkCategoryResolution (category c) FAILED (waves_attempted c) (candidates c)
       (best_candidate c) reason (search_log c))
    (cross_city_fragments r) (trace r).

Definition set_resolved (best : DataModels.ChannelCandidate)
    (verified : list DataModels.ChannelCandidate) (r : Run) : Run :=
  let c := cat_res r in
  mkRun
    (mkCategoryResolution (category c) RESOLVED (waves_attempted c) verified
       (Some best) (failure_reason c) (search_log c))
    (cross_city_fragments r) (trace r).

Definition begin_wave (wave : Z) (c : CategoryResolution) : Run :=
  mkRun
    (mkCategoryResolution (category c) IN_PROGRESS wave (candidates c)
       (best_candidate c) (failure_reason c) (search_log c))
    [] [].

Definition len {A : Type} (l : list A) : Z := Z.of_nat (length l).

Definition _escalate (wave : Z) (tr pf fr vr : Z) (r : Run) : Run :=
  if MAX_WAVES <=? wave then
    set_failed
      ("Exhausted " +:+ pretty wave +:+ " waves (results:" +:+ pretty tr
       +:+ ",pages:" +:+ pretty pf +:+ ",frags:" +:+ pretty fr +:+ ")") r
  else emit (AnalyzeFailure wave tr pf fr vr) r.

(** [[r for r in all_results if r.get("url") not in seen and not
    seen.add(...)]]: the first result of every url. *)
Fixpoint dedup (seen : list string) (results : list SearchResult) : list SearchResult :=
  match results with
  | [] => []
  | r :: rest =>
      if bool_decide (url r ∈ seen) then dedup seen rest
      else r :: dedup (url r :: seen) rest
  end.

Definition source_tier (wave : Z) : string :=
  if wave =? 1 then "direct" else if wave =? 2 then "semi_direct" else "indirect".

(** Phase 4: the fetch loop stops when the run flag is cleared, skips pages
    without url and pages whose fetch fails. *)
Fixpoint fetch_pages (ext : Collaborators) (j : nat) (pages : list SearchResult)
    (frags : list DataModels.Fragment) (cross : list CrossMention) (r : Run)
    : list DataModels.Fragment * list CrossMention * Run :=
  match pages with
  | [] => (frags, cross, r)
  | page :: rest =>
      match fetch_and_extract ext j page with
      | Stopped => (frags, cross, r)
      | outcome =>
          if String.eqb (url page) "" then
            fetch_pages ext (S j) rest frags cross r
          else
            let r := emit (FetchPage (url page)) r in
            match outcome with
            | Extracted f c =>
                fetch_pages ext (S j) rest (frags ++ f) (cross ++ c) r
            | _ => fetch_pages ext (S j) rest frags cross r
            end
      end
  end.

(** Feeding the graph: an entity per candidate, and a target when the
    candidate has a channel url. *)
Definition feed_graph (cands : list Candidate) (r : Run) : Run :=
  fold_left
    (fun r cand =>
       let r := emit (GraphAddEntity (default "?" (channel_name cand))) r in
       match channel_url cand with
       | Some u => if String.eqb u "" then r else emit (GraphAddTarget u) r
       | None => r
       end)
    cands r.

Definition is_skip (answer : response) : bool :=
  match answer with
  | Skip => true
  | _ => false
  end.

(** The body of [_process_category_wave], cut at its phase banners; each
    piece ends where the code returns early or falls into the next phase. *)

(** Phases 6 and 7: follow-ups, verification, resolution. *)
Definition phase_verify (ext : Collaborators) (wave : Z)
    (cands : list Candidate) (r : Run) : Run :=
  let r := emit Followups r in
  let cands := followups ext cands in
  let r := emit VerifyYoutube r in
  match verify_youtube ext cands with
  | v :: vs =>
      let verified := v :: vs in
      let best := default v (Py.max_by DataModels.total_score verified) in
      let r := set_resolved best verified r in
      let r := emit CategoryResolved r in
      let r := emit SaveVerifiedCsv r in
      emit (CostReport (source_tier wave) (len verified) 0 (len verified * 20)
              "") r
  | [] =>
      if MAX_WAVES <=? wave then
        set_failed ("No verified channel after " +:+ pretty wave +:+ " waves") r
      else r
  end.

(** Phase 5: assembly, graph feeding and the third checkpoint. *)
Definition phase_assembly (ext : Collaborators) (wave : Z)
    (unique to_fetch : list SearchResult) (all_frags : list DataModels.Fragment)
    (r : Run) : Run :=
  let r := emit (Assemble all_frags) r in
  let cands := assemble_candidates ext all_frags in
  if bool_decide (cands = []) then
    _escalate wave (len unique) (len to_fetch) (len all_frags) 0 r
  else
    let r := feed_graph cands r in
    let r := emit (Checkpoint "candidates_found") r in
    if is_skip (cp_candidates ext) then
      set_failed "Skipped before verification" r
    else phase_verify ext wave cands r.

(** Phase 4: fetch and extract. *)
Definition phase_fetch (ext : Collaborators) (wave : Z)
    (unique to_fetch : list SearchResult) (r : Run) : Run :=
  let '(all_frags, cross, r) := fetch_pages ext 0 to_fetch [] [] r in
  let r := mkRun (cat_res r) (cross_city_fragments r ++ cross) (trace r) in
  if bool_decide (all_frags = []) then
    _escalate wave (len unique) (len to_fetch) 0 0 r
  else phase_assembly ext wave unique to_fetch all_frags r.

(** Phase 3: cost report, second checkpoint, triage. *)
Definition phase_triage (loc : Place) (ext : Collaborators) (wave : Z)
    (queries : list Query) (unique : list SearchResult) (r : Run) : Run :=
  let yt_in_results :=
    len (List.filter (fun x => Py.contains "youtube.com" (url x)) unique) in
  let r :=
    emit (CostReport (source_tier wave) yt_in_results (len queries) 0
            (city loc +:+ "/" +:+ cat_label loc +:+ "/wave" +:+ pretty wave))
      r in
  let r := emit (Checkpoint "search_done") r in
  if is_skip (cp_search ext) then
    set_failed "Skipped after search" (emit SaveSearchCsv r)
  else
    let r := emit (Triage unique) r in
    let to_fetch := take MAX_PAGES_TO_FETCH (triage_results ext unique) in
    let r := emit SaveSearchCsv r in
    if bool_decide (to_fetch = []) then _escalate wave (len unique) 0 0 0 r
    else phase_fetch ext wave unique to_fetch r.

(** Phase 2: search and deduplication. *)
Definition phase_search (loc : Place) (ext : Collaborators) (wave : Z)
    (queries : list Query) (r : Run) : Run :=
  let r := emit (Search queries) r in
  let unique := dedup [] (search ext queries) in
  if bool_decide (unique = []) then
    let r := emit SaveSearchCsv r in
    let r := emit (CostReport "direct" 0 (len queries) 0 "") r in
    _escalate wave 0 0 0 0 r
  else phase_triage loc ext wave queries unique r.

(** Phase 1 and the first checkpoint. *)
Definition _process_category_wave (loc : Place) (ext : Collaborators)
    (wave : Z) (c : CategoryResolution) : Run :=
  let r := emit GenerateQueries (begin_wave wave c) in
  let queries := generate_queries ext in
  if bool_decide (queries = []) then set_failed "No queries" r
  else
    let r := emit (Checkpoint "queries_ready") r in
    if is_skip (cp_queries ext) then set_failed "Skipped by user" r
    else
      let queries :=
        match cp_queries ext, cp_modifications ext with
        | Modify, q :: qs =>
            List.filter (fun q => negb (String.eqb (Py.strip (query q)) ""))
              (q :: qs)
        | _, _ => queries
        end in
      phase_search loc ext wave queries r.

(** The engine call behind a [CostReport] event. *)
Definition report_to_engine (exp : Q -> Q) (now : Q) (ev : event)
    (e : CostEngine.Engine) : CostEngine.Engine :=
  match ev with
  | CostReport source found cost value q =>
      CostEngine.report_result exp source found (inject_Z cost)
        (inject_Z value) q now e
  | _ => e
  end.

End Pipeline.

(** *** Properties of the category wave *)

Module PipelineFacts.
Import Pipeline.








Definition is_fetch (ev : event) : bool :=
  match ev with
  | FetchPage _ => true
  | _ => false
  end.






(** The report of a wave without results is a miss for the cost engine: on
    an engine that knows the "direct" source it adds one attempt and one
    miss to that source and leaves [total_found] alone. *)
Lemma no_results_report_is_miss (exp : Q -> Q) (now : Q) (n : Z)
    (e : CostEngine.Engine) (src : CostEngine.SourceStats) :
  CostEngine.get_source "direct" e = Some src ->
  let e' := report_to_engine exp now (CostReport "direct" 0 n 0 "") e in
  CostEngine.total_found e' = CostEngine.total_found e /\
  exists src',
    CostEngine.get_source "direct" e' = Some src' /\
    CostEngine.misses src' = CostEngine.misses src + 1 /\
    CostEngine.hits src' = CostEngine.hits src.
Proof.
  intros Hsrc. cbv zeta. unfold report_to_engine.
  destruct (CostEngineFacts.report_result_zero_found_is_miss exp e "direct"
              (inject_Z n) (inject_Z 0) "" now src Hsrc)
    as (Hfound & _ & src' & Hget & Hmiss & Hhits & _).
  split; [exact Hfound |]. exists src'. auto.
Qed.


(** Scenario A: one query, no search result. *)
Definition barren_collaborators : Collaborators :=
  mkCollaborators [mkQuery "austin movie review youtube" "direct"] Continue []
    (fun _ => []) Continue (fun l => l) (fun _ _ => FetchFailed) (fun _ => [])
    Continue (fun l => l) (fun _ => []).


End PipelineFacts.

(** * Further properties

    The modules below cover the rest of the cited files: what the cost
    engine keeps invariant over a run, the reporting and persistence side of
    the engine, the task queue and idempotency log of the graph store, query
    counting and generation, and the city loop around the category wave. *)

(** ** Cost engine: what a run of calls does to one source *)

Module CostEngineRuns.
Import PyDict PyDictFacts CostEngine CostEngineFacts.

(** The ways a call can rewrite the statistics of a source. *)
Inductive evolves (c : Config) (s : SourceStats) : SourceStats -> Prop :=
| ev_same : evolves c s s
| ev_hit (found : Z) (cost value : Q) :
    0 < found -> evolves c s (record_hit c found value (bump_attempt cost s))
| ev_miss (cost : Q) : evolves c s (fst (record_miss c (bump_attempt cost s)))
| ev_mark : evolves c s (mark_exhausted s).

Lemma dict_get_alter_values {V : Type} (g : V -> V) (k : string) (d : dict V) :
  forall i : nat,
    dict_get k (alter (fun kv => (fst kv, g (snd kv))) i d) = dict_get k d \/
    exists v,
      dict_get k d = Some v /\
      dict_get k (alter (fun kv => (fst kv, g (snd kv))) i d) = Some (g v).
Proof.
  induction d as [| [k0 v0] d IH]; intros i; [now left |].
  destruct i as [| i]; simpl.
  - destruct (String.eqb k k0); [right; eauto | now left].
  - destruct (String.eqb k k0); [now left | apply IH].
Qed.

(** [should_stop] writes the stop flag and the reason, nothing else. *)
Lemma should_stop_frame (e : Engine) :
  cfg (snd (should_stop e)) = cfg e /\
  sources (snd (should_stop e)) = sources e /\
  total_found (snd (should_stop e)) = total_found e /\
  total_actions (snd (should_stop e)) = total_actions e /\
  action_log (snd (should_stop e)) = action_log e.
Proof.
  unfold should_stop. destruct (_stopped e); [repeat split |].
  destruct (_ <=? _); [repeat split |]. destruct (_ <=? _); [repeat split |].
  destruct (active e), (sources e) eqn:Hs; simpl; repeat split; auto.
Qed.

Section Runs.

Variable exp : Q -> Q.

Lemma next_source_fuel_evolves (fuel : nat) :
  forall (rand : nat -> Q) (pick level : nat) (e e' : Engine)
         (r : option string) (k : string) (s : SourceStats),
    next_source_fuel exp fuel rand pick level e = Some (r, e') ->
    dict_get k (sources e) = Some s ->
    cfg e' = cfg e /\ total_found e' = total_found e /\
    total_actions e' = total_actions e /\ action_log e' = action_log e /\
    exists s',
      dict_get k (sources e') = Some s' /\
      (s' = s \/ s' = mark_exhausted s).
Proof.
  induction fuel as [| fuel IH]; intros rand pick level e e' r k s H Hk;
    [discriminate |].
  simpl in H.
  destruct (Py.max_by _ (active_indexed e)) as [[i best] |];
    [| injection H as _ <-; repeat split; eauto].
  destruct (if _ && _ then _ else _) as [| o os];
    [| injection H as _ <-; repeat split; eauto].
  destruct (_ && _); [| injection H as _ <-; repeat split; eauto].
  destruct (dict_get_alter_values mark_exhausted k (sources e) i)
    as [Hsame | (v & Hv & Halt)].
  - rewrite Hk in Hsame.
    destruct (IH _ _ _ _ _ _ k s H Hsame) as (Hc & Hf & Ha & Hl & s' & Hs' & Hor).
    simpl in Hc, Hf, Ha, Hl. repeat split; auto. eauto.
  - rewrite Hk in Hv. injection Hv as <-.
    destruct (IH _ _ _ _ _ _ k (mark_exhausted s) H Halt)
      as (Hc & Hf & Ha & Hl & s' & Hs' & Hor).
    simpl in Hc, Hf, Ha, Hl. repeat split; auto.
    exists s'. split; [exact Hs' |]. right.
    destruct Hor as [-> | ->]; reflexivity.
Qed.

(** One call keeps the configuration, keeps every registered source
    registered, and rewrites its statistics in one of the four ways. *)
Lemma exec_evolves (e : Engine) (c : call) (k : string) (s : SourceStats) :
  dict_get k (sources e) = Some s ->
  cfg (exec exp e c) = cfg e /\
  exists s',
    dict_get k (sources (exec exp e c)) = Some s' /\ evolves (cfg e) s s'.
Proof.
  intros Hk. destruct c; simpl.
  - unfold add_source. destruct (dict_get nm (sources e)) eqn:Hnm.
    + split; [reflexivity |]. exists s. split; [exact Hk | constructor].
    + split; [reflexivity |]. exists s. split; [| constructor]. simpl.
      rewrite dict_get_set_ne; [exact Hk |]. intros ->. congruence.
  - unfold report_result.
    destruct (dict_get nm (sources e)) as [src |] eqn:Hnm;
      [| split; [reflexivity |]; exists s; split; [exact Hk | constructor]].
    destruct (String.eqb_spec nm k) as [-> | Hne].
    + rewrite Hk in Hnm. injection Hnm as <-.
      destruct (0 <? found) eqn:Hf.
      * simpl. split; [reflexivity |]. eexists.
        split; [apply dict_get_set_eq |].
        apply ev_hit. now apply Z.ltb_lt.
      * destruct (record_miss (cfg e) (bump_attempt cost s)) as [s2 d] eqn:Hm.
        simpl. split; [reflexivity |]. exists s2.
        split; [apply dict_get_set_eq |].
        change s2 with (fst (s2, d)). rewrite <- Hm. apply ev_miss.
    + assert (forall src2 ft log,
                dict_get k (sources
                  (mkEngine (cfg e) (dict_set nm src2 (sources e)) ft
                     (total_actions e + 1) log (started_at e) (_stopped e)
                     (_stop_reason e))) = Some s) as Hother
        by (intros; simpl; now rewrite dict_get_set_ne).
      destruct (0 <? found).
      * simpl. split; [reflexivity |]. exists s. split; [| constructor].
        now rewrite dict_get_set_ne.
      * destruct (record_miss (cfg e) (bump_attempt cost src)) as [s2 d].
        simpl. split; [reflexivity |]. exists s. split; [| constructor].
        now rewrite dict_get_set_ne.
  - destruct (should_stop_frame e) as (Hc & Hs & _).
    rewrite Hc, Hs. split; [reflexivity |]. exists s.
    split; [exact Hk | constructor].
  - pose proof (next_source_total exp rand pick e) as Htot.
    destruct (next_source exp rand pick e) as [r e'] eqn:Hn. simpl.
    destruct (next_source_fuel_evolves _ _ _ _ _ _ _ k s Htot Hk)
      as (Hc & _ & _ & _ & s' & Hs' & Hor).
    split; [exact Hc |]. exists s'. split; [exact Hs' |].
    destruct Hor as [-> | ->]; constructor.
  - unfold evaluate_action. destruct (dict_get nm (sources e)) as [src |];
      [| split; [reflexivity |]; exists s; split; [exact Hk | constructor]].
    destruct (exhausted src);
      [split; [reflexivity |]; exists s; split; [exact Hk | constructor] |].
    destruct (should_stop_frame e) as (Hc & Hs & _).
    destruct (should_stop e) as [stop e1]. simpl in Hc, Hs.
    destruct stop; [| destruct (_ && _)]; simpl; rewrite Hc, Hs;
      (split; [reflexivity |]; exists s; split; [exact Hk | constructor]).
  - split; [reflexivity |]. exists s. split; [exact Hk | constructor].
Qed.

(** A property of a source that no rewrite breaks holds after any run. *)
Lemma run_preserves (P : Config -> SourceStats -> Prop) :
  (forall c s s', evolves c s s' -> P c s -> P c s') ->
  forall (calls : list call) (e : Engine) (k : string) (s : SourceStats),
    dict_get k (sources e) = Some s -> P (cfg e) s ->
    cfg (run exp calls e) = cfg e /\
    exists s',
      dict_get k (sources (run exp calls e)) = Some s' /\ P (cfg e) s'.
Proof.
  intros Hstep. induction calls as [| c calls IH]; intros e k s Hk HP.
  - split; [reflexivity |]. eauto.
  - destruct (exec_evolves e c k s Hk) as (Hc & s1 & Hk1 & Hev).
    unfold run in *. simpl fold_left.
    destruct (IH (exec exp e c) k s1 Hk1) as (Hc2 & s' & Hk' & HP').
    + rewrite Hc. eapply Hstep; eauto.
    + rewrite Hc in *. split; [congruence |]. eauto.
Qed.

(** The patience of a source stays between 0 and twice the initial budget:
    with a non-negative budget, recharge and drain, a source whose patience
    is in that range (a freshly registered one is) keeps it there through
    any run of calls. *)
Theorem patience_stays_in_range (calls : list call) (e : Engine)
    (nm : string) (s : SourceStats) :
  0 <= patience_initial (cfg e) ->
  0 <= patience_recharge (cfg e) ->
  0 <= patience_drain (cfg e) ->
  get_source nm e = Some s ->
  0 <= patience s <= 2 * patience_initial (cfg e) ->
  exists s',
    get_source nm (run exp calls e) = Some s' /\
    0 <= patience s' <= 2 * patience_initial (cfg e).
Proof.
  intros Hp Hr Hd Hs Hb. unfold get_source in *.
  destruct (run_preserves
              (fun c x =>
                 0 <= patience_initial c -> 0 <= patience_recharge c ->
                 0 <= patience_drain c ->
                 0 <= patience x <= 2 * patience_initial c))
    with (calls := calls) (e := e) (k := nm) (s := s)
    as (_ & s' & Hs' & Hb'); auto.
  - clear. intros c s s' Hev IH Hp Hr Hd. specialize (IH Hp Hr Hd).
    destruct Hev; simpl; auto.
    + lia.
    + unfold record_miss, bump_attempt. simpl.
      destruct (Z.leb_spec (patience s - patience_drain c) 0); simpl; lia.
  - eauto.
Qed.

(** Exhaustion is final: no call on the engine brings an exhausted source
    back, not even a later hit on it. *)
Theorem exhausted_is_terminal (calls : list call) (e : Engine)
    (nm : string) (s : SourceStats) :
  get_source nm e = Some s ->
  exhausted s = true ->
  exists s',
    get_source nm (run exp calls e) = Some s' /\ exhausted s' = true.
Proof.
  intros Hs Hex. unfold get_source in *.
  destruct (run_preserves (fun _ x => exhausted x = true))
    with (calls := calls) (e := e) (k := nm) (s := s)
    as (_ & s' & Hs' & Hex'); eauto.
  clear. intros c s s' Hev IH. destruct Hev; simpl; auto.
  unfold record_miss, bump_attempt. simpl.
  destruct (_ <=? 0); simpl; auto.
Qed.

(** Through any run of calls a source keeps its name, prior priority and
    creation time; its attempts, hits and misses never decrease; its misses
    grow by no more than its attempts do; and the attempt number of its last
    hit never runs ahead of its attempts. *)
Theorem source_counters_monotone (calls : list call) (e : Engine)
    (nm : string) (s : SourceStats) :
  get_source nm e = Some s ->
  exists s',
    get_source nm (run exp calls e) = Some s' /\
    name s' = name s /\ priority s' = priority s /\
    created_at s' = created_at s /\
    attempts s <= attempts s' /\ hits s <= hits s' /\
    misses s <= misses s' /\
    misses s' - misses s <= attempts s' - attempts s /\
    (last_hit_at s <= attempts s -> last_hit_at s' <= attempts s').
Proof.
  intros Hs. unfold get_source in *.
  destruct (run_preserves
              (fun _ x =>
                 name x = name s /\ priority x = priority s /\
                 created_at x = created_at s /\
                 attempts s <= attempts x /\ hits s <= hits x /\
                 misses s <= misses x /\
                 misses x - misses s <= attempts x - attempts s /\
                 (last_hit_at s <= attempts s -> last_hit_at x <= attempts x)))
    with (calls := calls) (e := e) (k := nm) (s := s)
    as (_ & s' & Hs' & HP); eauto.
  - clear. intros c x x' Hev (Hn & Hp & Hc & Ha & Hh & Hm & Hd & Hl).
    destruct Hev.
    + repeat split; auto.
    + simpl. repeat split; auto; lia.
    + unfold record_miss, bump_attempt. simpl.
      destruct (_ <=? 0); simpl; repeat split; auto; lia.
    + simpl. repeat split; auto.
  - repeat split; auto; lia.
Qed.

(** [evaluate_action] lets an action run only on a registered, active source
    of an engine that is not stopping, and then leaves the engine as it
    was; and such a source is never refused during its first five attempts,
    whatever its predicted ROI. *)
Theorem evaluate_action_gate (e : Engine) (nm : string) (cost : Q) :
  (execute (fst (evaluate_action exp nm cost e)) = true ->
   snd (evaluate_action exp nm cost e) = e /\
   ev_reason (fst (evaluate_action exp nm cost e)) = Go /\
   should_stop e = (false, e) /\
   exists src,
     get_source nm e = Some src /\ exhausted src = false /\
     (attempts src <= 5 \/
      (min_roi (cfg e) <= predict_roi exp nm cost e)%Q)) /\
  (forall src,
     get_source nm e = Some src -> exhausted src = false ->
     fst (should_stop e) = false -> attempts src <= 5 ->
     execute (fst (evaluate_action exp nm cost e)) = true).
Proof.
  unfold evaluate_action, get_source. split.
  - destruct (dict_get nm (sources e)) as [src |]; [| discriminate].
    destruct (exhausted src) eqn:Hex; [discriminate |].
    assert (fst (should_stop e) = false -> should_stop e = (false, e)) as Hno.
    { unfold should_stop. destruct (_stopped e); [discriminate |].
      destruct (_ <=? _); [discriminate |].
      destruct (_ <=? _); [discriminate |].
      destruct (active e), (sources e); discriminate || reflexivity. }
    destruct (should_stop e) as [stop e1] eqn:Hstop.
    destruct stop; [discriminate |].
    specialize (Hno eq_refl). injection Hno as ->.
    destruct (Py.Qltb _ _ && _) eqn:Hlow; [discriminate |].
    simpl. intros _. split; [reflexivity |]. split; [reflexivity |].
    split; [reflexivity |]. exists src. split; [reflexivity |].
    split; [exact Hex |].
    apply andb_false_iff in Hlow as [Hroi | Hatt].
    + right. unfold Py.Qltb in Hroi. apply negb_false_iff in Hroi.
      now apply Qle_bool_iff.
    + left. now apply Z.ltb_ge.
  - intros src -> -> Hstop Hatt.
    destruct (should_stop e) as [stop e1]. simpl in Hstop. subst stop.
    apply Z.ltb_ge in Hatt. rewrite Hatt, andb_false_r. reflexivity.
Qed.

Lemma alter_keys (d : dict SourceStats) (i : nat) :
  map fst (alter (fun kv : string * SourceStats =>
                    (fst kv, mark_exhausted (snd kv))) i d)
  = map fst d.
Proof.
  revert i. induction d as [| [k v] d IH]; intros [| i]; simpl; auto.
  f_equal. apply IH.
Qed.

Lemma none_active (d : dict SourceStats) :
  count_active d = 0%nat -> Forall (fun kv => exhausted (snd kv) = true) d.
Proof.
  unfold count_active. induction d as [| [k v] d IH]; [constructor |].
  rewrite (filter_cons
             (fun p : string * SourceStats => exhausted (snd p) = false)).
  cbn [snd].
  destruct (decide (exhausted v = false)) as [| Hne]; [discriminate |].
  intros Hd. constructor; [| auto]. simpl. now destruct (exhausted v).
Qed.

Lemma next_source_fuel_active (fuel : nat) :
  forall (rand : nat -> Q) (pick level : nat) (e e' : Engine)
         (r : option string),
    next_source_fuel exp fuel rand pick level e = Some (r, e') ->
    map fst (sources e') = map fst (sources e) /\
    match r with
    | Some nm =>
        exists i k s,
          sources e' !! i = Some (k, s) /\ name s = nm /\ exhausted s = false
    | None => Forall (fun kv => exhausted (snd kv) = true) (sources e')
    end.
Proof.
  induction fuel as [| fuel IH]; intros rand pick level e e' r H;
    [discriminate |].
  cbn [next_source_fuel] in H.
  destruct (Py.max_by _ (active_indexed e)) as [[i best] |] eqn:Hmax.
  - destruct (if _ && _ then _ else _) as [| o os] eqn:Hexplore.
    + destruct (_ && _) in H.
      * apply IH in H as [Hkeys Hr]. simpl in Hkeys.
        rewrite alter_keys in Hkeys. auto.
      * injection H as <- <-. split; [reflexivity |].
        apply max_by_In, active_indexed_lookup in Hmax as (Hact & k & Hi).
        exists i, k, best. auto.
    + injection H as <- <-. split; [reflexivity |].
      destruct (_ && _) in Hexplore; [| discriminate].
      assert (forall x, In x (o :: os) -> In x (active_indexed e)) as Hsub.
      { rewrite <- Hexplore. intros x Hx. apply list_elem_of_In in Hx.
        apply list_elem_of_filter in Hx as [_ Hx].
        now apply list_elem_of_In. }
      match goal with
      | |- context [name (snd ?X)] => assert (In X (o :: os)) as Hin
      end.
      { exact (nth_In (o :: os) o
                 (Nat.mod_upper_bound pick (length (o :: os))
                    ltac:(discriminate))). }
      apply Hsub in Hin.
      match goal with
      | |- context [name (snd ?X)] => destruct X as [j chosen]
      end.
      apply active_indexed_lookup in Hin as (Hact & k & Hj).
      exists j, k, chosen. auto.
  - injection H as <- <-. split; [reflexivity |].
    apply none_active. rewrite <- (active_indexed_count (sources e) (fun i => i)).
    fold (active_indexed e). unfold Py.max_by in Hmax.
    now destruct (active_indexed e).
Qed.

(** [next_source] answers with the name of a source that is registered and
    not exhausted when it returns, or with nothing when every source is
    exhausted by then; it never registers or drops a source. *)
Theorem next_source_picks_active (rand : nat -> Q) (pick : nat) (e : Engine) :
  map fst (sources (snd (next_source exp rand pick e))) = map fst (sources e) /\
  match fst (next_source exp rand pick e) with
  | Some nm =>
      exists i k s,
        sources (snd (next_source exp rand pick e)) !! i = Some (k, s) /\
        name s = nm /\ exhausted s = false
  | None =>
      Forall (fun kv => exhausted (snd kv) = true)
        (sources (snd (next_source exp rand pick e)))
  end.
Proof.
  pose proof (next_source_total exp rand pick e) as Htot.
  destruct (next_source exp rand pick e) as [r e'].
  exact (next_source_fuel_active _ _ _ _ _ _ _ Htot).
Qed.

(** The finds a stretch of the action log accounts for: a logged miss
    counts for nothing. *)
Definition logged_found (entries : list ActionLog) : Z :=
  fold_right (fun x acc => Z.max 0 (al_found x) + acc) 0 entries.

Lemma logged_found_app (l1 l2 : list ActionLog) :
  logged_found (l1 ++ l2) = logged_found l1 + logged_found l2.
Proof.
  unfold logged_found. induction l1 as [| x l1 IH]; simpl; [reflexivity |].
  rewrite IH. lia.
Qed.

Lemma next_source_fuel_frame (fuel : nat) :
  forall (rand : nat -> Q) (pick level : nat) (e e' : Engine)
         (r : option string),
    next_source_fuel exp fuel rand pick level e = Some (r, e') ->
    total_found e' = total_found e /\ total_actions e' = total_actions e /\
    action_log e' = action_log e.
Proof.
  induction fuel as [| fuel IH]; intros rand pick level e e' r H;
    [discriminate |].
  simpl in H.
  destruct (Py.max_by _ (active_indexed e)) as [[i best] |];
    [| injection H as _ <-; auto].
  destruct (if _ && _ then _ else _) as [| o os];
    [| injection H as _ <-; auto].
  destruct (_ && _); [| injection H as _ <-; auto].
  apply IH in H. exact H.
Qed.

Lemma exec_appends (e : Engine) (c : call) :
  exists added,
    action_log (exec exp e c) = action_log e ++ added /\
    total_actions (exec exp e c) = total_actions e + Z.of_nat (length added) /\
    total_found (exec exp e c) = total_found e + logged_found added.
Proof.
  assert (exists added,
            action_log e = action_log e ++ added /\
            total_actions e = total_actions e + Z.of_nat (length added) /\
            total_found e = total_found e + logged_found added) as Hnone
    by (exists []; rewrite app_nil_r; simpl; repeat split; lia).
  destruct c; simpl.
  - unfold add_source. destruct (dict_get nm (sources e)); exact Hnone.
  - unfold report_result. destruct (dict_get nm (sources e)) as [src |];
      [| exact Hnone].
    destruct (0 <? found) eqn:Hf.
    + simpl. eexists [_]. split; [reflexivity |]. simpl.
      apply Z.ltb_lt in Hf. split; lia.
    + destruct (record_miss (cfg e) (bump_attempt cost src)). simpl.
      eexists [_]. split; [reflexivity |]. simpl.
      apply Z.ltb_ge in Hf. split; lia.
  - destruct (should_stop_frame e) as (_ & _ & -> & -> & ->). exact Hnone.
  - pose proof (next_source_total exp rand pick e) as Htot.
    destruct (next_source exp rand pick e) as [r e']. simpl.
    destruct (next_source_fuel_frame _ _ _ _ _ _ _ Htot) as (-> & -> & ->).
    exact Hnone.
  - assert (snd (evaluate_action exp nm estimated_cost e) = e \/
            snd (evaluate_action exp nm estimated_cost e) = snd (should_stop e))
      as [-> | ->].
    { unfold evaluate_action. destruct (dict_get nm (sources e)); [| now left].
      destruct (exhausted _); [now left |].
      destruct (should_stop e) as [stop e1]. right.
      destruct stop; [| destruct (_ && _)]; reflexivity. }
    + exact Hnone.
    + destruct (should_stop_frame e) as (_ & _ & -> & -> & ->). exact Hnone.
  - exact Hnone.
Qed.

(** The action log is append-only and the counters agree with it: over any
    run of calls the log grows at its end, [total_actions] grows by the
    number of entries added, and [total_found] by the finds they record. *)
Theorem action_log_append_only (calls : list call) (e : Engine) :
  exists added,
    action_log (run exp calls e) = action_log e ++ added /\
    total_actions (run exp calls e)
      = total_actions e + Z.of_nat (length added) /\
    total_found (run exp calls e) = total_found e + logged_found added.
Proof.
  revert e. induction calls as [| c calls IH]; intros e.
  - exists []. rewrite app_nil_r. simpl. repeat split; lia.
  - destruct (exec_appends e c) as (a1 & Hl1 & Ha1 & Hf1).
    destruct (IH (exec exp e c)) as (a2 & Hl2 & Ha2 & Hf2).
    exists (a1 ++ a2). unfold run in *. simpl fold_left.
    rewrite Hl2, Ha2, Hf2, Hl1, Ha1, Hf1, logged_found_app, length_app.
    rewrite <- app_assoc. repeat split; lia.
Qed.

End Runs.

(** A run on the orchestrator's engine: two misses, a find of three, a stop
    check and a manual stop. *)
Definition sample_calls : list call :=
  [ReportResult "direct" 0 1 0 "q1" 1;
   ReportResult "direct" 0 1 0 "q2" 2;
   ReportResult "direct" 3 1 0 "q3" 3;
   ShouldStop;
   ForceStop].

Definition fresh_direct : SourceStats :=
  mkSourceStats "direct" 90 0 0 0 0 0 30 false 0 0.

Lemma patience_stays_in_range_demo :
  exists s',
    get_source "direct" (run flat_decay sample_calls orchestrator_engine)
    = Some s' /\
    0 <= patience s' <= 2 * patience_initial (cfg orchestrator_engine).
Proof.
  apply (patience_stays_in_range flat_decay sample_calls orchestrator_engine
           "direct" fresh_direct);
    [simpl; lia | simpl; lia | simpl; lia | reflexivity | simpl; lia].
Defined.

(** A source worn out by thirty misses stays exhausted through a later hit. *)
Definition worn_out_engine : Engine :=
  report_misses flat_decay "direct" (replicate 30 one_miss) orchestrator_engine.

Definition worn_out_direct : SourceStats :=
  mkSourceStats "direct" 90 30 0 30 30 0 0 true 0 0.

Lemma exhausted_is_terminal_demo :
  exists s',
    get_source "direct"
      (run flat_decay [ReportResult "direct" 5 1 0 "late" 40] worn_out_engine)
    = Some s' /\ exhausted s' = true.
Proof.
  apply (exhausted_is_terminal flat_decay
           [ReportResult "direct" 5 1 0 "late" 40] worn_out_engine "direct"
           worn_out_direct);
    [vm_compute; reflexivity | reflexivity].
Defined.

Lemma source_counters_monotone_demo :
  exists s',
    get_source "direct" (run flat_decay sample_calls orchestrator_engine)
    = Some s' /\
    name s' = name fresh_direct /\ priority s' = priority fresh_direct /\
    created_at s' = created_at fresh_direct /\
    attempts fresh_direct <= attempts s' /\ hits fresh_direct <= hits s' /\
    misses fresh_direct <= misses s' /\
    misses s' - misses fresh_direct <= attempts s' - attempts fresh_direct /\
    (last_hit_at fresh_direct <= attempts fresh_direct ->
     last_hit_at s' <= attempts s').
Proof.
  apply (source_counters_monotone flat_decay sample_calls orchestrator_engine
           "direct" fresh_direct).
  reflexivity.
Defined.

End CostEngineRuns.

(** ** Cost engine: ranking, summary, log views and persistence *)

Module CostEngineReports.
Import PyDict CostEngine.

(** [sorted(xs, key=key, reverse=True)]: descending by key, and elements of
    equal key keep the order they had in [xs]. *)
Section SortedReverse.

Context {A : Type} (key : A -> Q).

Fixpoint insert_by (x : A) (sorted : list A) : list A :=
  match sorted with
  | [] => [x]
  | y :: rest =>
      if Qlt_le_dec (key x) (key y) then y :: insert_by x rest
      else x :: sorted
  end.

Definition sorted_reverse (l : list A) : list A := fold_right insert_by [] l.

End SortedReverse.

(** The values [json.dumps] writes and [json.loads] reads back.  An object
    is a Python dict: its keys are distinct and keep their order. *)
#[local] Unset Elimination Schemes.
Inductive json :=
| JNull
| JBool (b : bool)
| JInt (z : Z)
| JFloat (q : Q)
| JStr (s : string)
| JList (items : list json)
| JObj (fields : dict json).
#[local] Set Elimination Schemes.

(** [SourceStats.to_dict]: [asdict(self)] followed by the derived entries. *)
Definition source_to_dict (s : SourceStats) : json :=
  JObj [("name", JStr (name s));
        ("priority", JFloat (priority s));
        ("attempts", JInt (attempts s));
        ("hits", JInt (hits s));
        ("misses", JInt (misses s));
        ("total_cost", JFloat (total_cost s));
        ("total_value", JFloat (total_value s));
        ("patience", JInt (patience s));
        ("exhausted", JBool (exhausted s));
        ("last_hit_at", JInt (last_hit_at s));
        ("created_at", JFloat (created_at s));
        ("hit_rate", JFloat (Py.round (hit_rate s) 3));
        ("roi", JFloat (Py.round (roi s) 3));
        ("drought", JInt (drought s));
        ("effective_priority", JFloat (Py.round (effective_priority s) 1))].

(** The sources in the order [rank_sources] lists them. *)
Definition ranked (e : Engine) : list SourceStats :=
  sorted_reverse effective_priority (dict_values (sources e)).

Definition rank_sources (e : Engine) : list json :=
  map source_to_dict (ranked e).

Definition ratio (a b : Z) : Q := (inject_Z a / inject_Z (Z.max 1 b))%Q.

Definition summary (now : Q) (e : Engine) : json :=
  JObj [("status", JStr (if _stopped e then "stopped" else "running"));
        ("stop_reason", JStr (_stop_reason e));
        ("elapsed_seconds", JFloat (Py.round (now - started_at e) 1));
        ("total_found", JInt (total_found e));
        ("target_count", JInt (target_count (cfg e)));
        ("progress_pct",
         JFloat (Py.round (ratio (total_found e) (target_count (cfg e)) * 100) 1));
        ("total_actions", JInt (total_actions e));
        ("global_budget", JInt (global_budget (cfg e)));
        ("budget_used_pct",
         JFloat (Py.round (ratio (total_actions e) (global_budget (cfg e)) * 100) 1));
        ("efficiency",
         JFloat (Py.round (ratio (total_found e) (total_actions e)) 4));
        ("sources", JList (rank_sources e));
        ("active_sources", JInt (Z.of_nat (length (active e))));
        ("exhausted_sources",
         JInt (Z.of_nat
                 (length (filter (fun s => exhausted s = true)
                            (dict_values (sources e))))))].

(** [lst[start:]] *)
Definition slice_from {A : Type} (start : Z) (l : list A) : list A :=
  let n := Z.of_nat (length l) in
  let first := if start <? 0 then Z.max 0 (start + n) else Z.min start n in
  drop (Z.to_nat first) l.

(** [get_log]; [asdict(a)] carries the fields of [a] unchanged. *)
Definition get_log (last_n : Z) (e : Engine) : list ActionLog :=
  slice_from (- last_n) (action_log e).

Record CurvePoint := mkCurvePoint {
  cp_action : Z;
  cp_found : Z;
  cp_efficiency : Q;
  cp_source : string;
  cp_decision : string
}.

(** One turn of the loop of [get_efficiency_curve]: the state is the curve
    so far, the running total and the index [i] of [enumerate]. *)
Definition curve_step (st : list CurvePoint * Z * Z) (log : ActionLog)
    : list CurvePoint * Z * Z :=
  let '(curve, cumulative, i) := st in
  let cumulative := cumulative + al_found log in
  (curve ++ [mkCurvePoint (i + 1) cumulative
               (Py.round (inject_Z cumulative / inject_Z (i + 1)) 4)
               (al_source log) (decision log)],
   cumulative, i + 1).

Definition get_efficiency_curve (e : Engine) : list CurvePoint :=
  fst (fst (fold_left curve_step (action_log e) ([], 0, 0))).

Definition config_to_dict (c : Config) : json :=
  JObj [("target_count", JInt (target_count c));
        ("patience_initial", JInt (patience_initial c));
        ("patience_recharge", JInt (patience_recharge c));
        ("patience_drain", JInt (patience_drain c));
        ("epsilon", JFloat (epsilon c));
        ("min_roi", JFloat (min_roi c));
        ("global_budget", JInt (global_budget c))].

Definition to_dict (now : Q) (e : Engine) : json :=
  JObj [("config", config_to_dict (cfg e));
        ("state",
         JObj [("total_found", JInt (total_found e));
               ("total_actions", JInt (total_actions e));
               ("stopped", JBool (_stopped e));
               ("stop_reason", JStr (_stop_reason e));
               ("started_at", JFloat (started_at e))]);
        ("sources",
         JObj (map (fun kv => (fst kv, source_to_dict (snd kv))) (sources e)));
        ("summary", summary now e)].

(** Reading a loaded object: [d.get(key, default)] at the type the engine's
    field has.  [None] stands for a value of another type, which the Python
    object would carry as it is and which the records here cannot hold. *)
Definition fields_of (j : json) : option (dict json) :=
  match j with JObj fields => Some fields | _ => None end.

Definition get_obj (k : string) (d : dict json) : option (dict json) :=
  match dict_get k d with
  | None => Some []
  | Some j => fields_of j
  end.

Definition get_int (k : string) (dflt : Z) (d : dict json) : option Z :=
  match dict_get k d with
  | None => Some dflt
  | Some (JInt z) => Some z
  | Some _ => None
  end.

Definition get_float (k : string) (dflt : Q) (d : dict json) : option Q :=
  match dict_get k d with
  | None => Some dflt
  | Some (JFloat q) => Some q
  | Some (JInt z) => Some (inject_Z z)
  | Some _ => None
  end.

Definition get_bool (k : string) (dflt : bool) (d : dict json) : option bool :=
  match dict_get k d with
  | None => Some dflt
  | Some (JBool b) => Some b
  | Some _ => None
  end.

Definition get_str (k : string) (dflt : string) (d : dict json) : option string :=
  match dict_get k d with
  | None => Some dflt
  | Some (JStr s) => Some s
  | Some _ => None
  end.

Local Notation "'do' x <- m ; f" :=
  (match m with Some x => f | None => None end)
  (at level 10, x name, m at level 100, f at level 200).

(** The defaults of [CostEngine.__init__]. *)
Definition default_config : Config :=
  mkConfig 10 30 20 1 (1 # 10) (5 # 100) 500.

Definition config_keys : list string :=
  ["target_count"; "patience_initial"; "patience_recharge"; "patience_drain";
   "epsilon"; "min_roi"; "global_budget"].

(** The constructor called with the entries of [cfg] as keywords: a keyword
    it does not have is a [TypeError], a missing one takes its default. *)
Definition config_of_kwargs (kw : dict json) : option Config :=
  if forallb (fun kv => existsb (String.eqb (fst kv)) config_keys) kw then
    do tc <- get_int "target_count" (target_count default_config) kw;
    do pi <- get_int "patience_initial" (patience_initial default_config) kw;
    do pr <- get_int "patience_recharge" (patience_recharge default_config) kw;
    do pd <- get_int "patience_drain" (patience_drain default_config) kw;
    do eps <- get_float "epsilon" (epsilon default_config) kw;
    do mr <- get_float "min_roi" (min_roi default_config) kw;
    do gb <- get_int "global_budget" (global_budget default_config) kw;
    Some (mkConfig tc pi pr pd eps mr gb)
  else None.

(** The [SourceStats] that [load] rebuilds from one entry of ["sources"]. *)
Definition source_of (nm : string) (sd : dict json) : option SourceStats :=
  do p <- get_float "priority" 50 sd;
  do a <- get_int "attempts" 0 sd;
  do h <- get_int "hits" 0 sd;
  do m <- get_int "misses" 0 sd;
  do tc <- get_float "total_cost" 0 sd;
  do tv <- get_float "total_value" 0 sd;
  do pat <- get_int "patience" 0 sd;
  do ex <- get_bool "exhausted" false sd;
  do lh <- get_int "last_hit_at" 0 sd;
  do ca <- get_float "created_at" 0 sd;
  Some (mkSourceStats nm p a h m tc tv pat ex lh ca).

Definition load_source (acc : option (dict SourceStats)) (item : string * json)
    : option (dict SourceStats) :=
  do d <- acc;
  do sd <- fields_of (snd item);
  do src <- source_of (fst item) sd;
  Some (dict_set (fst item) src d).

(** [CostEngine.load].  [file] is the parsed content of the state file,
    [None] when the file does not exist; [now] is the clock at the call. *)
Definition load (file : option json) (now : Q) : option Engine :=
  match file with
  | None => Some (init default_config now)
  | Some data =>
      do d <- fields_of data;
      do kw <- get_obj "config" d;
      do c <- config_of_kwargs kw;
      do state <- get_obj "state" d;
      do found <- get_int "total_found" 0 state;
      do actions <- get_int "total_actions" 0 state;
      do stopped <- get_bool "stopped" false state;
      do stop_reason <- get_str "stop_reason" "" state;
      do started <- get_float "started_at" now state;
      do items <- get_obj "sources" d;
      do srcs <- fold_left load_source items (Some []);
      Some (mkEngine c srcs found actions [] started stopped stop_reason)
  end.

(** What a restored engine keeps of the one that was saved: everything but
    the action log. *)
Definition without_log (e : Engine) : Engine :=
  mkEngine (cfg e) (sources e) (total_found e) (total_actions e) []
    (started_at e) (_stopped e) (_stop_reason e).

End CostEngineReports.

Module CostEngineReportsFacts.
Import PyDict PyDictFacts CostEngine CostEngineFacts CostEngineRuns.
Import CostEngineReports.

Section SortedReverseFacts.

Context {A : Type} (key : A -> Q).

Definition key_desc (a b : A) : Prop := (key b <= key a)%Q.

Definition has_key (p : Q) (a : A) : bool := Qeq_bool (key a) p.

Lemma insert_by_perm (x : A) (l : list A) :
  Permutation (x :: l) (insert_by key x l).
Proof.
  induction l as [| y l IH]; simpl; [reflexivity |].
  destruct (Qlt_le_dec (key x) (key y)); [| reflexivity].
  rewrite perm_swap. now apply perm_skip.
Qed.

Lemma sorted_reverse_perm (l : list A) : Permutation l (sorted_reverse key l).
Proof.
  induction l as [| x l IH]; simpl; [reflexivity |].
  rewrite <- insert_by_perm. now apply perm_skip.
Qed.

Lemma insert_by_sorted (x : A) (l : list A) :
  StronglySorted key_desc l -> StronglySorted key_desc (insert_by key x l).
Proof.
  induction 1 as [| y l Hsorted IH Hall]; simpl.
  - repeat constructor.
  - destruct (Qlt_le_dec (key x) (key y)) as [Hlt | Hle].
    + constructor; [exact IH |].
      rewrite <- insert_by_perm. constructor; [| exact Hall].
      unfold key_desc. now apply Qlt_le_weak.
    + constructor; [now constructor |].
      constructor; [exact Hle |].
      apply (Forall_impl _ _ _ Hall). unfold key_desc.
      intros z Hz. now apply Qle_trans with (key y).
Qed.

Lemma sorted_reverse_sorted (l : list A) :
  StronglySorted key_desc (sorted_reverse key l).
Proof.
  induction l as [| x l IH]; simpl; [constructor |].
  now apply insert_by_sorted.
Qed.

Lemma filter_insert_by (p : Q) (x : A) (l : list A) :
  List.filter (has_key p) (insert_by key x l) = List.filter (has_key p) (x :: l).
Proof.
  induction l as [| y l IH]; [reflexivity |].
  simpl insert_by.
  destruct (Qlt_le_dec (key x) (key y)) as [Hlt | Hle]; [| reflexivity].
  simpl in *. rewrite IH. unfold has_key.
  destruct (Qeq_bool (key x) p) eqn:Hx; [| reflexivity].
  destruct (Qeq_bool (key y) p) eqn:Hy; [| reflexivity].
  apply Qeq_bool_iff in Hx, Hy. exfalso. rewrite Hx, Hy in Hlt.
  exact (Qlt_irrefl _ Hlt).
Qed.

Lemma sorted_reverse_stable (p : Q) (l : list A) :
  List.filter (has_key p) (sorted_reverse key l) = List.filter (has_key p) l.
Proof.
  induction l as [| x l IH]; [reflexivity |].
  simpl sorted_reverse. rewrite filter_insert_by.
  simpl. now rewrite IH.
Qed.

End SortedReverseFacts.

Lemma filter_split_length {A : Type} (f : A -> bool) (l : list A) :
  (length (List.filter f l) + length (List.filter (fun x => negb (f x)) l))%nat
  = length l.
Proof.
  induction l as [| x l IH]; simpl; [reflexivity |].
  destruct (f x); simpl; lia.
Qed.

Lemma active_length (d : dict SourceStats) :
  length (filter (fun s => exhausted s = false) (dict_values d))
  = length (List.filter (fun s => negb (exhausted s)) (dict_values d)).
Proof.
  unfold dict_values. induction d as [| [k v] d IH]; [reflexivity |].
  cbn [map snd List.filter].
  rewrite (filter_cons (fun s : SourceStats => exhausted s = false)).
  destruct (decide (exhausted v = false)) as [Hv | Hv].
  - rewrite Hv. cbn [negb length]. f_equal. exact IH.
  - destruct (exhausted v); [| congruence]. exact IH.
Qed.

Lemma exhausted_length (d : dict SourceStats) :
  length (filter (fun s => exhausted s = true) (dict_values d))
  = length (List.filter exhausted (dict_values d)).
Proof.
  unfold dict_values. induction d as [| [k v] d IH]; [reflexivity |].
  cbn [map snd List.filter].
  rewrite (filter_cons (fun s : SourceStats => exhausted s = true)).
  destruct (decide (exhausted v = true)) as [Hv | Hv].
  - rewrite Hv. cbn [length]. f_equal. exact IH.
  - destruct (exhausted v); [congruence |]. exact IH.
Qed.

(** The summary lists every registered source exactly once, from the highest
    effective priority to the lowest, sources of equal priority in
    registration order; and its counts of active and exhausted sources add up
    to the number of sources listed. *)
Theorem summary_ranks_every_source (now : Q) (e : Engine) :
  exists (fs : dict json) (rows : list SourceStats) (active_n exhausted_n : Z),
    summary now e = JObj fs /\
    dict_get "sources" fs = Some (JList (map source_to_dict rows)) /\
    dict_get "active_sources" fs = Some (JInt active_n) /\
    dict_get "exhausted_sources" fs = Some (JInt exhausted_n) /\
    Permutation rows (dict_values (sources e)) /\
    StronglySorted (key_desc effective_priority) rows /\
    (forall p,
       List.filter (has_key effective_priority p) rows
       = List.filter (has_key effective_priority p) (dict_values (sources e))) /\
    active_n + exhausted_n = Z.of_nat (length rows).
Proof.
  eexists _, (ranked e), _, _.
  split; [reflexivity |]. split; [reflexivity |].
  split; [reflexivity |]. split; [reflexivity |].
  split; [symmetry; apply sorted_reverse_perm |].
  split; [apply sorted_reverse_sorted |].
  split; [intros p; apply sorted_reverse_stable |].
  unfold ranked, active.
  rewrite <- (Permutation_length
                (sorted_reverse_perm effective_priority
                   (dict_values (sources e)))).
  rewrite active_length, exhausted_length.
  rewrite <- (filter_split_length exhausted (dict_values (sources e))).
  lia.
Qed.

Lemma slice_from_zero {A : Type} (l : list A) : slice_from 0 l = l.
Proof.
  unfold slice_from. simpl.
  replace (Z.to_nat (Z.min 0 (Z.of_nat (length l)))) with 0%nat by lia.
  reflexivity.
Qed.

(** [get_log(last_n)] returns the last [last_n] entries (all of them when
    there are fewer) only when [last_n] is positive: [get_log(0)] returns
    the whole log, and a negative [last_n] drops that many of the oldest
    entries instead. *)
Theorem get_log_tail (last_n : Z) (e : Engine) :
  (0 < last_n ->
   length (get_log last_n e)
   = Nat.min (Z.to_nat last_n) (length (action_log e)) /\
   exists older, action_log e = older ++ get_log last_n e) /\
  get_log 0 e = action_log e /\
  (last_n < 0 -> get_log last_n e = drop (Z.to_nat (- last_n)) (action_log e)).
Proof.
  unfold get_log. split; [| split].
  - intros Hpos. unfold slice_from.
    destruct (Z.ltb_spec (- last_n) 0) as [_ | Hge]; [| lia].
    split.
    + rewrite length_drop. lia.
    + eexists. symmetry. apply take_drop.
  - apply slice_from_zero.
  - intros Hneg. unfold slice_from.
    destruct (Z.ltb_spec (- last_n) 0) as [Hlt | _]; [lia |].
    destruct (Z.le_ge_cases (- last_n) (Z.of_nat (length (action_log e))))
      as [Hle | Hge].
    + now rewrite Z.min_l.
    + rewrite Z.min_r by exact Hge. rewrite Nat2Z.id.
      rewrite drop_all. symmetry. apply drop_ge. lia.
Qed.

(** The finds the log entries carry, negative ones included. *)
Definition sum_found (entries : list ActionLog) : Z :=
  fold_right (fun x acc => al_found x + acc) 0 entries.

Lemma sum_found_le_logged (entries : list ActionLog) :
  sum_found entries <= logged_found entries /\
  (Forall (fun a => 0 <= al_found a) entries ->
   sum_found entries = logged_found entries).
Proof.
  unfold sum_found, logged_found.
  induction entries as [| x l [IHle IHeq]]; simpl; [split; [lia | auto] |].
  split; [lia |]. intros Hall. inversion Hall as [| ? ? Hx Hl]; subst.
  rewrite (IHeq Hl). lia.
Qed.

Lemma curve_fold (entries : list ActionLog) :
  forall (curve : list CurvePoint) (cumulative i : Z),
    exists points,
      fold_left curve_step entries (curve, cumulative, i)
      = (curve ++ points, cumulative + sum_found entries,
         i + Z.of_nat (length entries)) /\
      length points = length entries /\
      forall p, last points = Some p ->
        cp_action p = i + Z.of_nat (length entries) /\
        cp_found p = cumulative + sum_found entries.
Proof.
  induction entries as [| x l IH]; intros curve cumulative i.
  - exists []. rewrite app_nil_r. simpl.
    split; [f_equal; [f_equal |]; lia |]. split; [reflexivity |].
    discriminate.
  - cbn [fold_left curve_step].
    destruct (IH (curve ++ [mkCurvePoint (i + 1) (cumulative + al_found x)
                              (Py.round
                                 (inject_Z (cumulative + al_found x)
                                  / inject_Z (i + 1)) 4)
                              (al_source x) (decision x)])
                (cumulative + al_found x) (i + 1))
      as (points & Hfold & Hlen & Hlast).
    eexists (_ :: points). rewrite Hfold, <- app_assoc.
    split.
    { cbn [app length sum_found fold_right].
      replace (cumulative + al_found x + sum_found l)
        with (cumulative + (al_found x + sum_found l)) by lia.
      replace (i + 1 + Z.of_nat (length l))
        with (i + Z.of_nat (S (length l))) by lia.
      reflexivity. }
    split; [simpl; now rewrite Hlen |].
    intros p Hp. destruct l as [| y l].
    + destruct points; [| discriminate]. injection Hp as <-. simpl.
      split; lia.
    + destruct points as [| q points]; [discriminate |].
      change (last (q :: points) = Some p) in Hp.
      destruct (Hlast p Hp) as [Ha Hf].
      cbn [length sum_found fold_right] in *. split; lia.
Qed.

Section Curve.

Variable exp : Q -> Q.

(** The counters of an engine built from scratch count its log. *)
Lemma run_counts_log (calls : list call) :
  forall e : Engine,
    total_actions e = Z.of_nat (length (action_log e)) ->
    total_found e = logged_found (action_log e) ->
    total_actions (run exp calls e)
    = Z.of_nat (length (action_log (run exp calls e))) /\
    total_found (run exp calls e) = logged_found (action_log (run exp calls e)).
Proof.
  induction calls as [| c calls IH]; intros e Ha Hf; [now split |].
  unfold run in *. simpl fold_left.
  destruct (exec_appends exp e c) as (added & Hl & Hta & Htf).
  apply IH.
  - rewrite Hta, Hl, Ha, length_app. lia.
  - rewrite Htf, Hl, Hf, logged_found_app. reflexivity.
Qed.

(** The efficiency curve of an engine built from scratch has one point per
    logged action, and its last point carries the engine's totals: its
    action number is [total_actions], and its cumulative finds never exceed
    [total_found] and equal it when no report carried a negative count. *)
Theorem efficiency_curve_ends_at_totals (calls : list call) (c : Config)
    (now : Q) (p : CurvePoint) :
  length (get_efficiency_curve (run exp calls (init c now)))
  = length (action_log (run exp calls (init c now))) /\
  (last (get_efficiency_curve (run exp calls (init c now))) = Some p ->
   cp_action p = total_actions (run exp calls (init c now)) /\
   cp_found p <= total_found (run exp calls (init c now)) /\
   (Forall (fun a => 0 <= al_found a)
      (action_log (run exp calls (init c now))) ->
    cp_found p = total_found (run exp calls (init c now)))).
Proof.
  destruct (run_counts_log calls (init c now) eq_refl eq_refl) as [Ha Hf].
  unfold get_efficiency_curve.
  destruct (curve_fold (action_log (run exp calls (init c now))) [] 0 0)
    as (points & Hfold & Hlen & Hlast).
  rewrite Hfold. simpl. split; [exact Hlen |].
  intros Hp. destruct (Hlast p Hp) as [Hact Hfound].
  destruct (sum_found_le_logged (action_log (run exp calls (init c now))))
    as [Hle Heq].
  rewrite Hact, Hfound, Ha, Hf. split; [lia |]. split; [lia |].
  intros Hall. rewrite (Heq Hall). lia.
Qed.

End Curve.

(** The shape [add_source] gives the table: one entry per name, each source
    under its own name. *)
Definition keyed (d : dict SourceStats) : Prop :=
  NoDup (map fst d) /\ Forall (fun kv => name (snd kv) = fst kv) d.

Lemma dict_get_None_iff {V : Type} (k : string) (d : dict V) :
  dict_get k d = None <-> ~ In k (map fst d).
Proof.
  induction d as [| [k0 v0] d IH]; simpl; [tauto |].
  destruct (String.eqb_spec k k0) as [-> | Hne].
  - split; [discriminate | intros H; exfalso; apply H; now left].
  - rewrite IH. split; [intros H [Heq | Hin]; [congruence | tauto] | tauto].
Qed.

Lemma dict_set_fresh {V : Type} (k : string) (v : V) (d : dict V) :
  dict_get k d = None -> dict_set k v d = d ++ [(k, v)].
Proof.
  induction d as [| [k0 v0] d IH]; simpl; [reflexivity |].
  destruct (String.eqb k k0); [discriminate |].
  intros H. now rewrite IH.
Qed.

Lemma dict_set_present_keys {V : Type} (k : string) (v v0 : V) (d : dict V) :
  dict_get k d = Some v0 -> map fst (dict_set k v d) = map fst d.
Proof.
  induction d as [| [k1 v1] d IH]; simpl; [discriminate |].
  destruct (String.eqb_spec k k1) as [-> | Hne]; [reflexivity |].
  intros H. simpl. now rewrite IH.
Qed.

Lemma dict_set_Forall {V : Type} (P : string * V -> Prop) (k : string) (v : V)
    (d : dict V) :
  Forall P d -> P (k, v) -> Forall P (dict_set k v d).
Proof.
  intros Hd Hkv. induction Hd as [| [k0 v0] d H0 Hd IH]; simpl.
  - now constructor.
  - destruct (String.eqb k k0); constructor; auto.
Qed.

Lemma keyed_name (k : string) (s : SourceStats) (d : dict SourceStats) :
  Forall (fun kv => name (snd kv) = fst kv) d ->
  dict_get k d = Some s -> name s = k.
Proof.
  induction 1 as [| [k0 v0] d H0 Hd IH]; simpl; [discriminate |].
  destruct (String.eqb_spec k k0) as [-> | Hne]; [| exact IH].
  now intros [= <-].
Qed.

Lemma keyed_set_present (k : string) (s s0 : SourceStats) (d : dict SourceStats) :
  keyed d -> dict_get k d = Some s0 -> name s = k -> keyed (dict_set k s d).
Proof.
  intros [Hnd Hall] Hk Hname. split.
  - now rewrite (dict_set_present_keys k s s0 d Hk).
  - now apply dict_set_Forall.
Qed.

Lemma keyed_set_fresh (k : string) (s : SourceStats) (d : dict SourceStats) :
  keyed d -> dict_get k d = None -> name s = k -> keyed (dict_set k s d).
Proof.
  intros [Hnd Hall] Hk Hname. split.
  - rewrite (dict_set_fresh k s d Hk), map_app. simpl.
    apply NoDup_app. split; [exact Hnd |]. split.
    + intros x Hx [-> | []]%list_elem_of_In. apply list_elem_of_In in Hx.
      now apply dict_get_None_iff in Hk.
    + apply NoDup_singleton.
  - now apply dict_set_Forall.
Qed.

Lemma keyed_mark (i : nat) (d : dict SourceStats) :
  keyed d ->
  keyed (alter (fun kv => (fst kv, mark_exhausted (snd kv))) i d).
Proof.
  intros [Hnd Hall]. split; [now rewrite alter_keys |].
  clear Hnd. revert i.
  induction Hall as [| [k v] d Hkv Hd IH]; intros [| i];
    try (constructor; auto); apply IH.
Qed.

Section Persistence.

Variable exp : Q -> Q.

Lemma next_source_fuel_keyed (fuel : nat) :
  forall (rand : nat -> Q) (pick level : nat) (e e' : Engine)
         (r : option string),
    next_source_fuel exp fuel rand pick level e = Some (r, e') ->
    keyed (sources e) -> keyed (sources e').
Proof.
  induction fuel as [| fuel IH]; intros rand pick level e e' r H Hk;
    [discriminate |].
  simpl in H.
  destruct (Py.max_by _ (active_indexed e)) as [[i best] |];
    [| now injection H as _ <-].
  destruct (if _ && _ then _ else _) as [| o os];
    [| now injection H as _ <-].
  destruct (_ && _); [| now injection H as _ <-].
  apply IH in H; [exact H |]. simpl. now apply keyed_mark.
Qed.

Lemma exec_keyed (e : Engine) (c : call) :
  keyed (sources e) -> keyed (sources (exec exp e c)).
Proof.
  intros Hk. destruct c; simpl.
  - unfold add_source. destruct (dict_get nm (sources e)) eqn:Hnm;
      [exact Hk |].
    simpl. now apply keyed_set_fresh.
  - unfold report_result.
    destruct (dict_get nm (sources e)) as [src |] eqn:Hnm; [| exact Hk].
    pose proof (keyed_name nm src (sources e) (proj2 Hk) Hnm) as Hname.
    destruct (0 <? found).
    + simpl. now apply keyed_set_present with src.
    + unfold record_miss. destruct (_ <=? 0); simpl;
        now apply keyed_set_present with src.
  - now destruct (should_stop_frame e) as (_ & -> & _).
  - pose proof (next_source_total exp rand pick e) as Htot.
    destruct (next_source exp rand pick e) as [r e']. simpl.
    exact (next_source_fuel_keyed _ _ _ _ _ _ _ Htot Hk).
  - unfold evaluate_action. destruct (dict_get nm (sources e)); [| exact Hk].
    destruct (exhausted _); [exact Hk |].
    destruct (should_stop_frame e) as (_ & Hs & _).
    destruct (should_stop e) as [stop e1]. simpl in Hs.
    destruct stop; [| destruct (_ && _)]; simpl; now rewrite Hs.
  - exact Hk.
Qed.

Lemma run_keyed (calls : list call) :
  forall e : Engine, keyed (sources e) -> keyed (sources (run exp calls e)).
Proof.
  induction calls as [| c calls IH]; intros e Hk; [exact Hk |].
  unfold run in *. simpl fold_left. apply IH. now apply exec_keyed.
Qed.

Lemma config_round_trip (c : Config) :
  (match fields_of (config_to_dict c) with
   | Some kw => config_of_kwargs kw
   | None => None
   end) = Some c.
Proof. destruct c. reflexivity. Qed.

Lemma load_source_to_dict (d : dict SourceStats) (k : string) (v : SourceStats) :
  name v = k ->
  load_source (Some d) (k, source_to_dict v) = Some (dict_set k v d).
Proof. intros <-. destruct v. reflexivity. Qed.

Lemma load_sources_fold (items : dict SourceStats) :
  forall acc : dict SourceStats,
    Forall (fun kv => name (snd kv) = fst kv) items ->
    NoDup (map fst acc ++ map fst items) ->
    fold_left load_source
      (map (fun kv => (fst kv, source_to_dict (snd kv))) items) (Some acc)
    = Some (acc ++ items).
Proof.
  induction items as [| [k v] items IH]; intros acc Hall Hnd.
  - simpl. now rewrite app_nil_r.
  - inversion Hall as [| ? ? Hkv Hrest]; subst. simpl in Hkv.
    cbn [map fold_left fst snd].
    rewrite (load_source_to_dict acc k v Hkv).
    assert (dict_get k acc = None) as Hfresh.
    { apply dict_get_None_iff. intros Hin.
      apply NoDup_app in Hnd as (_ & Hdisj & _).
      apply (Hdisj k); [now apply list_elem_of_In |]. simpl. left. }
    rewrite (dict_set_fresh k v acc Hfresh).
    rewrite IH; [now rewrite <- app_assoc | exact Hrest |].
    rewrite map_app. simpl. rewrite <- app_assoc. exact Hnd.
Qed.

(** Saving and loading restores the engine but for its action log: for any
    engine built from scratch by a run of calls, [load] applied to what
    [to_dict] wrote gives back the same configuration, counters, stop state,
    start time and sources, with an empty log. *)
Theorem load_restores_all_but_log (calls : list call) (c : Config)
    (now saved_at loaded_at : Q) :
  load (Some (to_dict saved_at (run exp calls (init c now)))) loaded_at
  = Some (without_log (run exp calls (init c now))).
Proof.
  assert (keyed (sources (run exp calls (init c now)))) as [Hnd Hall].
  { apply run_keyed. split; constructor. }
  generalize dependent (run exp calls (init c now)). intros e Hnd Hall.
  unfold load, to_dict. generalize (summary saved_at e). intros sm.
  cbn [fields_of get_obj dict_get String.eqb Ascii.eqb Bool.eqb
       config_to_dict].
  pose proof (config_round_trip (cfg e)) as Hcfg.
  cbn [fields_of config_to_dict] in Hcfg. rewrite Hcfg.
  cbn [get_int get_bool get_str get_float dict_get String.eqb Ascii.eqb
       Bool.eqb].
  match goal with
  | |- match ?loaded with _ => _ end = _ =>
      replace loaded with (Some (sources e))
        by (symmetry; exact (load_sources_fold (sources e) [] Hall Hnd))
  end.
  reflexivity.
Qed.

End Persistence.

End CostEngineReportsFacts.

(** ** Graph scorer: configuration read back, task queue and dedup log *)

Module GraphStore.
Import PyDict GraphScorer.

(** [get_threshold]: [int(...)] of the stored text. *)
Definition get_threshold (s : Store) : outcome Z :=
  match py_int (get_config "threshold" "60" s) with
  | Some threshold => Ok threshold
  | None => Raise ValueError
  end.

(** *** The [tasks] and [logs] tables

    [tasks] is a row list in rowid order; [logs] is [UNIQUE(action, key)]
    and a map from that pair.  The JSON column [result] holds the text
    [json.dumps] wrote. *)

Record TaskRow := mkTask {
  k_id : Z;
  k_type : string;
  k_target_type : string;
  k_entity_id : Z;
  k_target_id : Z;
  k_query : string;
  k_status : string;
  k_priority : Z;
  k_result : string;
  k_error : string;
  k_created_at : Q;
  k_started_at : Q;
  k_completed_at : Q
}.

Record LogRow := mkLog {
  l_id : Z;
  l_action : string;
  l_key : string;
  l_details : string;
  l_timestamp : Q
}.

(** The whole database file. *)
Record Db := mkDb {
  store : Store;
  tasks : list TaskRow;
  tasks_seq : Z;
  logs : gmap (string * string) LogRow;
  logs_seq : Z
}.

Definition empty_db : Db := mkDb empty_store [] 0 ∅ 0.

Definition with_store (d : Db) (s : Store) : Db :=
  mkDb s (tasks d) (tasks_seq d) (logs d) (logs_seq d).

Definition with_tasks (d : Db) (rows : list TaskRow) (seq : Z) : Db :=
  mkDb (store d) rows seq (logs d) (logs_seq d).

(** [status IN ('pending','running')] *)
Definition is_open (r : TaskRow) : bool :=
  String.eqb (k_status r) "pending" || String.eqb (k_status r) "running".

Definition same_task (task_type : string) (entity_id target_id : Z)
    (r : TaskRow) : bool :=
  String.eqb (k_type r) task_type && (k_entity_id r =? entity_id)
  && (k_target_id r =? target_id) && is_open r.

Definition add_task (task_type : string) (entity_id target_id : Z)
    (query : string) (priority : Z) (target_type : string) (now : Q) (d : Db)
    : Z * Db :=
  match List.find (same_task task_type entity_id target_id) (tasks d) with
  | Some existing => (k_id existing, d)
  | None =>
      let id := tasks_seq d + 1 in
      (id,
       with_tasks d
         (tasks d ++
          [mkTask id task_type target_type entity_id target_id query "pending"
             priority "{}" "" now 0 0])
         id)
  end.

(** [ORDER BY priority ASC, created_at ASC]: [a] sorts strictly before [b]. *)
Definition before (a b : TaskRow) : bool :=
  (k_priority a <? k_priority b)
  || ((k_priority a =? k_priority b)
      && Py.Qltb (k_created_at a) (k_created_at b)).

(** The row [LIMIT 1] keeps.  SQL leaves the order of rows that tie on both
    columns open; the earliest row is taken here. *)
Definition first_pending (rows : list TaskRow) : option TaskRow :=
  fold_left
    (fun best r =>
       if String.eqb (k_status r) "pending" then
         match best with
         | Some b => if before r b then Some r else Some b
         | None => Some r
         end
       else best)
    rows None.

Definition start_task (now : Q) (r : TaskRow) : TaskRow :=
  mkTask (k_id r) (k_type r) (k_target_type r) (k_entity_id r) (k_target_id r)
    (k_query r) "running" (k_priority r) (k_result r) (k_error r)
    (k_created_at r) now (k_completed_at r).

(** [get_next_task]: the dictionary returned is the row as it was read,
    before the [UPDATE]. *)
Definition get_next_task (now : Q) (d : Db) : option TaskRow * Db :=
  match first_pending (tasks d) with
  | None => (None, d)
  | Some r =>
      (Some r,
       with_tasks d
         (map (fun x => if k_id x =? k_id r then start_task now x else x)
            (tasks d))
         (tasks_seq d))
  end.

Definition finish_task (status result error : string) (now : Q) (r : TaskRow)
    : TaskRow :=
  mkTask (k_id r) (k_type r) (k_target_type r) (k_entity_id r) (k_target_id r)
    (k_query r) status (k_priority r) result error (k_created_at r)
    (k_started_at r) now.

(** [complete_task].  [result] is the JSON text of a non-empty result
    dictionary, [None] for an absent or empty one. *)
Definition complete_task (task_id : Z) (result : option string)
    (error : string) (now : Q) (d : Db) : Db :=
  let status := if String.eqb error "" then "done" else "failed" in
  with_tasks d
    (map (fun x =>
            if k_id x =? task_id
            then finish_task status (default "{}" result) error now x
            else x)
       (tasks d))
    (tasks_seq d).

Definition count_tasks (status : string) (d : Db) : Z :=
  Z.of_nat (length (List.filter (fun r => String.eqb (k_status r) status) (tasks d))).


(** [INSERT OR IGNORE]: a pair already logged keeps its row. *)
Definition mark_done (action key details : string) (now : Q) (d : Db) : Db :=
  match logs d !! (action, key) with
  | Some _ => d
  | None =>
      mkDb (store d) (tasks d) (tasks_seq d)
        (<[(action, key) := mkLog (logs_seq d + 1) action key details now]>
           (logs d))
        (logs_seq d + 1)
  end.

(** [reset]: six tables are emptied; the criteria, the configuration and the
    [AUTOINCREMENT] counters stay. *)
Definition reset (d : Db) : Db :=
  let s := store d in
  mkDb
    (mkStore [] (entities_seq s) [] (targets_seq s) (criteria s)
       (criteria_seq s) ∅ (scores_seq s) ∅ (config s))
    [] (tasks_seq d) ∅ (logs_seq d).

(** One call on the scorer.  A call that raises leaves the file as it was:
    its [with] block rolls back. *)
Inductive op :=
| AddEntity (name kind : string) (kw : EntityKw) (now : Q)
| AddTarget (url : string) (entity_id : Z) (platform : string) (kw : TargetKw)
    (now : Q)
| ConfigureCriteria (specs : list CriterionSpec) (threshold : Z)
| SetCriterion (target_id : Z) (criterion_name : string) (met : bool)
    (evidence : string) (now : Q)
| ComputeScore (target_id : Z) (now_total now_status : Q)
| AddTask (task_type : string) (entity_id target_id : Z) (query : string)
    (priority : Z) (target_type : string) (now : Q)
| GetNextTask (now : Q)
| CompleteTask (task_id : Z) (result : option string) (error : string) (now : Q)
| MarkDone (action key details : string) (now : Q)
| Reset.

Definition stored {A : Type} (get : A -> Store) (o : outcome A) (d : Db) : Db :=
  match o with
  | Ok a => with_store d (get a)
  | Raise _ => d
  end.

Definition apply_op (d : Db) (o : op) : Db :=
  match o with
  | AddEntity name kind kw now =>
      with_store d (snd (add_entity name kind kw now (store d)))
  | AddTarget url entity_id platform kw now =>
      stored snd (add_target url entity_id platform kw now (store d)) d
  | ConfigureCriteria specs threshold =>
      stored id (configure_criteria specs threshold (store d)) d
  | SetCriterion target_id criterion_name met evidence now =>
      stored id (set_criterion target_id criterion_name met evidence now (store d)) d
  | ComputeScore target_id now_total now_status =>
      stored snd (compute_score target_id now_total now_status (store d)) d
  | AddTask task_type entity_id target_id query priority target_type now =>
      snd (add_task task_type entity_id target_id query priority target_type now d)
  | GetNextTask now => snd (get_next_task now d)
  | CompleteTask task_id result error now =>
      complete_task task_id result error now d
  | MarkDone action key details now => mark_done action key details now d
  | Reset => reset d
  end.

Definition apply_ops (ops : list op) (d : Db) : Db := fold_left apply_op ops d.

End GraphStore.

Module GraphStoreFacts.
Import PyDict PyDictFacts GraphScorer GraphScorerFacts GraphStore.

(** *** [int(str(n))] *)

Fixpoint all_digits (s : string) : bool :=
  match s with
  | EmptyString => true
  | String a rest => bool_decide (digit_value a <> None) && all_digits rest
  end.

Lemma append_assoc_string (a b c : string) : (a +:+ b) +:+ c = a +:+ (b +:+ c).
Proof.
  induction a as [| x a IH]; [reflexivity |].
  change (String x ((a +:+ b) +:+ c) = String x (a +:+ (b +:+ c))).
  now rewrite IH.
Qed.

Lemma append_empty_r (a : string) : a +:+ "" = a.
Proof.
  induction a as [| x a IH]; [reflexivity |].
  change (String x (a +:+ "") = String x a). now rewrite IH.
Qed.

Lemma all_digits_app (a b : string) :
  all_digits (a +:+ b) = all_digits a && all_digits b.
Proof.
  induction a as [| x a IH]; simpl; [reflexivity |].
  now rewrite IH, andb_assoc.
Qed.

Lemma digit_value_char (r : N) :
  (r < 10)%N -> digit_value (pretty_N_char r) = Some (Z.of_N r).
Proof.
  intros Hr.
  assert (r = 0 \/ r = 1 \/ r = 2 \/ r = 3 \/ r = 4 \/ r = 5 \/ r = 6 \/
          r = 7 \/ r = 8 \/ r = 9)%N as H by lia.
  repeat (destruct H as [-> | H]; [reflexivity |]). now subst.
Qed.

(** The decimal digits [str] writes for [x], as [int] reads them back. *)
Lemma pretty_N_go_digits (x : N) :
  exists (d : string) (k : Z),
    all_digits d = true /\
    ((0 < x)%N -> d <> "") /\
    (forall s, pretty_N_go x s = d +:+ s) /\
    forall s acc flag,
      parse_digits (d +:+ s) acc flag
      = parse_digits s (acc * k + Z.of_N x)
          (flag || negb (bool_decide (d = ""))).
Proof.
  induction (N.lt_wf_0 x) as [x _ IH].
  destruct (N.eq_0_gt_0_cases x) as [-> | Hpos].
  - exists "", 1. split; [reflexivity |]. split; [lia |].
    split; [intros s; apply pretty_N_go_0 |].
    intros s acc flag. simpl. rewrite orb_false_r. f_equal. lia.
  - destruct (IH (x `div` 10)%N) as (d & k & Hd & _ & Hgo & Hparse);
      [now apply N.div_lt |].
    exists (d +:+ String (pretty_N_char (x `mod` 10)) ""), (k * 10).
    pose proof (digit_value_char (x `mod` 10)%N) as Hchar.
    assert (x `mod` 10 < 10)%N as Hlt by now apply N.mod_lt.
    specialize (Hchar Hlt).
    split; [| split; [| split]].
    + rewrite all_digits_app, Hd. cbn [all_digits andb].
      rewrite andb_true_r. apply bool_decide_eq_true. now rewrite Hchar.
    + intros _. destruct d; discriminate.
    + intros s. rewrite pretty_N_go_step by exact Hpos.
      rewrite Hgo, append_assoc_string. reflexivity.
    + intros s acc flag. rewrite append_assoc_string, Hparse.
      change (String (pretty_N_char (x `mod` 10)) "" +:+ s)
        with (String (pretty_N_char (x `mod` 10)) s).
      cbn [parse_digits]. rewrite Hchar.
      replace (negb (bool_decide (d +:+ String (pretty_N_char (x `mod` 10)) "" = "")))
        with true by (destruct d; reflexivity).
      rewrite orb_true_r. f_equal.
      rewrite N2Z.inj_div, N2Z.inj_mod. change (Z.of_N 10) with 10.
      pose proof (Z.div_mod (Z.of_N x) 10 ltac:(discriminate)). lia.
Qed.

Lemma digit_not_space (a : ascii) :
  digit_value a <> None -> Py.is_space a = false.
Proof.
  unfold digit_value, Py.is_space. cbv zeta.
  destruct (48 <=? nat_of_ascii a)%nat eqn:H1; [| now intros []].
  destruct (nat_of_ascii a <=? 57)%nat eqn:H2; [| now intros []].
  intros _. apply Nat.leb_le in H1, H2.
  apply orb_false_iff. split; apply andb_false_iff; right;
    apply Nat.leb_gt; lia.
Qed.

Lemma rev_app_rev_app (s1 : string) :
  forall s2 s3 : string,
    String.rev_app (String.rev_app s1 s2) s3 = String.rev_app s2 (s1 +:+ s3).
Proof.
  induction s1 as [| a s1 IH]; intros s2 s3; simpl; [reflexivity |].
  now rewrite IH.
Qed.

Lemma rev_rev (s : string) : String.rev (String.rev s) = s.
Proof.
  unfold String.rev. rewrite rev_app_rev_app. simpl. apply append_empty_r.
Qed.

(** Text whose first and last characters are not whitespace is left alone
    by [strip]. *)
Definition no_space (s : string) : Prop :=
  forall a rest, s = String a rest -> Py.is_space a = false.

Lemma lstrip_no_space (s : string) : no_space s -> Py.lstrip s = s.
Proof.
  intros H. destruct s as [| a rest]; [reflexivity |].
  simpl. now rewrite (H a rest eq_refl).
Qed.

Lemma strip_no_space (s : string) :
  no_space s -> no_space (String.rev s) -> Py.strip s = s.
Proof.
  intros H1 H2. unfold Py.strip.
  rewrite (lstrip_no_space s H1), (lstrip_no_space _ H2). apply rev_rev.
Qed.

Fixpoint all_solid (s : string) : bool :=
  match s with
  | EmptyString => true
  | String a rest => negb (Py.is_space a) && all_solid rest
  end.

Lemma all_solid_rev_app (s1 : string) :
  forall s2, all_solid s1 = true -> all_solid s2 = true ->
             all_solid (String.rev_app s1 s2) = true.
Proof.
  induction s1 as [| a s1 IH]; intros s2 H1 H2; simpl in *; [exact H2 |].
  apply andb_true_iff in H1 as [Ha H1]. apply IH; [exact H1 |].
  simpl. now rewrite Ha.
Qed.

Lemma all_solid_no_space (s : string) : all_solid s = true -> no_space s.
Proof.
  intros H a rest ->. simpl in H. apply andb_true_iff in H as [Ha _].
  now apply negb_true_iff.
Qed.

Lemma strip_solid (s : string) : all_solid s = true -> Py.strip s = s.
Proof.
  intros H. apply strip_no_space; apply all_solid_no_space; [exact H |].
  now apply all_solid_rev_app.
Qed.

Lemma all_digits_solid (d : string) : all_digits d = true -> all_solid d = true.
Proof.
  induction d as [| a d IH]; simpl; [reflexivity |].
  intros [Ha Hd]%andb_true_iff. apply bool_decide_eq_true in Ha.
  rewrite (digit_not_space a Ha). now apply IH.
Qed.

(** On unsigned digits [int] goes straight to the digit loop. *)
Lemma py_int_digits (d : string) :
  all_digits d = true -> d <> "" -> py_int d = parse_digits d 0 false.
Proof.
  intros Hd Hne. unfold py_int. rewrite (strip_solid d (all_digits_solid d Hd)).
  destruct d as [| c rest]; [congruence |].
  simpl in Hd. apply andb_true_iff in Hd as [Hc _].
  apply bool_decide_eq_true in Hc.
  destruct c as [[] [] [] [] [] [] [] []]; try reflexivity;
    exfalso; apply Hc; reflexivity.
Qed.

Lemma pretty_positive_digits (p : positive) :
  exists d,
    pretty p = d /\ all_digits d = true /\ d <> "" /\
    parse_digits d 0 false = Some (Z.pos p).
Proof.
  destruct (pretty_N_go_digits (N.pos p)) as (d & k & Hd & Hne & Hgo & Hparse).
  exists d. split.
  - unfold pretty, pretty_positive, pretty, pretty_N.
    destruct (decide (N.pos p = 0%N)); [discriminate |].
    now rewrite Hgo, append_empty_r.
  - split; [exact Hd |]. split; [apply Hne; reflexivity |].
    rewrite <- (append_empty_r d) at 1. rewrite Hparse.
    assert (bool_decide (d = "") = false) as ->
        by (apply bool_decide_eq_false, Hne; reflexivity).
    simpl. f_equal; lia.
Qed.

(** [int(str(z)) == z] for every integer [z]. *)
Lemma py_int_pretty (z : Z) : py_int (pretty z) = Some z.
Proof.
  destruct z as [| p | p].
  - reflexivity.
  - destruct (pretty_positive_digits p) as (d & Hpretty & Hd & Hne & Hparse).
    change (pretty (Z.pos p)) with (pretty p).
    now rewrite Hpretty, py_int_digits.
  - destruct (pretty_positive_digits p) as (d & Hpretty & Hd & Hne & Hparse).
    change (pretty (Z.neg p)) with ("-" +:+ pretty p). rewrite Hpretty.
    unfold py_int. rewrite strip_solid.
    + change ("-" +:+ d) with (String "-" d). cbv iota beta.
      now rewrite Hparse.
    + change ("-" +:+ d) with (String "-" d). simpl.
      now apply all_digits_solid.
Qed.

(** *** Criteria read back *)

Definition by_sort_order (a b : CriterionRow) : Prop :=
  c_sort_order a <= c_sort_order b.

Lemma sorted_app_before {A : Type} (R : A -> A -> Prop) (acc l : list A) (x : A) :
  StronglySorted R (acc ++ x :: l) -> Forall (fun a => R a x) acc.
Proof.
  induction acc as [| a acc IH]; simpl; [constructor |].
  intros H. inversion H as [| ? ? Hs Hall]; subst.
  constructor; [| now apply IH].
  apply List.Forall_forall with (x := x) in Hall; [exact Hall |].
  apply in_or_app. right. now left.
Qed.

Lemma insert_by_sort_order_last (cr : CriterionRow) (rows : list CriterionRow) :
  Forall (fun r => by_sort_order r cr) rows ->
  insert_by_sort_order cr rows = rows ++ [cr].
Proof.
  induction 1 as [| r rows Hr Hrows IH]; simpl; [reflexivity |].
  unfold by_sort_order in Hr.
  destruct (Z.ltb_spec (c_sort_order cr) (c_sort_order r)); [lia |].
  now rewrite IH.
Qed.

Lemma get_criteria_fold_sorted (l : list CriterionRow) :
  forall acc,
    StronglySorted by_sort_order (acc ++ l) ->
    fold_left (fun acc cr => insert_by_sort_order cr acc) l acc = acc ++ l.
Proof.
  induction l as [| cr l IH]; intros acc Hs; simpl; [now rewrite app_nil_r |].
  rewrite (insert_by_sort_order_last cr acc (sorted_app_before _ _ _ _ Hs)).
  rewrite IH; rewrite <- app_assoc; [reflexivity | exact Hs].
Qed.

Lemma criteria_rows_sorted (seq : Z) (specs : list CriterionSpec) :
  forall k : nat,
    StronglySorted by_sort_order
      (imap (fun i => criterion_of_spec seq (k + i)) specs) /\
    Forall (fun r => Z.of_nat k <= c_sort_order r)
      (imap (fun i => criterion_of_spec seq (k + i)) specs).
Proof.
  induction specs as [| cr specs IH]; intros k; [split; constructor |].
  rewrite imap_cons.
  assert (imap ((fun i => criterion_of_spec seq (k + i)) ∘ S) specs
          = imap (fun i => criterion_of_spec seq (S k + i)) specs) as ->.
  { apply imap_ext. intros i x _. simpl. f_equal. lia. }
  destruct (IH (S k)) as [Hs Hall]. split.
  - constructor; [exact Hs |].
    apply (Forall_impl _ _ _ Hall). intros r Hr.
    unfold by_sort_order. simpl. lia.
  - constructor; [simpl; lia |].
    apply (Forall_impl _ _ _ Hall). intros r Hr. lia.
Qed.

Lemma get_criteria_configured (seq : Z) (specs : list CriterionSpec) (s : Store) :
  criteria s = imap (criterion_of_spec seq) specs ->
  get_criteria s = imap (criterion_of_spec seq) specs.
Proof.
  intros Hc. unfold get_criteria. rewrite Hc.
  apply (get_criteria_fold_sorted _ []). simpl.
  exact (proj1 (criteria_rows_sorted seq specs 0)).
Qed.

Lemma criteria_rows_field {B : Type} (field : CriterionRow -> B)
    (of_spec : CriterionSpec -> B) (seq : Z) (specs : list CriterionSpec) :
  (forall i cr, field (criterion_of_spec seq i cr) = of_spec cr) ->
  map field (imap (criterion_of_spec seq) specs) = map of_spec specs.
Proof.
  intros H. revert seq H.
  assert (forall f : nat -> CriterionSpec -> CriterionRow,
            (forall i cr, field (f i cr) = of_spec cr) ->
            map field (imap f specs) = map of_spec specs) as Hgen.
  { induction specs as [| cr specs IH]; intros f Hf; [reflexivity |].
    rewrite imap_cons. simpl. rewrite Hf. f_equal.
    apply IH. intros i x. apply Hf. }
  intros seq H. now apply Hgen.
Qed.

(** Configuring and reading back: with distinct criterion names,
    [configure_criteria] succeeds, [get_criteria] then returns one row per
    given criterion in the order given (a missing label defaulting to the
    name, missing points to 0), [get_threshold] returns the threshold that
    was passed, whatever integer it is, and entities, targets, score rows
    and cached totals are left as they were. *)
Theorem configure_criteria_read_back (specs : list CriterionSpec)
    (threshold : Z) (s : Store) :
  NoDup (map cs_name specs) ->
  exists s',
    configure_criteria specs threshold s = Ok s' /\
    map c_name (get_criteria s') = map cs_name specs /\
    map c_label (get_criteria s')
    = map (fun cr => default (cs_name cr) (cs_label cr)) specs /\
    map c_points (get_criteria s')
    = map (fun cr => default 0 (cs_points cr)) specs /\
    map c_sort_order (get_criteria s')
    = map Z.of_nat (seq 0 (length specs)) /\
    get_threshold s' = Ok threshold /\
    entities s' = entities s /\ targets s' = targets s /\
    scores s' = scores s /\ score_totals s' = score_totals s.
Proof.
  intros Hnd. unfold configure_criteria.
  destruct (decide (NoDup (map cs_name specs))); [| contradiction].
  eexists. split; [reflexivity |].
  rewrite (get_criteria_configured (criteria_seq s) specs) by reflexivity.
  split; [now apply criteria_rows_field |].
  split; [now apply criteria_rows_field |].
  split; [now apply criteria_rows_field |].
  split.
  - change (map Z.of_nat (seq 0 (length specs)))
      with (Z.of_nat <$> seq 0 (length specs)).
    rewrite <- (imap_seq_0 specs Z.of_nat).
    change (map c_sort_order (imap (criterion_of_spec (criteria_seq s)) specs))
      with (c_sort_order <$> imap (criterion_of_spec (criteria_seq s)) specs).
    rewrite fmap_imap. now apply imap_ext.
  - split; [| repeat split].
    unfold get_threshold, get_config. cbn [config].
    rewrite lookup_insert_eq. simpl. now rewrite py_int_pretty.
Qed.

(** *** What every reachable database satisfies *)

Record wf_store (s : Store) : Prop := mk_wf_store {
  wf_seqs : 0 <= entities_seq s /\ 0 <= targets_seq s;
  wf_entity_ids : Forall (fun r => 1 <= e_id r <= entities_seq s) (entities s);
  wf_entity_nodup : NoDup (map e_id (entities s));
  wf_entity_key : NoDup (map (fun r => (e_name r, e_city r)) (entities s));
  wf_target_ids : Forall (fun r => 1 <= t_id r <= targets_seq s) (targets s);
  wf_target_nodup : NoDup (map t_id (targets s));
  wf_target_url : NoDup (map t_url (targets s));
  wf_target_link :
    Forall (fun r => In (t_entity_id r) (map e_id (entities s))) (targets s);
  wf_scores :
    forall k row, scores s !! k = Some row -> In (fst k) (map t_id (targets s));
  wf_totals :
    forall k row, score_totals s !! k = Some row -> In k (map t_id (targets s));
  wf_criteria : NoDup (map c_name (criteria s))
}.

Lemma entity_exists_In (id : Z) (s : Store) :
  entity_exists id s = true <-> In id (map e_id (entities s)).
Proof.
  unfold entity_exists. rewrite existsb_exists, in_map_iff.
  split; intros (r & H1 & H2).
  - exists r. split; [now apply Z.eqb_eq | exact H1].
  - exists r. split; [exact H2 | now apply Z.eqb_eq].
Qed.

Lemma target_exists_In (id : Z) (s : Store) :
  target_exists id s = true <-> In id (map t_id (targets s)).
Proof.
  unfold target_exists. rewrite existsb_exists, in_map_iff.
  split; intros (r & H1 & H2).
  - exists r. split; [now apply Z.eqb_eq | exact H1].
  - exists r. split; [exact H2 | now apply Z.eqb_eq].
Qed.

Lemma NoDup_snoc {A : Type} (l : list A) (x : A) :
  NoDup l -> ~ In x l -> NoDup (l ++ [x]).
Proof.
  intros Hl Hx. apply NoDup_app. split; [exact Hl |]. split.
  - intros y Hy [-> | []]%list_elem_of_In. apply Hx. now apply list_elem_of_In.
  - apply NoDup_singleton.
Qed.

Lemma fresh_id {A : Type} (id_of : A -> Z) (seq : Z) (rows : list A) :
  Forall (fun r => 1 <= id_of r <= seq) rows -> ~ In (seq + 1) (map id_of rows).
Proof.
  intros Hall Hin. apply in_map_iff in Hin as (r & Hr & Hin).
  apply (proj1 (List.Forall_forall _ _) Hall) in Hin. lia.
Qed.

Lemma ids_snoc {A : Type} (id_of : A -> Z) (seq : Z) (rows : list A) (x : A) :
  0 <= seq -> id_of x = seq + 1 ->
  Forall (fun r => 1 <= id_of r <= seq) rows ->
  Forall (fun r => 1 <= id_of r <= seq + 1) (rows ++ [x]).
Proof.
  intros Hseq Hx Hall. apply Forall_app. split.
  - apply (Forall_impl _ _ _ Hall). intros r Hr. lia.
  - constructor; [lia | constructor].
Qed.

Lemma add_entity_wf (name kind : string) (kw : EntityKw) (now : Q) (s : Store) :
  wf_store s -> wf_store (snd (add_entity name kind kw now s)).
Proof.
  intros W. unfold add_entity.
  destruct (List.find _ (entities s)) as [existing |] eqn:Hfind; [exact W |].
  destruct W as [Hseq Hids Hnd Hkey Htids Htnd Hturl Hlink Hsc Htot Hcr].
  pose proof Hseq as [He Ht].
  constructor; cbn; try assumption.
  - split; lia.
  - now apply ids_snoc.
  - rewrite map_app. apply NoDup_snoc; [exact Hnd |]. now apply fresh_id.
  - rewrite map_app. apply NoDup_snoc; [exact Hkey |].
    intros Hin. apply in_map_iff in Hin as (r & Hr & Hin).
    apply (find_none _ _ Hfind) in Hin. injection Hr as Hn Hc.
    rewrite Hn, Hc, !String.eqb_refl in Hin. discriminate.
  - apply (Forall_impl _ _ _ Hlink). intros r Hr.
    rewrite map_app. apply in_or_app. now left.
Qed.

Lemma map_if_field {A B : Type} (field : A -> B) (p : A -> bool) (g : A -> A)
    (rows : list A) :
  (forall r, field (g r) = field r) ->
  map field (map (fun r => if p r then g r else r) rows) = map field rows.
Proof.
  intros H. rewrite map_map. apply map_ext. intros r.
  destruct (p r); [apply H | reflexivity].
Qed.

Lemma add_target_wf (url : string) (entity_id : Z) (platform : string)
    (kw : TargetKw) (now : Q) (s : Store) (id : Z) (s' : Store) :
  wf_store s ->
  add_target url entity_id platform kw now s = Ok (id, s') -> wf_store s'.
Proof.
  intros W. unfold add_target.
  destruct (List.find _ (targets s)) as [existing |] eqn:Hfind.
  - destruct (_ || _); [now intros [= _ <-] |].
    destruct (entity_exists entity_id s) eqn:Hex; [| discriminate].
    intros [= _ <-]. apply entity_exists_In in Hex.
    destruct W as [Hseq Hids Hnd Hkey Htids Htnd Hturl Hlink Hsc Htot Hcr].
  pose proof Hseq as [He Ht].
    constructor; cbn; try assumption.
    + apply Forall_map. apply (Forall_impl _ _ _ Htids). intros r Hr.
      now destruct (unlinked _ r).
    + now rewrite map_if_field.
    + now rewrite map_if_field.
    + apply Forall_map. apply (Forall_impl _ _ _ Hlink). intros r Hr.
      now destruct (unlinked _ r).
    + intros k row Hk. rewrite map_if_field by reflexivity. eauto.
    + intros k row Hk. rewrite map_if_field by reflexivity. eauto.
  - destruct (entity_exists entity_id s) eqn:Hex; [| discriminate].
    intros [= _ <-]. apply entity_exists_In in Hex.
    destruct W as [Hseq Hids Hnd Hkey Htids Htnd Hturl Hlink Hsc Htot Hcr].
  pose proof Hseq as [He Ht].
    constructor; cbn; try assumption.
    + split; lia.
    + now apply ids_snoc.
    + rewrite map_app. apply NoDup_snoc; [exact Htnd |]. now apply fresh_id.
    + rewrite map_app. apply NoDup_snoc; [exact Hturl |].
      intros Hin. apply in_map_iff in Hin as (r & Hr & Hin).
      apply (find_none _ _ Hfind) in Hin.
      rewrite Hr, String.eqb_refl in Hin. discriminate.
    + apply Forall_app. split; [exact Hlink |]. now repeat constructor.
    + intros k row Hk. rewrite map_app. apply in_or_app. left. eauto.
    + intros k row Hk. rewrite map_app. apply in_or_app. left. eauto.
Qed.

Lemma configure_criteria_wf (specs : list CriterionSpec) (threshold : Z)
    (s s' : Store) :
  wf_store s -> configure_criteria specs threshold s = Ok s' -> wf_store s'.
Proof.
  intros W. unfold configure_criteria.
  destruct (decide (NoDup (map cs_name specs))) as [Hnd0 |]; [| discriminate].
  intros [= <-].
  destruct W as [Hseq Hids Hnd Hkey Htids Htnd Hturl Hlink Hsc Htot Hcr].
  pose proof Hseq as [He Ht].
  constructor; cbn; try assumption.
  now rewrite (criteria_rows_field c_name cs_name).
Qed.

Lemma set_criterion_wf (tid : Z) (nm : string) (met : bool) (evidence : string)
    (now : Q) (s s' : Store) :
  wf_store s -> set_criterion tid nm met evidence now s = Ok s' -> wf_store s'.
Proof.
  intros W. unfold set_criterion.
  destruct (target_exists tid s) eqn:Hex; [| discriminate].
  intros [= <-]. apply target_exists_In in Hex.
  destruct W as [Hseq Hids Hnd Hkey Htids Htnd Hturl Hlink Hsc Htot Hcr].
  pose proof Hseq as [He Ht].
  constructor; cbn; try assumption.
  intros k row Hk. destruct (decide (k = (tid, nm))) as [-> | Hne].
  - exact Hex.
  - rewrite lookup_insert_ne in Hk by congruence. eauto.
Qed.

Lemma compute_score_wf (tid : Z) (t t' : Q) (s s' : Store) (r : ScoreResult) :
  wf_store s -> compute_score tid t t' s = Ok (r, s') -> wf_store s'.
Proof.
  intros W. unfold compute_score.
  destruct (py_int _) as [threshold |]; [| discriminate].
  destruct (fold_left _ _ _) as [[total maxp] details].
  destruct (target_exists tid s) eqn:Hex; [| discriminate].
  apply target_exists_In in Hex.
  destruct W as [Hseq Hids Hnd Hkey Htids Htnd Hturl Hlink Hsc Htot Hcr].
  pose proof Hseq as [He Ht].
  assert (forall k row,
            <[tid := mkScoreTotal tid total maxp (threshold <=? total) threshold
                       details t]> (score_totals s) !! k = Some row ->
            In k (map t_id (targets s))) as Htot'.
  { intros k row Hk. destruct (decide (k = tid)) as [-> | Hne]; [exact Hex |].
    rewrite lookup_insert_ne in Hk by congruence. eauto. }
  intros [= _ <-]. cbn [targets with_score_totals].
  destruct (List.find _ (targets s)) as [tr |];
    [destruct (t_entity_id tr =? 0) |];
    constructor; cbn; try assumption.
  - apply Forall_map. apply (Forall_impl _ _ _ Hids). intros x Hx.
    now destruct (e_id x =? t_entity_id tr).
  - now rewrite map_if_field.
  - now rewrite (map_if_field (fun r => (e_name r, e_city r))).
  - apply (Forall_impl _ _ _ Hlink). intros x Hx.
    now rewrite map_if_field.
Qed.

(** What [add_task] dedups on. *)
Definition task_key (r : TaskRow) : string * Z * Z :=
  (k_type r, k_entity_id r, k_target_id r).

Record wf_db (d : Db) : Prop := mk_wf_db {
  wf_the_store : wf_store (store d);
  wf_tasks_seq : 0 <= tasks_seq d;
  wf_task_ids : Forall (fun r => 1 <= k_id r <= tasks_seq d) (tasks d);
  wf_task_nodup : NoDup (map k_id (tasks d));
  wf_task_open :
    forall i j r1 r2,
      tasks d !! i = Some r1 -> tasks d !! j = Some r2 ->
      is_open r1 = true -> is_open r2 = true ->
      task_key r1 = task_key r2 -> i = j;
  wf_logs :
    forall k row, logs d !! k = Some row -> (l_action row, l_key row) = k
}.

Lemma same_task_key (task_type : string) (entity_id target_id : Z) (r : TaskRow) :
  same_task task_type entity_id target_id r = true <->
  task_key r = (task_type, entity_id, target_id) /\ is_open r = true.
Proof.
  unfold same_task, task_key.
  rewrite !andb_true_iff, String.eqb_eq, !Z.eqb_eq.
  split; [intros [[[-> ->] ->] Ho]; auto | intros [[= -> -> ->] Ho]; auto].
Qed.

Lemma first_pending_fold (rows : list TaskRow) :
  forall best : option TaskRow,
    match fold_left
            (fun best r =>
               if String.eqb (k_status r) "pending" then
                 match best with
                 | Some b => if before r b then Some r else Some b
                 | None => Some r
                 end
               else best)
            rows best with
    | Some r =>
        (In r rows /\ k_status r = "pending" \/ best = Some r) /\
        (forall x, In x rows -> k_status x = "pending" -> before x r = false) /\
        (forall b, best = Some b -> before b r = false)
    | None =>
        best = None /\ forall x, In x rows -> k_status x <> "pending"
    end.
Proof.
  assert (forall a, before a a = false) as Hirr.
  { intros a. unfold before, Py.Qltb. rewrite Z.ltb_irrefl, Z.eqb_refl.
    simpl. apply negb_false_iff, Qle_bool_iff, Qle_refl. }
  assert (forall a b c, before a b = false -> before b c = false ->
                        before a c = false) as Htrans.
  { intros a b c. unfold before, Py.Qltb.
    rewrite !orb_false_iff, !andb_false_iff, !Z.ltb_ge, !Z.eqb_neq,
      !negb_false_iff, !Qle_bool_iff.
    intros [H1 H2] [H3 H4]. split; [lia |].
    destruct (Z.eq_dec (k_priority a) (k_priority c)) as [Hac | Hac];
      [| now left].
    right. destruct H2 as [H2 | H2]; [lia |].
    destruct H4 as [H4 | H4]; [lia |]. now apply Qle_trans with (k_created_at b). }
  induction rows as [| r rows IH]; intros best.
  - simpl. destruct best as [b |].
    + split; [now right |]. split; [intros x [] |].
      intros b' [= <-]. apply Hirr.
    + split; [reflexivity | intros x []].
  - cbn [fold_left].
    destruct (String.eqb_spec (k_status r) "pending") as [Hp | Hp].
    + destruct best as [b |].
      * destruct (before r b) eqn:Hrb.
        -- specialize (IH (Some r)).
           destruct (fold_left _ rows (Some r)) as [w |];
             [| now destruct IH as [[=] _]].
           destruct IH as (Hin & Hmin & Hbest). split; [| split].
           ++ left. destruct Hin as [[Hin Hs] | [= <-]];
                [split; [now right | exact Hs] | split; [now left | exact Hp]].
           ++ intros x [<- | Hx] Hs; [now apply Hbest | now apply Hmin].
           ++ intros b' [= <-]. specialize (Hbest r eq_refl).
              destruct (before b w) eqn:Hbw; [| reflexivity].
              exfalso. revert Hrb Hbest Hbw. unfold before, Py.Qltb.
              rewrite !orb_true_iff, !orb_false_iff, !andb_true_iff,
                !andb_false_iff, !Z.ltb_lt, !Z.ltb_ge, !Z.eqb_eq, !Z.eqb_neq,
                !negb_true_iff, !negb_false_iff, !Qle_bool_iff.
              intros [H1 | [H1 H1']] [H2 H2'] [H3 | [H3 H3']]; try lia.
              destruct H2' as [H2' | H2']; [lia |].
              apply not_true_iff_false in H1', H3'.
              rewrite Qle_bool_iff in H1', H3'.
              apply H3'. apply Qle_trans with (k_created_at r); [exact H2' |].
              apply Qlt_le_weak, Qnot_le_lt, H1'.
        -- specialize (IH (Some b)).
           destruct (fold_left _ rows (Some b)) as [w |];
             [| now destruct IH as [[=] _]].
           destruct IH as (Hin & Hmin & Hbest). split; [| split].
           ++ destruct Hin as [[Hin Hs] | [= <-]];
                [left; split; [now right | exact Hs] | now right].
           ++ intros x [<- | Hx] Hs; [| now apply Hmin].
              apply Htrans with b; [exact Hrb | now apply Hbest].
           ++ exact Hbest.
      * specialize (IH (Some r)).
        destruct (fold_left _ rows (Some r)) as [w |];
          [| now destruct IH as [[=] _]].
        destruct IH as (Hin & Hmin & Hbest). split; [| split].
        -- left. destruct Hin as [[Hin Hs] | [= <-]];
             [split; [now right | exact Hs] | split; [now left | exact Hp]].
        -- intros x [<- | Hx] Hs; [now apply Hbest | now apply Hmin].
        -- discriminate.
    + specialize (IH best).
      destruct (fold_left _ rows best) as [w |].
      * destruct IH as (Hin & Hmin & Hbest). split; [| split].
        -- destruct Hin as [[Hin Hs] | ->];
             [left; split; [now right | exact Hs] | now right].
        -- intros x [<- | Hx] Hs; [contradiction | now apply Hmin].
        -- exact Hbest.
      * destruct IH as [-> Hnone]. split; [reflexivity |].
        intros x [<- | Hx]; [exact Hp | now apply Hnone].
Qed.

(** What [get_next_task] picks: a pending row that no pending row sorts
    strictly before; nothing exactly when no row is pending. *)
Lemma first_pending_spec (rows : list TaskRow) :
  match first_pending rows with
  | Some r =>
      In r rows /\ k_status r = "pending" /\
      forall x, In x rows -> k_status x = "pending" -> before x r = false
  | None => forall x, In x rows -> k_status x <> "pending"
  end.
Proof.
  pose proof (first_pending_fold rows None) as H. unfold first_pending.
  destruct (fold_left _ rows None) as [r |].
  - destruct H as ([[Hin Hs] | [=]] & Hmin & _). auto.
  - now destruct H.
Qed.

Lemma lookup_map {A B : Type} (f : A -> B) (l : list A) (i : nat) (y : B) :
  map f l !! i = Some y -> exists x, y = f x /\ l !! i = Some x.
Proof. change (map f l) with (f <$> l). apply list_lookup_fmap_Some_1. Qed.

Lemma lookup_In {A : Type} (l : list A) (i : nat) (x : A) :
  l !! i = Some x -> In x l.
Proof. intros H. apply list_elem_of_In. now apply list_elem_of_lookup_2 with i. Qed.

Lemma NoDup_map_In_eq {A B : Type} (g : A -> B) (l : list A) (x y : A) :
  NoDup (map g l) -> In x l -> In y l -> g x = g y -> x = y.
Proof.
  induction l as [| a l IH]; simpl; [intros _ [] |].
  intros Hnd Hx Hy Hg. apply NoDup_cons in Hnd as [Ha Hnd].
  rewrite list_elem_of_In in Ha.
  destruct Hx as [-> | Hx], Hy as [-> | Hy]; auto.
  - exfalso. apply Ha. rewrite Hg. now apply in_map.
  - exfalso. apply Ha. rewrite <- Hg. now apply in_map.
Qed.

Lemma tasks_map_wf (d : Db) (f : TaskRow -> TaskRow) :
  (forall x, k_id (f x) = k_id x) ->
  (forall x, task_key (f x) = task_key x) ->
  (forall x, In x (tasks d) -> is_open (f x) = true -> is_open x = true) ->
  wf_db d -> wf_db (with_tasks d (map f (tasks d)) (tasks_seq d)).
Proof.
  intros Hid Hkey Hopen [Ws Hseq Hids Hnd Ho Hl].
  constructor; cbn; try assumption.
  - apply Forall_map. apply (Forall_impl _ _ _ Hids). intros x Hx.
    now rewrite Hid.
  - rewrite map_map. rewrite (map_ext _ k_id); [exact Hnd | exact Hid].
  - intros i j r1 r2 H1 H2 O1 O2 K.
    apply lookup_map in H1 as (x1 & -> & H1).
    apply lookup_map in H2 as (x2 & -> & H2).
    rewrite !Hkey in K.
    apply (Ho i j x1 x2); auto; apply Hopen; eauto using lookup_In.
Qed.

Lemma get_next_task_wf (now : Q) (d : Db) :
  wf_db d -> wf_db (snd (get_next_task now d)).
Proof.
  intros W. unfold get_next_task.
  pose proof (first_pending_spec (tasks d)) as Hspec.
  destruct (first_pending (tasks d)) as [r |]; [| exact W].
  destruct Hspec as (Hin & Hpending & _). cbn [snd].
  apply tasks_map_wf; try exact W.
  - intros x. now destruct (k_id x =? k_id r).
  - intros x. now destruct (k_id x =? k_id r).
  - intros x Hx. destruct (Z.eqb_spec (k_id x) (k_id r)) as [Heq |]; [| auto].
    intros _.
    rewrite (NoDup_map_In_eq k_id (tasks d) x r (wf_task_nodup d W) Hx Hin Heq).
    unfold is_open. now rewrite Hpending.
Qed.

Lemma complete_task_wf (task_id : Z) (result : option string) (error : string)
    (now : Q) (d : Db) :
  wf_db d -> wf_db (complete_task task_id result error now d).
Proof.
  intros W. unfold complete_task. apply tasks_map_wf; try exact W.
  - intros x. now destruct (k_id x =? task_id).
  - intros x. now destruct (k_id x =? task_id).
  - intros x _. destruct (k_id x =? task_id); [| auto].
    now destruct (String.eqb error "").
Qed.

Lemma add_task_wf (task_type : string) (entity_id target_id : Z)
    (query : string) (priority : Z) (target_type : string) (now : Q) (d : Db) :
  wf_db d ->
  wf_db (snd (add_task task_type entity_id target_id query priority
                target_type now d)).
Proof.
  intros W. unfold add_task.
  destruct (List.find _ (tasks d)) as [existing |] eqn:Hfind; [exact W |].
  destruct W as [Ws Hseq Hids Hnd Ho Hl].
  assert (forall x, In x (tasks d) -> is_open x = true ->
                    task_key x <> (task_type, entity_id, target_id)) as Hnew.
  { intros x Hx Hopen Hk. apply (find_none _ _ Hfind) in Hx.
    assert (same_task task_type entity_id target_id x = true) as Hsame
        by now apply same_task_key.
    congruence. }
  constructor; cbn; try assumption.
  - lia.
  - now apply ids_snoc.
  - rewrite map_app. apply NoDup_snoc; [exact Hnd |]. now apply fresh_id.
  - intros i j r1 r2 H1 H2 O1 O2 K.
    apply lookup_snoc_Some in H1 as [[Hi H1] | [-> <-]];
      apply lookup_snoc_Some in H2 as [[Hj H2] | [-> <-]].
    + now apply (Ho i j r1 r2).
    + exfalso. apply (Hnew r1 (lookup_In _ _ _ H1) O1). exact K.
    + exfalso. apply (Hnew r2 (lookup_In _ _ _ H2) O2). now rewrite <- K.
    + reflexivity.
Qed.

Lemma mark_done_wf (action key details : string) (now : Q) (d : Db) :
  wf_db d -> wf_db (mark_done action key details now d).
Proof.
  intros W. unfold mark_done.
  destruct (logs d !! (action, key)) eqn:Hlog; [exact W |].
  destruct W as [Ws Hseq Hids Hnd Ho Hl].
  constructor; cbn; try assumption.
  intros k row Hk. destruct (decide (k = (action, key))) as [-> | Hne].
  - rewrite lookup_insert_eq in Hk. now injection Hk as <-.
  - rewrite lookup_insert_ne in Hk by congruence. eauto.
Qed.

Lemma reset_wf (d : Db) : wf_db d -> wf_db (reset d).
Proof.
  intros [[Hs _ _ _ _ _ _ _ _ _ Hcr] Hseq _ _ _ _].
  constructor; cbn; try assumption; try constructor; cbn;
    try assumption; try constructor;
    try (intros k row Hk; now rewrite lookup_empty in Hk).
  intros i j r1 r2 H1. now destruct i.
Qed.

Lemma with_store_wf (d : Db) (s : Store) :
  wf_db d -> wf_store s -> wf_db (with_store d s).
Proof. intros [_ Hseq Hids Hnd Ho Hl] Ws. now constructor. Qed.

Lemma apply_op_wf (d : Db) (o : op) : wf_db d -> wf_db (apply_op d o).
Proof.
  intros W. pose proof (wf_the_store d W) as Ws. destruct o; cbn [apply_op].
  - apply with_store_wf; [exact W | now apply add_entity_wf].
  - destruct (add_target url entity_id platform kw now (store d))
      as [[tid s'] | err] eqn:H; [| exact W].
    apply with_store_wf; [exact W |]. exact (add_target_wf _ _ _ _ _ _ _ _ Ws H).
  - destruct (configure_criteria specs threshold (store d)) as [s' | err] eqn:H;
      [| exact W].
    apply with_store_wf; [exact W |]. exact (configure_criteria_wf _ _ _ _ Ws H).
  - destruct (set_criterion target_id criterion_name met evidence now (store d))
      as [s' | err] eqn:H; [| exact W].
    apply with_store_wf; [exact W |]. exact (set_criterion_wf _ _ _ _ _ _ _ Ws H).
  - destruct (compute_score target_id now_total now_status (store d))
      as [[r s'] | err] eqn:H; [| exact W].
    apply with_store_wf; [exact W |]. exact (compute_score_wf _ _ _ _ _ _ Ws H).
  - now apply add_task_wf.
  - now apply get_next_task_wf.
  - now apply complete_task_wf.
  - now apply mark_done_wf.
  - now apply reset_wf.
Qed.

Lemma empty_db_wf : wf_db empty_db.
Proof.
  constructor; cbn; try constructor; cbn; try constructor; try lia;
    try (intros k row Hk; now rewrite lookup_empty in Hk).
  intros i j r1 r2 H1. now destruct i.
Qed.

Lemma apply_ops_wf (ops : list op) :
  forall d, wf_db d -> wf_db (apply_ops ops d).
Proof.
  induction ops as [| o ops IH]; intros d W; [exact W |].
  unfold apply_ops in *. simpl. apply IH. now apply apply_op_wf.
Qed.

(** The database a fresh file reaches by a sequence of calls. *)
Definition reached (ops : list op) : Db := apply_ops ops empty_db.

Lemma reached_wf (ops : list op) : wf_db (reached ops).
Proof. apply apply_ops_wf, empty_db_wf. Qed.

Lemma linked_nonzero (s : Store) (r : TargetRow) :
  wf_store s -> In r (targets s) ->
  t_entity_id r <> 0 /\ entity_exists (t_entity_id r) s = true.
Proof.
  intros W Hr.
  pose proof (proj1 (List.Forall_forall _ _) (wf_target_link s W) r Hr) as Hin.
  split; [| now apply entity_exists_In].
  apply in_map_iff in Hin as (e & He & Hin).
  apply (proj1 (List.Forall_forall _ _) (wf_entity_ids s W)) in Hin. lia.
Qed.

(** Whatever sequence of [add_entity], [add_target], [configure_criteria],
    [set_criterion], [compute_score], [add_task], [get_next_task],
    [complete_task], [mark_done] and [reset] calls a fresh database has seen
    (calls that raised included): entity ids are distinct and so are the
    (name, city) pairs of the entities; target ids and target URLs are
    distinct; every target is linked to an entity that exists, never to
    entity 0; every score row and every cached total belongs to a target
    that exists; criterion names are distinct; task ids are distinct, and no
    two pending or running tasks share type, entity and target. *)
Theorem reachable_db_invariants (ops : list op) :
  NoDup (map e_id (entities (store (reached ops)))) /\
  NoDup (map (fun r => (e_name r, e_city r)) (entities (store (reached ops)))) /\
  NoDup (map t_id (targets (store (reached ops)))) /\
  NoDup (map t_url (targets (store (reached ops)))) /\
  Forall (fun r => t_entity_id r <> 0 /\
                   entity_exists (t_entity_id r) (store (reached ops)) = true)
    (targets (store (reached ops))) /\
  (forall tid nm row,
     scores (store (reached ops)) !! (tid, nm) = Some row ->
     target_exists tid (store (reached ops)) = true) /\
  (forall tid row,
     score_totals (store (reached ops)) !! tid = Some row ->
     target_exists tid (store (reached ops)) = true) /\
  NoDup (map c_name (criteria (store (reached ops)))) /\
  NoDup (map k_id (tasks (reached ops))) /\
  (forall i j r1 r2,
     tasks (reached ops) !! i = Some r1 -> tasks (reached ops) !! j = Some r2 ->
     is_open r1 = true -> is_open r2 = true ->
     task_key r1 = task_key r2 -> i = j).
Proof.
  pose proof (reached_wf ops) as W. pose proof (wf_the_store _ W) as Ws.
  split; [apply (wf_entity_nodup _ Ws) |].
  split; [apply (wf_entity_key _ Ws) |].
  split; [apply (wf_target_nodup _ Ws) |].
  split; [apply (wf_target_url _ Ws) |].
  split; [apply List.Forall_forall; intros r Hr; now apply linked_nonzero |].
  split; [intros tid nm row H; apply target_exists_In;
          exact (wf_scores _ Ws (tid, nm) row H) |].
  split; [intros tid row H; apply target_exists_In;
          exact (wf_totals _ Ws tid row H) |].
  split; [apply (wf_criteria _ Ws) |].
  split; [apply (wf_task_nodup _ W) | apply (wf_task_open _ W)].
Qed.

(** In a database reached from a fresh file the first link of a target is
    final: [add_target] on a URL already stored returns the stored id and
    changes nothing, whatever entity id, platform and attributes it is given
    (the [UPDATE] that would fill in a missing link finds no row), and
    [add_target] on a new URL without an entity id ([entity_id=0], the
    default) raises [IntegrityError]. *)
Theorem add_target_link_is_final (ops : list op) (url : string) (entity_id : Z)
    (platform : string) (kw : TargetKw) (now : Q) :
  (forall existing,
     List.find (fun r => String.eqb (t_url r) url)
       (targets (store (reached ops))) = Some existing ->
     add_target url entity_id platform kw now (store (reached ops))
     = Ok (t_id existing, store (reached ops))) /\
  (List.find (fun r => String.eqb (t_url r) url)
     (targets (store (reached ops))) = None ->
   add_target url 0 platform kw now (store (reached ops))
   = Raise IntegrityError).
Proof.
  pose proof (wf_the_store _ (reached_wf ops)) as Ws.
  generalize dependent (store (reached ops)). intros s Ws.
  unfold add_target. split.
  - intros existing ->.
    assert (existsb (unlinked (t_id existing)) (targets s) = false) as ->.
    { apply not_true_iff_false. intros Hex.
      apply existsb_exists in Hex as (r & Hr & Hun).
      destruct (linked_nonzero s r Ws Hr) as [Hnz _].
      unfold unlinked in Hun. apply andb_true_iff in Hun as [_ Hz].
      apply Z.eqb_eq in Hz. contradiction. }
    now rewrite orb_true_r.
  - intros ->.
    assert (entity_exists 0 s = false) as ->; [| reflexivity].
    apply not_true_iff_false. intros Hex. apply entity_exists_In in Hex.
    apply in_map_iff in Hex as (e & He & Hin).
    apply (proj1 (List.Forall_forall _ _) (wf_entity_ids s Ws)) in Hin. lia.
Qed.

(** *** The task queue *)

Lemma find_map_on {A : Type} (p : A -> bool) (g : A -> A) (l : list A) :
  (forall x, In x l -> p (g x) = p x) ->
  List.find p (map g l) = g <$> List.find p l.
Proof.
  induction l as [| x l IH]; intros Hp; simpl; [reflexivity |].
  rewrite Hp by now left. destruct (p x); [reflexivity |].
  apply IH. intros y Hy. apply Hp. now right.
Qed.

Lemma find_none_intro {A : Type} (p : A -> bool) (l : list A) :
  (forall x, In x l -> p x = false) -> List.find p l = None.
Proof.
  induction l as [| x l IH]; intros H; simpl; [reflexivity |].
  rewrite H by now left. apply IH. intros y Hy. apply H. now right.
Qed.

(** [add_task] answers with the id of a stored open row of that type, entity
    and target, the first one of them. *)
Lemma add_task_finds (task_type : string) (entity_id target_id : Z)
    (query : string) (priority : Z) (target_type : string) (now : Q)
    (d d1 : Db) (id : Z) :
  add_task task_type entity_id target_id query priority target_type now d
  = (id, d1) ->
  exists x,
    List.find (same_task task_type entity_id target_id) (tasks d1) = Some x /\
    k_id x = id.
Proof.
  unfold add_task.
  destruct (List.find _ (tasks d)) as [existing |] eqn:Hfind.
  - intros [= <- <-]. eauto.
  - intros [= <- <-]. cbn [tasks with_tasks].
    exists (mkTask (tasks_seq d + 1) task_type target_type entity_id target_id
              query "pending" priority "{}" "" now 0 0).
    split; [| reflexivity].
    apply find_app_new; [exact Hfind |].
    apply same_task_key. split; reflexivity.
Qed.

(** A task is deduplicated while it is open: a second [add_task] for the
    same type, entity and target returns the id the first one returned and
    stores nothing, whatever query, priority and target type it carries. *)
Theorem add_task_dedup_while_open (d : Db) (task_type : string)
    (entity_id target_id : Z) (query query' : string) (priority priority' : Z)
    (target_type target_type' : string) (now now' : Q) :
  add_task task_type entity_id target_id query' priority' target_type' now'
    (snd (add_task task_type entity_id target_id query priority target_type
            now d))
  = add_task task_type entity_id target_id query priority target_type now d.
Proof.
  destruct (add_task task_type entity_id target_id query priority target_type
              now d) as [id d1] eqn:H.
  destruct (add_task_finds _ _ _ _ _ _ _ _ _ _ H) as (x & Hfind & Hid).
  cbn [snd]. unfold add_task at 1. now rewrite Hfind, Hid.
Qed.

(** In a database reached from a fresh file, the task [add_task] answers
    with stays deduplicated once [get_next_task] has set tasks running, and
    can be queued again once [complete_task] has closed it: the next
    [add_task] for the same type, entity and target then stores a new
    pending row under a new id. *)
Theorem task_requeue_after_completion (ops : list op) (task_type : string)
    (entity_id target_id : Z) (query : string) (priority : Z)
    (target_type : string) (now : Q) (id : Z) (d1 : Db) :
  add_task task_type entity_id target_id query priority target_type now
    (reached ops) = (id, d1) ->
  (forall query' priority' target_type' now' now_run,
     fst (add_task task_type entity_id target_id query' priority' target_type'
            now' (snd (get_next_task now_run d1))) = id) /\
  (forall result error now_done query' priority' target_type' now',
     id < tasks_seq d1 + 1 /\
     add_task task_type entity_id target_id query' priority' target_type' now'
       (complete_task id result error now_done d1)
     = (tasks_seq d1 + 1,
        with_tasks (complete_task id result error now_done d1)
          (tasks (complete_task id result error now_done d1) ++
           [mkTask (tasks_seq d1 + 1) task_type target_type' entity_id
              target_id query' "pending" priority' "{}" "" now' 0 0])
          (tasks_seq d1 + 1))).
Proof.
  intros H.
  assert (wf_db d1) as W.
  { replace d1 with (snd (add_task task_type entity_id target_id query priority
                            target_type now (reached ops))) by now rewrite H.
    apply add_task_wf, reached_wf. }
  destruct (add_task_finds _ _ _ _ _ _ _ _ _ _ H) as (x0 & Hfind & Hid).
  pose proof (find_some _ _ Hfind) as [Hin0 Hsame0].
  split.
  - intros query' priority' target_type' now' now_run.
    unfold get_next_task.
    pose proof (first_pending_spec (tasks d1)) as Hspec.
    destruct (first_pending (tasks d1)) as [r |].
    + destruct Hspec as (Hr & Hpending & _). cbn [snd].
      unfold add_task. cbn [tasks with_tasks].
      rewrite find_map_on, Hfind; cbn.
      * now destruct (k_id x0 =? k_id r).
      * intros x Hx. destruct (Z.eqb_spec (k_id x) (k_id r)) as [Heq |];
          [| reflexivity].
        rewrite (NoDup_map_In_eq k_id (tasks d1) x r (wf_task_nodup d1 W) Hx Hr
                   Heq).
        unfold same_task, is_open. cbn. now rewrite Hpending.
    + cbn [snd]. unfold add_task. now rewrite Hfind.
  - intros result error now_done query' priority' target_type' now'.
    split.
    { pose proof (proj1 (List.Forall_forall _ _) (wf_task_ids d1 W) x0 Hin0)
        as Hrange.
      cbv beta in Hrange. lia. }
    unfold add_task.
    assert (List.find (same_task task_type entity_id target_id)
              (tasks (complete_task id result error now_done d1)) = None)
      as ->; [| reflexivity].
    apply find_none_intro. intros y Hy. cbn [tasks complete_task with_tasks] in Hy.
    apply in_map_iff in Hy as (x & <- & Hx).
    destruct (Z.eqb_spec (k_id x) id) as [Heq | Hne].
    + unfold same_task, is_open. cbn.
      destruct (String.eqb error ""); cbn; now rewrite !andb_false_r.
    + destruct (same_task task_type entity_id target_id x) eqn:Hsame;
        [| reflexivity].
      exfalso. apply Hne. rewrite <- Hid.
      apply same_task_key in Hsame as [Hk Ho].
      apply same_task_key in Hsame0 as [Hk0 Ho0].
      apply list_elem_of_In, list_elem_of_lookup_1 in Hx as [i Hi].
      apply list_elem_of_In, list_elem_of_lookup_1 in Hin0 as [j Hj].
      assert (i = j) as ->
          by (apply (wf_task_open d1 W i j x x0); auto; congruence).
      congruence.
Qed.

Definition has_status (status : string) (r : TaskRow) : bool :=
  String.eqb (k_status r) status.

Lemma map_other_ids (g : TaskRow -> TaskRow) (id : Z) (l : list TaskRow) :
  ~ In id (map k_id l) ->
  map (fun x => if k_id x =? id then g x else x) l = l.
Proof.
  induction l as [| x l IH]; simpl; [reflexivity |].
  intros Hnot. destruct (Z.eqb_spec (k_id x) id) as [Heq | _].
  - exfalso. apply Hnot. now left.
  - f_equal. apply IH. intros Hin. apply Hnot. now right.
Qed.

(** With distinct ids, an update by id rewrites one row in place. *)
Lemma map_one_id (g : TaskRow -> TaskRow) (r : TaskRow) (l : list TaskRow) :
  NoDup (map k_id l) -> In r l ->
  exists l1 l2,
    l = l1 ++ r :: l2 /\
    map (fun x => if k_id x =? k_id r then g x else x) l = l1 ++ g r :: l2.
Proof.
  intros Hnd Hin. apply in_split in Hin as (l1 & l2 & ->).
  exists l1, l2. split; [reflexivity |].
  rewrite map_app in Hnd. simpl in Hnd.
  apply NoDup_app in Hnd as (_ & Hdisj & Hnd2).
  apply NoDup_cons in Hnd2 as [Hr2 _].
  rewrite map_app. simpl. rewrite Z.eqb_refl.
  rewrite !map_other_ids; [reflexivity | |].
  - intros Hin. apply Hr2. now apply list_elem_of_In.
  - intros Hin. apply (Hdisj (k_id r)); [now apply list_elem_of_In |].
    apply list_elem_of_In. now left.
Qed.

Lemma count_status_app (status : string) (l1 l2 : list TaskRow) (r : TaskRow) :
  Z.of_nat (length (List.filter (has_status status) (l1 ++ r :: l2)))
  = Z.of_nat (length (List.filter (has_status status) l1))
    + (if has_status status r then 1 else 0)
    + Z.of_nat (length (List.filter (has_status status) l2)).
Proof.
  rewrite List.filter_app, length_app. simpl.
  destruct (has_status status r); simpl; lia.
Qed.

Lemma filter_none {A : Type} (p : A -> bool) (l : list A) :
  (forall x, In x l -> p x = false) -> List.filter p l = [].
Proof.
  induction l as [| x l IH]; intros H; simpl; [reflexivity |].
  rewrite H by now left. apply IH. intros y Hy. apply H. now right.
Qed.

(** In a database reached from a fresh file, [get_next_task] hands out a
    pending task that no pending task precedes in (priority, created_at)
    order, the lowest priority number first; it turns exactly that row to
    running, stamped with the time of the call, so the pending count drops
    by one and the running count grows by one; the dictionary it returns
    still reads pending.  It returns nothing, and changes nothing, exactly
    when no task is pending. *)
Theorem get_next_task_order (ops : list op) (now : Q) :
  match get_next_task now (reached ops) with
  | (Some r, d') =>
      In r (tasks (reached ops)) /\ k_status r = "pending" /\
      (forall x, In x (tasks (reached ops)) -> k_status x = "pending" ->
                 k_priority r <= k_priority x /\
                 (k_priority x = k_priority r ->
                  (k_created_at r <= k_created_at x)%Q)) /\
      (exists l1 l2,
         tasks (reached ops) = l1 ++ r :: l2 /\
         tasks d' = l1 ++ start_task now r :: l2) /\
      count_tasks "pending" d' = count_tasks "pending" (reached ops) - 1 /\
      count_tasks "running" d' = count_tasks "running" (reached ops) + 1
  | (None, d') =>
      d' = reached ops /\ count_tasks "pending" (reached ops) = 0
  end.
Proof.
  pose proof (reached_wf ops) as W. unfold get_next_task.
  pose proof (first_pending_spec (tasks (reached ops))) as Hspec.
  destruct (first_pending (tasks (reached ops))) as [r |].
  - destruct Hspec as (Hin & Hpending & Hmin).
    split; [exact Hin |]. split; [exact Hpending |]. split.
    { intros x Hx Hs. specialize (Hmin x Hx Hs). revert Hmin.
      unfold before, Py.Qltb.
      rewrite orb_false_iff, andb_false_iff, Z.ltb_ge, Z.eqb_neq,
        negb_false_iff, Qle_bool_iff.
      intros [H1 [H2 | H2]]; split; auto. intros Heq. contradiction. }
    destruct (map_one_id (start_task now) r (tasks (reached ops))
                (wf_task_nodup _ W) Hin) as (l1 & l2 & Hsplit & Hmap).
    split; [exists l1, l2; split; [exact Hsplit | exact Hmap] |].
    unfold count_tasks. cbn [tasks with_tasks]. rewrite Hmap, Hsplit.
    fold (has_status "pending") (has_status "running").
    rewrite !count_status_app. unfold has_status at 2 5 8 11.
    cbn [k_status start_task]. rewrite Hpending. cbn. lia.
  - split; [reflexivity |]. unfold count_tasks.
    rewrite filter_none; [reflexivity |].
    intros x Hx. apply String.eqb_neq. now apply Hspec.
Qed.

(** *** The dedup log *)


(** *** Scores read back *)

Definition sum_by {A : Type} (f : A -> Z) (l : list A) : Z :=
  fold_right (fun x acc => f x + acc) 0 l.

Lemma sum_by_perm {A : Type} (f : A -> Z) (l l' : list A) :
  Permutation l l' -> sum_by f l = sum_by f l'.
Proof. induction 1; simpl; lia. Qed.

(** The points the stored score row awards a target for a criterion. *)
Definition awarded (s : Store) (tid : Z) (cr : CriterionRow) : Z :=
  from_option s_points_awarded 0 (scores s !! (tid, c_name cr)).

Lemma insert_by_sort_order_perm (cr : CriterionRow) (rows : list CriterionRow) :
  Permutation (cr :: rows) (insert_by_sort_order cr rows).
Proof.
  induction rows as [| r rows IH]; simpl; [reflexivity |].
  destruct (c_sort_order cr <? c_sort_order r); [reflexivity |].
  rewrite perm_swap. now apply perm_skip.
Qed.

Lemma get_criteria_perm (s : Store) : Permutation (get_criteria s) (criteria s).
Proof.
  unfold get_criteria.
  assert (forall l acc,
            Permutation
              (fold_left (fun acc cr => insert_by_sort_order cr acc) l acc)
              (acc ++ l)) as H.
  { induction l as [| cr l IH]; intros acc; simpl; [now rewrite app_nil_r |].
    rewrite IH, <- insert_by_sort_order_perm.
    simpl. apply Permutation_middle. }
  exact (H (criteria s) []).
Qed.

Lemma fold_score_step_keeps (s : Store) (tid : Z) (nm : string)
    (crs : list CriterionRow) :
  ~ In nm (map c_name crs) ->
  forall acc,
    dict_get nm (snd (fold_left (score_step s tid) crs acc))
    = dict_get nm (snd acc).
Proof.
  induction crs as [| cr crs IH]; intros Hnot acc; [reflexivity |].
  simpl. rewrite IH by (intros Hin; apply Hnot; now right).
  destruct acc as [[total maxp] details]. simpl.
  apply dict_get_set_ne. intros Heq. apply Hnot. now left.
Qed.

Lemma fold_score_step_entry (s : Store) (tid : Z) (cr : CriterionRow)
    (crs : list CriterionRow) :
  NoDup (map c_name crs) -> In cr crs ->
  forall acc,
    dict_get (c_name cr) (snd (fold_left (score_step s tid) crs acc))
    = Some (mkDetail (c_label cr) (c_points cr) (awarded s tid cr)
              (from_option s_met false (scores s !! (tid, c_name cr)))
              (from_option s_evidence "" (scores s !! (tid, c_name cr)))).
Proof.
  induction crs as [| c crs IH]; intros Hnd Hin acc; [destruct Hin |].
  simpl in Hnd. apply NoDup_cons in Hnd as [Hc Hnd].
  rewrite list_elem_of_In in Hc. destruct Hin as [-> | Hin].
  - simpl. rewrite fold_score_step_keeps by exact Hc.
    destruct acc as [[total maxp] details]. simpl. apply dict_get_set_eq.
  - simpl. now apply IH.
Qed.

Lemma fold_score_step_sums (s : Store) (tid : Z) (crs : list CriterionRow) :
  forall acc,
    fst (fst (fold_left (score_step s tid) crs acc))
    = fst (fst acc) + sum_by (awarded s tid) crs /\
    snd (fst (fold_left (score_step s tid) crs acc))
    = snd (fst acc) + sum_by c_points crs.
Proof.
  induction crs as [| c crs IH]; intros acc; simpl; [split; lia |].
  destruct (IH (score_step s tid acc c)) as [-> ->].
  destruct acc as [[total maxp] details]. unfold awarded. simpl. split; lia.
Qed.

Lemma find_by_name (cr : CriterionRow) (rows : list CriterionRow) :
  NoDup (map c_name rows) -> In cr rows ->
  List.find (fun r => String.eqb (c_name r) (c_name cr)) rows = Some cr.
Proof.
  induction rows as [| r rows IH]; simpl; [intros _ [] |].
  intros Hnd Hin. apply NoDup_cons in Hnd as [Hr Hnd].
  rewrite list_elem_of_In in Hr. destruct Hin as [-> | Hin].
  - now rewrite String.eqb_refl.
  - destruct (String.eqb_spec (c_name r) (c_name cr)) as [Heq | _]; [| auto].
    exfalso. apply Hr. rewrite Heq. now apply in_map.
Qed.

(** Setting a configured criterion and computing the score: with distinct
    criterion names, an existing target and a threshold that reads as an
    integer, [set_criterion] followed by [compute_score] succeeds; the
    breakdown shows the criterion with its label, its points as maximum,
    those points awarded if it was met and 0 if not, and the evidence given;
    [max_possible] is the sum of the points of all criteria, [total] the sum
    of the points the target's score rows award for them, and [validated]
    says whether the total reaches the threshold. *)
Theorem set_criterion_then_compute_score (s : Store) (tid : Z)
    (cr : CriterionRow) (met : bool) (evidence : string) (now t t' : Q)
    (threshold : Z) :
  NoDup (map c_name (criteria s)) ->
  In cr (criteria s) ->
  target_exists tid s = true ->
  get_threshold s = Ok threshold ->
  exists s1 r s2,
    set_criterion tid (c_name cr) met evidence now s = Ok s1 /\
    compute_score tid t t' s1 = Ok (r, s2) /\
    dict_get (c_name cr) (r_details r)
    = Some (mkDetail (c_label cr) (c_points cr)
              (if met then c_points cr else 0) met evidence) /\
    r_max_possible r = sum_by c_points (criteria s) /\
    r_total r = sum_by (awarded s1 tid) (criteria s) /\
    awarded s1 tid cr = (if met then c_points cr else 0) /\
    r_threshold r = threshold /\
    r_validated r = (threshold <=? r_total r).
Proof.
  intros Hnd Hin Hex Hthr. unfold set_criterion.
  rewrite Hex, (find_by_name cr (criteria s) Hnd Hin).
  set (s1 := with_scores s _ _).
  assert (scores s1 !! (tid, c_name cr)
          = Some (mkScore (scores_seq s + 1) tid (c_name cr) met
                    (if met then c_points cr else 0) evidence now)) as Hrow
      by apply lookup_insert_eq.
  assert (py_int (get_config "threshold" "60" s1) = Some threshold) as Hpy.
  { unfold get_threshold in Hthr.
    change (get_config "threshold" "60" s1) with (get_config "threshold" "60" s).
    destruct (py_int (get_config "threshold" "60" s)); congruence. }
  pose proof (get_criteria_perm s1) as Hperm.
  change (criteria s1) with (criteria s) in Hperm.
  pose proof (fold_score_step_sums s1 tid (get_criteria s1) (0, 0, []))
    as [Htotal Hmax].
  pose proof (fold_score_step_entry s1 tid cr (get_criteria s1)) as Hentry.
  specialize (Hentry
                ltac:(rewrite Hperm; exact Hnd)
                ltac:(rewrite Hperm; exact Hin) (0, 0, [])).
  assert (awarded s1 tid cr = if met then c_points cr else 0) as Haw
      by (unfold awarded; now rewrite Hrow).
  rewrite Haw, Hrow in Hentry. cbn [from_option s_met s_evidence] in Hentry.
  rewrite (sum_by_perm _ _ _ Hperm) in Htotal.
  rewrite (sum_by_perm _ _ _ Hperm) in Hmax.
  destruct (fold_left (score_step s1 tid) (get_criteria s1) (0, 0, []))
    as [[total maxp] details] eqn:Hfold.
  simpl in Htotal, Hmax, Hentry.
  exists s1. eexists. eexists. split; [reflexivity |]. split.
  { unfold compute_score. rewrite Hpy, Hfold.
    change (target_exists tid s1) with (target_exists tid s). rewrite Hex.
    reflexivity. }
  cbn [r_details r_max_possible r_total r_threshold r_validated].
  split; [exact Hentry |]. split; [exact Hmax |]. split; [exact Htotal |].
  split; [exact Haw |]. split; reflexivity.
Qed.

(** *** Concrete runs on the store of the module's usage example *)

Lemma configure_criteria_read_back_demo :
  exists s',
    configure_criteria demo_criteria 60 empty_store = Ok s' /\
    map c_name (get_criteria s')
    = ["diplome_confirme"; "localisation_bio"; "site_personnel"] /\
    map c_points (get_criteria s') = [30; 30; 10] /\
    get_threshold s' = Ok 60.
Proof.
  destruct (configure_criteria_read_back demo_criteria 60 empty_store)
    as (s' & Hcall & Hnames & _ & Hpoints & _ & Hthr & _).
  - apply (bool_decide_unpack _). vm_compute. exact I.
  - exists s'. split; [exact Hcall |]. split; [exact Hnames |].
    split; [exact Hpoints | exact Hthr].
Defined.

Definition queued_db : Db :=
  reached [AddTask "find_target" 1 0 "john doe youtube" 5 "youtube" 1].

Lemma task_requeue_demo :
  fst (add_task "find_target" 1 0 "again" 3 "" 9
         (snd (get_next_task 2 queued_db))) = 1 /\
  fst (add_task "find_target" 1 0 "again" 3 "" 9
         (complete_task 1 None "" 3 queued_db)) = 2.
Proof.
  destruct (task_requeue_after_completion
              [AddTask "find_target" 1 0 "john doe youtube" 5 "youtube" 1]
              "find_target" 1 0 "retry" 4 "" 1 1 queued_db)
    as [Hrunning Hclosed]; [vm_compute; reflexivity |].
  split; [apply Hrunning |].
  destruct (Hclosed None "" 3%Q "again" 3 "" 9%Q) as [_ ->]. reflexivity.
Defined.

Lemma set_criterion_then_compute_score_demo :
  exists s1 r s2,
    set_criterion 1 "site_personnel" true "link in bio" 5 scored_store = Ok s1 /\
    compute_score 1 6 7 s1 = Ok (r, s2) /\
    dict_get "site_personnel" (r_details r)
    = Some (mkDetail "Lien site externe" 10 10 true "link in bio") /\
    r_max_possible r = 70 /\ r_threshold r = 60.
Proof.
  destruct (set_criterion_then_compute_score scored_store 1
              (mkCriterion 3 "site_personnel" "Lien site externe" "" 10
                 "default" 2)
              true "link in bio" 5 6 7 60)
    as (s1 & r & s2 & Hset & Hscore & Hentry & Hmax & _ & _ & Hthr & _).
  - apply (bool_decide_unpack _). vm_compute. exact I.
  - vm_compute. auto.
  - reflexivity.
  - vm_compute. reflexivity.
  - exists s1, r, s2. split; [exact Hset |]. split; [exact Hscore |].
    split; [exact Hentry |]. split; [exact Hmax | exact Hthr].
Defined.

End GraphStoreFacts.

(** ** Pipeline: how a category wave can end *)

Module PipelineWaveFacts.
Import Pipeline PipelineFacts.

(** The largest key is a maximum. *)
Lemma max_by_max {A : Type} (key : A -> Q) (xs : list A) (b : A) :
  Py.max_by key xs = Some b -> Forall (fun x => (key x <= key b)%Q) xs.
Proof.
  destruct xs as [| x0 xs]; [discriminate |]. simpl. intros [= <-].
  assert (forall l b0,
            (key b0 <= key (fold_left
                              (fun best y =>
                                 if Qlt_le_dec (key best) (key y) then y else best)
                              l b0))%Q /\
            Forall (fun x =>
                      (key x <= key (fold_left
                                       (fun best y =>
                                          if Qlt_le_dec (key best) (key y)
                                          then y else best)
                                       l b0))%Q) l) as H.
  { induction l as [| y l IH]; intros b0; simpl.
    - split; [apply Qle_refl | constructor].
    - destruct (IH (if Qlt_le_dec (key b0) (key y) then y else b0))
        as [Hle Hall].
      destruct (Qlt_le_dec (key b0) (key y)) as [Hlt | Hge].
      + split; [| constructor; assumption].
        apply Qle_trans with (key y); [now apply Qlt_le_weak | exact Hle].
      + split; [exact Hle |]. constructor; [| exact Hall].
        now apply Qle_trans with (key b0). }
  destruct (H xs x0) as [Hle Hall]. now constructor.
Qed.

(** How the category record can differ from the one the wave started on
    ([c0], in progress): failed with a reason, candidates untouched; left
    as it was, which only happens before the last wave; or resolved, with
    the verified candidates and the best of them. *)
Definition wave_outcome (wave : Z) (c0 c' : CategoryResolution) : Prop :=
  category c' = category c0 /\ waves_attempted c' = waves_attempted c0 /\
  search_log c' = search_log c0 /\
  ((cat_status c' = FAILED /\ failure_reason c' <> "" /\
    candidates c' = candidates c0 /\ best_candidate c' = best_candidate c0) \/
   (c' = c0 /\ wave < MAX_WAVES) \/
   (cat_status c' = RESOLVED /\ failure_reason c' = failure_reason c0 /\
    exists best,
      best_candidate c' = Some best /\ In best (candidates c') /\
      Forall (fun v => (DataModels.total_score v <= DataModels.total_score best)%Q)
        (candidates c'))).

Definition count_fetch (events : list event) : nat :=
  length (List.filter is_fetch events).

(** No page without url is fetched, and the resolution event is absent. *)
Definition quiet (ev : event) : Prop :=
  match ev with
  | FetchPage u => u <> ""
  | CategoryResolved => False
  | _ => True
  end.

Definition pre (c0 : CategoryResolution) (n : nat) (r : Run) : Prop :=
  cat_res r = c0 /\ count_fetch (trace r) = n /\ Forall quiet (trace r).

Definition fetch_ok (ev : event) : Prop :=
  match ev with
  | FetchPage u => u <> ""
  | _ => True
  end.

Definition post (wave : Z) (c0 : CategoryResolution) (n : nat) (r : Run) : Prop :=
  wave_outcome wave c0 (cat_res r) /\ count_fetch (trace r) = n /\
  Forall fetch_ok (trace r) /\
  (cat_status (cat_res r) = RESOLVED <-> In CategoryResolved (trace r)).

Lemma quiet_fetch_ok (events : list event) :
  Forall quiet events -> Forall fetch_ok events /\ ~ In CategoryResolved events.
Proof.
  intros H. split.
  - apply (Forall_impl _ _ _ H). now intros [].
  - intros Hin. now apply (proj1 (List.Forall_forall _ _) H) in Hin.
Qed.

Lemma count_fetch_snoc (events : list event) (ev : event) :
  count_fetch (events ++ [ev])
  = (count_fetch events + if is_fetch ev then 1 else 0)%nat.
Proof.
  unfold count_fetch. rewrite List.filter_app, length_app. simpl.
  now destruct (is_fetch ev).
Qed.

Lemma pre_emit (c0 : CategoryResolution) (n : nat) (r : Run) (ev : event) :
  pre c0 n r -> is_fetch ev = false -> quiet ev -> pre c0 n (emit ev r).
Proof.
  intros (Hc & Hn & Hq) Hf Hev. split; [exact Hc |]. split.
  - cbn [emit trace]. rewrite count_fetch_snoc, Hf. lia.
  - cbn [emit trace]. apply Forall_app. split; [exact Hq | now constructor].
Qed.

Lemma post_unchanged (wave : Z) (c0 : CategoryResolution) (n : nat) (r : Run) :
  cat_status c0 = IN_PROGRESS -> wave < MAX_WAVES ->
  pre c0 n r -> post wave c0 n r.
Proof.
  intros Hs Hw (Hc & Hn & Hq). destruct (quiet_fetch_ok _ Hq) as [Hok Hno].
  split; [| split; [exact Hn | split; [exact Hok |]]].
  - rewrite Hc. repeat split. right. left. now split.
  - rewrite Hc, Hs. split; [discriminate | contradiction].
Qed.

Lemma post_failed (wave : Z) (c0 : CategoryResolution) (n : nat) (r : Run)
    (reason : string) :
  reason <> "" -> pre c0 n r -> post wave c0 n (set_failed reason r).
Proof.
  intros Hr (Hc & Hn & Hq). destruct (quiet_fetch_ok _ Hq) as [Hok Hno].
  split; [| split; [exact Hn | split; [exact Hok |]]].
  - cbn. rewrite Hc. repeat split. left. now repeat split.
  - cbn. split; [discriminate | contradiction].
Qed.

Lemma post_escalate (wave tr pf fr vr : Z) (c0 : CategoryResolution) (n : nat)
    (r : Run) :
  cat_status c0 = IN_PROGRESS ->
  pre c0 n r -> post wave c0 n (_escalate wave tr pf fr vr r).
Proof.
  intros Hs Hpre. unfold _escalate.
  destruct (Z.leb_spec MAX_WAVES wave) as [Hle | Hlt].
  - apply post_failed; [discriminate | exact Hpre].
  - apply post_unchanged; [exact Hs | exact Hlt |].
    now apply pre_emit.
Qed.

Lemma feed_graph_pre (c0 : CategoryResolution) (n : nat)
    (cands : list Candidate) :
  forall r, pre c0 n r -> pre c0 n (feed_graph cands r).
Proof.
  unfold feed_graph. induction cands as [| cand cands IH]; intros r Hpre;
    [exact Hpre |].
  simpl. apply IH.
  assert (pre c0 n (emit (GraphAddEntity (default "?" (channel_name cand))) r))
    as Hentity by now apply pre_emit.
  destruct (channel_url cand) as [u |]; [| exact Hentity].
  destruct (String.eqb u ""); [exact Hentity | now apply pre_emit].
Qed.

Lemma phase_verify_post (ext : Collaborators) (wave : Z)
    (cands : list Candidate) (c0 : CategoryResolution) (n : nat) (r : Run) :
  cat_status c0 = IN_PROGRESS ->
  pre c0 n r -> post wave c0 n (phase_verify ext wave cands r).
Proof.
  intros Hs Hpre. unfold phase_verify.
  assert (pre c0 n (emit VerifyYoutube (emit Followups r))) as Hpre2
      by (apply pre_emit; [apply pre_emit | |]; easy).
  destruct (verify_youtube ext (followups ext cands)) as [| v vs] eqn:Hv.
  - destruct (Z.leb_spec MAX_WAVES wave) as [Hle | Hlt].
    + apply post_failed; [discriminate | exact Hpre2].
    + now apply post_unchanged.
  - destruct Hpre2 as (Hc & Hn & Hq).
    cbn [emit cat_res trace] in Hc, Hn, Hq.
    destruct (quiet_fetch_ok _ Hq) as [Hok _].
    destruct (Py.max_by DataModels.total_score (v :: vs)) as [best |] eqn:Hmax;
      [| discriminate].
    cbn [default from_option].
    split; [| split; [| split]].
    + cbn. rewrite Hc. repeat split. right. right.
      split; [reflexivity |]. split; [reflexivity |]. exists best.
      split; [reflexivity |].
      split; [eapply CostEngineFacts.max_by_In; eauto |].
      eapply max_by_max; eauto.
    + cbn [emit trace set_resolved]. rewrite !count_fetch_snoc.
      rewrite !count_fetch_snoc in Hn. simpl in *. lia.
    + cbn [emit trace set_resolved]. rewrite !Forall_app.
      rewrite !Forall_app in Hok.
      repeat split; try (now repeat constructor); tauto.
    + cbn. split; [intros _ | reflexivity].
      rewrite !in_app_iff. left. left. right. now left.
Qed.

Lemma phase_assembly_post (ext : Collaborators) (wave : Z)
    (unique to_fetch : list SearchResult) (all_frags : list DataModels.Fragment)
    (c0 : CategoryResolution) (n : nat) (r : Run) :
  cat_status c0 = IN_PROGRESS ->
  pre c0 n r ->
  post wave c0 n (phase_assembly ext wave unique to_fetch all_frags r).
Proof.
  intros Hs Hpre. unfold phase_assembly.
  assert (pre c0 n (emit (Assemble all_frags) r)) as Hpre1
      by now apply pre_emit.
  destruct (bool_decide _); [now apply post_escalate |].
  assert (pre c0 n
            (emit (Checkpoint "candidates_found")
               (feed_graph (assemble_candidates ext all_frags)
                  (emit (Assemble all_frags) r)))) as Hpre2
      by (apply pre_emit; [now apply feed_graph_pre | |]; easy).
  destruct (is_skip _); [apply post_failed; [discriminate | exact Hpre2] |].
  now apply phase_verify_post.
Qed.

(** The fetch loop fetches at most the pages it is given, and none without
    url. *)
Lemma fetch_pages_pre (ext : Collaborators) (c0 : CategoryResolution)
    (pages : list SearchResult) :
  forall j frags cross n r,
    pre c0 n r ->
    exists k,
      (k <= length pages)%nat /\
      pre c0 (n + k) (snd (fetch_pages ext j pages frags cross r)).
Proof.
  induction pages as [| page pages IH]; intros j frags cross n r Hpre.
  - exists 0%nat. rewrite Nat.add_0_r. now split.
  - cbn [fetch_pages].
    assert (forall f c,
              exists k,
                (k <= length (page :: pages))%nat /\
                pre c0 (n + k) (snd (fetch_pages ext (S j) pages f c r)))
      as Hskip.
    { intros f c. destruct (IH (S j) f c n r Hpre) as (k & Hk & Hpost).
      exists k. split; [simpl; lia | exact Hpost]. }
    assert (url page <> "" ->
            forall f c,
              exists k,
                (k <= length (page :: pages))%nat /\
                pre c0 (n + k)
                  (snd (fetch_pages ext (S j) pages f c
                          (emit (FetchPage (url page)) r)))) as Hfetch.
    { intros Hurl f c.
      assert (pre c0 (n + 1) (emit (FetchPage (url page)) r)) as Hpre1.
      { destruct Hpre as (Hc & Hn & Hq). split; [exact Hc |]. split.
        - cbn [emit trace]. rewrite count_fetch_snoc. simpl. lia.
        - cbn [emit trace]. apply Forall_app. split; [exact Hq |].
          now repeat constructor. }
      destruct (IH (S j) f c (n + 1)%nat _ Hpre1) as (k & Hk & Hpost).
      exists (S k). split; [simpl; lia |].
      now replace (n + S k)%nat with (n + 1 + k)%nat by lia. }
    destruct (fetch_and_extract ext j page) as [| | f c].
    + exists 0%nat. rewrite Nat.add_0_r. split; [lia | exact Hpre].
    + destruct (String.eqb_spec (url page) ""); [apply Hskip | now apply Hfetch].
    + destruct (String.eqb_spec (url page) ""); [apply Hskip | now apply Hfetch].
Qed.

Lemma phase_fetch_post (ext : Collaborators) (wave : Z)
    (unique to_fetch : list SearchResult) (c0 : CategoryResolution) (n : nat)
    (r : Run) :
  cat_status c0 = IN_PROGRESS ->
  pre c0 n r ->
  exists k,
    (k <= length to_fetch)%nat /\
    post wave c0 (n + k) (phase_fetch ext wave unique to_fetch r).
Proof.
  intros Hs Hpre. unfold phase_fetch.
  destruct (fetch_pages_pre ext c0 to_fetch 0 [] [] n r Hpre)
    as (k & Hk & Hpre1).
  destruct (fetch_pages ext 0 to_fetch [] [] r) as [[all_frags cross] r1].
  cbn [snd] in Hpre1. exists k. split; [exact Hk |].
  assert (pre c0 (n + k)
            (mkRun (cat_res r1) (cross_city_fragments r1 ++ cross) (trace r1)))
    as Hpre2 by exact Hpre1.
  destruct (bool_decide _);
    [now apply post_escalate | now apply phase_assembly_post].
Qed.

Lemma wave_post (loc : Place) (ext : Collaborators) (wave : Z)
    (c : CategoryResolution) :
  exists k,
    (k <= MAX_PAGES_TO_FETCH)%nat /\
    post wave (cat_res (begin_wave wave c)) k
      (_process_category_wave loc ext wave c).
Proof.
  set (c0 := cat_res (begin_wave wave c)).
  assert (cat_status c0 = IN_PROGRESS) as Hs by reflexivity.
  assert (pre c0 0 (emit GenerateQueries (begin_wave wave c))) as Hpre0.
  { split; [reflexivity |]. split; [reflexivity |]. now repeat constructor. }
  unfold _process_category_wave.
  destruct (bool_decide (generate_queries ext = [])).
  { exists 0%nat. split; [lia |]. now apply post_failed. }
  assert (pre c0 0
            (emit (Checkpoint "queries_ready")
               (emit GenerateQueries (begin_wave wave c)))) as Hpre1
      by now apply pre_emit.
  destruct (is_skip (cp_queries ext)).
  { exists 0%nat. split; [lia |]. now apply post_failed. }
  match goal with
  | |- context [phase_search loc ext wave ?qs _] => generalize qs
  end.
  intros queries. unfold phase_search.
  assert (pre c0 0
            (emit (Search queries)
               (emit (Checkpoint "queries_ready")
                  (emit GenerateQueries (begin_wave wave c))))) as Hpre2
      by now apply pre_emit.
  destruct (bool_decide (dedup [] (search ext queries) = [])).
  { exists 0%nat. split; [lia |]. apply post_escalate; [exact Hs |].
    apply pre_emit; [apply pre_emit | |]; easy. }
  unfold phase_triage.
  match goal with
  | |- context [emit (Checkpoint "search_done") ?r0] =>
      assert (pre c0 0 (emit (Checkpoint "search_done") r0)) as Hpre3
        by (apply pre_emit; [apply pre_emit | |]; easy)
  end.
  destruct (is_skip (cp_search ext)).
  { exists 0%nat. split; [lia |]. apply post_failed; [discriminate |].
    now apply pre_emit. }
  match goal with
  | |- context [emit SaveSearchCsv ?r0] =>
      assert (pre c0 0 (emit SaveSearchCsv r0)) as Hpre4
        by (apply pre_emit; [apply pre_emit | |]; easy)
  end.
  destruct (bool_decide _).
  { exists 0%nat. split; [lia |]. now apply post_escalate. }
  match goal with
  | |- context [phase_fetch ext wave ?u ?pages ?r0] =>
      destruct (phase_fetch_post ext wave u pages c0 0 r0 Hs Hpre4)
        as (k & Hk & Hpost)
  end.
  exists k. split; [| exact Hpost].
  rewrite length_take in Hk. lia.
Qed.


(** A category wave fetches at most [MAX_PAGES_TO_FETCH] (25) pages, however
    many results triage returns, and never a result without url. *)
Theorem wave_fetch_bound (loc : Place) (ext : Collaborators) (wave : Z)
    (c : CategoryResolution) :
  (count_fetch (trace (_process_category_wave loc ext wave c)) <= 25)%nat /\
  forall u,
    In (FetchPage u) (trace (_process_category_wave loc ext wave c)) -> u <> "".
Proof.
  destruct (wave_post loc ext wave c) as (k & Hk & _ & Hcount & Hok & _).
  split; [rewrite Hcount; exact Hk |].
  intros u Hin. exact (proj1 (List.Forall_forall _ _) Hok _ Hin).
Qed.

Lemma dedup_seen (results : list SearchResult) :
  forall seen,
    NoDup (map url (dedup seen results)) /\
    (forall u, In u (map url (dedup seen results)) <->
               In u (map url results) /\ ~ In u seen) /\
    sublist (dedup seen results) results /\
    (forall r, In r (dedup seen results) ->
               List.find (fun x => String.eqb (url x) (url r)) results = Some r).
Proof.
  induction results as [| r results IH]; intros seen.
  - simpl. split; [constructor |]. split; [tauto |].
    split; [constructor | intros r []].
  - cbn [dedup]. destruct (bool_decide_reflect (url r ∈ seen)) as [Hin | Hnot].
    + rewrite list_elem_of_In in Hin.
      destruct (IH seen) as (Hnd & Hurls & Hsub & Hfirst).
      split; [exact Hnd |]. split; [| split].
      * intros u. rewrite Hurls. simpl. split; [tauto |].
        intros [[<- | Hu] Hns]; [contradiction | tauto].
      * now apply sublist_cons.
      * intros x Hx. simpl.
        destruct (String.eqb_spec (url r) (url x)) as [Heq | _];
          [| now apply Hfirst].
        exfalso. assert (In (url x) (map url (dedup seen results))) as Hux
            by now apply in_map.
        apply Hurls in Hux as [_ Hns]. apply Hns. now rewrite <- Heq.
    + rewrite list_elem_of_In in Hnot.
      destruct (IH (url r :: seen)) as (Hnd & Hurls & Hsub & Hfirst).
      split; [| split; [| split]].
      * simpl. apply NoDup_cons. split; [| exact Hnd].
        rewrite list_elem_of_In, Hurls. simpl. tauto.
      * intros u. simpl. rewrite Hurls. simpl. split.
        -- intros [<- | [Hu Hns]]; [tauto |]. split; [tauto |]. tauto.
        -- intros [[<- | Hu] Hns]; [tauto |].
           destruct (String.eqb_spec (url r) u) as [-> | Hne]; [tauto |].
           right. split; [exact Hu |]. intros [Heq | Hs]; [congruence | tauto].
      * now apply sublist_skip.
      * intros x [<- | Hx]; simpl; [now rewrite String.eqb_refl |].
        destruct (String.eqb_spec (url r) (url x)) as [Heq | _];
          [| now apply Hfirst].
        exfalso. assert (In (url x) (map url (dedup (url r :: seen) results)))
          as Hux by now apply in_map.
        apply Hurls in Hux as [_ Hns]. apply Hns. now left.
Qed.

(** The deduplication of search results keeps, in their order, exactly the
    first result of every url: no url is kept twice, none is lost, and each
    kept result is the first one of the input with its url. *)
Theorem dedup_keeps_first_of_each_url (results : list SearchResult) :
  NoDup (map url (dedup [] results)) /\
  (forall u, In u (map url (dedup [] results)) <-> In u (map url results)) /\
  sublist (dedup [] results) results /\
  (forall r, In r (dedup [] results) ->
             List.find (fun x => String.eqb (url x) (url r)) results = Some r).
Proof.
  destruct (dedup_seen results []) as (Hnd & Hurls & Hsub & Hfirst).
  split; [exact Hnd |]. split; [| split; [exact Hsub | exact Hfirst]].
  intros u. rewrite Hurls. simpl. tauto.
Qed.

End PipelineWaveFacts.

(** ** pipeline/pipeline.py: the city loop and the state loop

    [self.running] can be cleared from outside while the loops run: its
    value at the [n]-th read made by the loops is [running n].  What the
    collaborators answer during the wave on a city, category and wave
    number is [ext city cat_key wave]. *)

Module PipelineCity.
Import PyDict Pipeline.

Definition CATEGORIES : list string :=
  ["cinema"; "gaming"; "culture_entertainment"].

Definition CATEGORY_LABELS : dict string :=
  [("cinema", "Cinema / Movie Reviews");
   ("gaming", "Gaming / Video Games");
   ("culture_entertainment", "Culture & Entertainment")].

Record CityResolution := mkCityResolution {
  cr_city : string;
  cr_state : string;
  cr_status : status;
  categories : dict CategoryResolution;
  collected_fragments : list DataModels.Fragment;
  cr_cross_city_fragments : list CrossMention
}.

Record StateResolution := mkStateResolution {
  sr_state : string;
  sr_status : status;
  cities : dict CityResolution
}.

Definition is_RESOLVED (s : status) : bool :=
  match s with RESOLVED => true | _ => false end.

(** [status in (RESOLVED, FAILED)] *)
Definition terminal (s : status) : bool :=
  match s with RESOLVED | FAILED => true | _ => false end.

Definition is_resolved (c : CityResolution) : bool :=
  forallb (fun v => is_RESOLVED (cat_status v)) (dict_values (categories c)).

Definition is_fully_attempted (c : CityResolution) : bool :=
  forallb (fun v => terminal (cat_status v)) (dict_values (categories c)).

(** [StateResolution.is_resolved] *)
Definition state_is_resolved (sr : StateResolution) : bool :=
  forallb is_fully_attempted (dict_values (cities sr)).

Section Loops.

Variable running : nat -> bool.
Variable ext : string -> string -> Z -> Collaborators.

(** What the loops have done: the reads of the run flag, and the waves run,
    each with its city, category, number and trace. *)
Record World := mkWorld {
  reads : nat;
  waves_run : list (string * string * Z * list event)
}.

Definition read_running (w : World) : bool * World :=
  (running (reads w), mkWorld (S (reads w)) (waves_run w)).

(** One call of [_process_category_wave] from the city loop.  [None] is the
    [KeyError] of a category key without a label. *)
Definition process_one (state_name : string) (wave : Z) (cat_key : string)
    (c : CityResolution) (w : World) : option (CityResolution * World) :=
  match dict_get cat_key CATEGORY_LABELS, dict_get cat_key (categories c) with
  | Some label, Some cat =>
      let run :=
        _process_category_wave (mkPlace (cr_city c) state_name cat_key label)
          (ext (cr_city c) cat_key wave) wave cat in
      Some
        (mkCityResolution (cr_city c) (cr_state c) (cr_status c)
           (dict_set cat_key (cat_res run) (categories c))
           (collected_fragments c)
           (cr_cross_city_fragments c ++ cross_city_fragments run),
         mkWorld (reads w)
           (waves_run w ++ [(cr_city c, cat_key, wave, trace run)]))
  | _, _ => None
  end.

(** [for cat_key in unresolved] *)
Fixpoint category_loop (state_name : string) (wave : Z) (keys : list string)
    (c : CityResolution) (w : World) : option (CityResolution * World) :=
  match keys with
  | [] => Some (c, w)
  | cat_key :: rest =>
      let '(flag, w) := read_running w in
      if flag then
        match process_one state_name wave cat_key c w with
        | Some (c, w) => category_loop state_name wave rest c w
        | None => None
        end
      else Some (c, w)
  end.

Definition unresolved (c : CityResolution) : list string :=
  map fst
    (List.filter (fun kv => negb (terminal (cat_status (snd kv))))
       (categories c)).

(** [for wave in range(1, MAX_WAVES + 1)] *)
Fixpoint wave_loop (state_name : string) (waves : list Z)
    (c : CityResolution) (w : World) : option (CityResolution * World) :=
  match waves with
  | [] => Some (c, w)
  | wave :: rest =>
      let '(flag, w) := read_running w in
      if flag then
        match unresolved c with
        | [] => Some (c, w)
        | keys =>
            match category_loop state_name wave keys c w with
            | Some (c, w) =>
                if is_resolved c then Some (c, w)
                else wave_loop state_name rest c w
            | None => None
            end
        end
      else Some (c, w)
  end.

Definition wave_numbers : list Z :=
  map Z.of_nat (seq 1 (Z.to_nat MAX_WAVES)).

Definition exhaust_category (v : CategoryResolution) : CategoryResolution :=
  if terminal (cat_status v) then v
  else
    mkCategoryResolution (category v) FAILED (waves_attempted v) (candidates v)
      (best_candidate v) ("Exhausted " +:+ pretty MAX_WAVES +:+ " waves")
      (search_log v).

Definition with_status (s : status) (cats : dict CategoryResolution)
    (c : CityResolution) : CityResolution :=
  mkCityResolution (cr_city c) (cr_state c) s cats (collected_fragments c)
    (cr_cross_city_fragments c).

Definition _process_city (c : CityResolution) (state_name : string) (w : World)
    : option (CityResolution * World) :=
  let c := with_status IN_PROGRESS (categories c) c in
  match wave_loop state_name wave_numbers c w with
  | Some (c, w) =>
      let cats :=
        map (fun kv => (fst kv, exhaust_category (snd kv))) (categories c) in
      let c := with_status (cr_status c) cats c in
      Some (with_status (if is_resolved c then RESOLVED else PARTIAL) cats c, w)
  | None => None
  end.

(** The city record [process_state] creates: every category pending. *)
Definition new_city (city state_name : string) : CityResolution :=
  mkCityResolution city state_name PENDING
    (fold_left
       (fun cats cat =>
          dict_set cat (mkCategoryResolution cat PENDING 0 [] None "" []) cats)
       CATEGORIES [])
    [] [].

(** [for city_name in cities] of [process_state] *)
Fixpoint city_loop (state_name : string) (names : list string)
    (sr : StateResolution) (w : World) : option (StateResolution * World) :=
  match names with
  | [] => Some (sr, w)
  | city_name :: rest =>
      let '(flag, w) := read_running w in
      if flag then
        match dict_get city_name (cities sr) with
        | Some c =>
            match _process_city c state_name w with
            | Some (c, w) =>
                city_loop state_name rest
                  (mkStateResolution (sr_state sr) (sr_status sr)
                     (dict_set city_name c (cities sr)))
                  w
            | None => None
            end
        | None => None
        end
      else Some (sr, w)
  end.

Definition process_state (state_name : string) (names : list string) (w : World)
    : option (StateResolution * World) :=
  let sr :=
    mkStateResolution state_name IN_PROGRESS
      (fold_left (fun d c => dict_set c (new_city c state_name) d) names []) in
  match city_loop state_name names sr w with
  | Some (sr, w) =>
      Some
        (mkStateResolution (sr_state sr)
           (if state_is_resolved sr then RESOLVED else PARTIAL) (cities sr),
         w)
  | None => None
  end.

End Loops.

End PipelineCity.

(** *** Properties of the city loop and the state loop *)

Module PipelineCityFacts.
Import PyDict PyDictFacts Pipeline PipelineFacts PipelineWaveFacts PipelineCity.
Import CostEngineReportsFacts.

(** How the city loop may change a category record: never its name, not at
    all once it is resolved or failed, and its wave counter only to a wave
    number. *)
Definition rel (old new : CategoryResolution) : Prop :=
  category new = category old /\
  (terminal (cat_status old) = true -> new = old) /\
  (waves_attempted new = waves_attempted old \/
   1 <= waves_attempted new <= MAX_WAVES).

Definition evolved (d0 d : dict CategoryResolution) : Prop :=
  Forall2 (fun kv0 kv => fst kv = fst kv0 /\ rel (snd kv0) (snd kv)) d0 d.

Lemma rel_refl (v : CategoryResolution) : rel v v.
Proof. repeat split; auto. Qed.

Lemma rel_trans (a b c : CategoryResolution) : rel a b -> rel b c -> rel a c.
Proof.
  intros (Hc1 & Ht1 & Hw1) (Hc2 & Ht2 & Hw2). split; [congruence |]. split.
  - intros Ha. specialize (Ht1 Ha). subst b. auto.
  - destruct Hw2 as [Hw2 | Hw2]; [rewrite Hw2; exact Hw1 | now right].
Qed.

Lemma evolved_refl (d : dict CategoryResolution) : evolved d d.
Proof.
  induction d as [| kv d IH]; constructor; [| exact IH].
  split; [reflexivity | apply rel_refl].
Qed.

Lemma evolved_trans (a b c : dict CategoryResolution) :
  evolved a b -> evolved b c -> evolved a c.
Proof.
  intros Hab. revert c. induction Hab as [| x y a b [Hk Hr] Hab IH];
    intros c Hbc; inversion Hbc as [| ? z ? c' [Hk' Hr'] Hbc']; subst;
    constructor.
  - split; [congruence | now apply rel_trans with (snd y)].
  - now apply IH.
Qed.

Lemma evolved_keys (a b : dict CategoryResolution) :
  evolved a b -> map fst b = map fst a.
Proof.
  induction 1 as [| x y a b [Hk _] _ IH]; simpl; [reflexivity |].
  now rewrite Hk, IH.
Qed.

Lemma evolved_set (k : string) (v v' : CategoryResolution)
    (d : dict CategoryResolution) :
  dict_get k d = Some v -> rel v v' -> evolved d (dict_set k v' d).
Proof.
  induction d as [| [k0 v0] d IH]; simpl; [discriminate |].
  destruct (String.eqb_spec k k0) as [-> | Hne].
  - intros [= ->] Hr. constructor; [now split | apply evolved_refl].
  - intros Hk Hr. constructor; [split; [reflexivity | apply rel_refl] |].
    now apply IH.
Qed.

Lemma evolved_lookup (a b : dict CategoryResolution) (k : string)
    (old : CategoryResolution) :
  evolved a b -> dict_get k a = Some old ->
  exists new, dict_get k b = Some new /\ rel old new.
Proof.
  induction 1 as [| [k0 v0] [k1 v1] a b [Hk Hr] _ IH]; simpl;
    [discriminate |].
  simpl in Hk, Hr. subst k1.
  destruct (String.eqb k k0); [intros [= <-]; eauto | exact IH].
Qed.

Lemma dict_get_In {V : Type} (k : string) (v : V) (d : dict V) :
  NoDup (map fst d) -> In (k, v) d -> dict_get k d = Some v.
Proof.
  induction d as [| [k0 v0] d IH]; simpl; [intros _ [] |].
  intros Hnd Hin. apply NoDup_cons in Hnd as [Hk0 Hnd].
  rewrite list_elem_of_In in Hk0.
  destruct Hin as [[= -> ->] | Hin]; [now rewrite String.eqb_refl |].
  destruct (String.eqb_spec k k0) as [-> | _]; [| now apply IH].
  exfalso. apply Hk0. apply in_map_iff. now exists (k0, v).
Qed.

Definition labelled (k : string) : Prop := dict_get k CATEGORY_LABELS <> None.

Section LoopFacts.

Variable running : nat -> bool.
Variable ext : string -> string -> Z -> Collaborators.

Lemma process_one_evolves (state_name : string) (wave : Z) (k : string)
    (c : CityResolution) (w : World) (cat : CategoryResolution) :
  1 <= wave <= MAX_WAVES ->
  labelled k ->
  dict_get k (categories c) = Some cat ->
  terminal (cat_status cat) = false ->
  exists c' w',
    process_one ext state_name wave k c w = Some (c', w') /\
    cr_city c' = cr_city c /\ cr_state c' = cr_state c /\
    evolved (categories c) (categories c') /\
    forall k', k' <> k ->
               dict_get k' (categories c') = dict_get k' (categories c).
Proof.
  intros Hw Hl Hk Hterm. unfold process_one. unfold labelled in Hl.
  destruct (dict_get k CATEGORY_LABELS) as [label |]; [| contradiction].
  rewrite Hk. eexists. eexists. split; [reflexivity |]. cbn.
  split; [reflexivity |]. split; [reflexivity |]. split.
  - apply evolved_set with cat; [exact Hk |].
    destruct (wave_post (mkPlace (cr_city c) state_name k label)
                (ext (cr_city c) k wave) wave cat)
      as (n & _ & (Hcat & Hwaves & _) & _).
    split; [exact Hcat |]. split; [rewrite Hterm; discriminate |].
    right. cbn in Hwaves. rewrite Hwaves. exact Hw.
  - intros k' Hne. now apply dict_get_set_ne.
Qed.

Lemma category_loop_evolves (state_name : string) (wave : Z)
    (keys : list string) :
  1 <= wave <= MAX_WAVES ->
  NoDup keys ->
  forall (c : CityResolution) (w : World),
    Forall (fun k =>
              labelled k /\
              exists cat,
                dict_get k (categories c) = Some cat /\
                terminal (cat_status cat) = false) keys ->
    exists c' w',
      category_loop running ext state_name wave keys c w = Some (c', w') /\
      cr_city c' = cr_city c /\ cr_state c' = cr_state c /\
      evolved (categories c) (categories c').
Proof.
  intros Hw. induction 1 as [| k keys Hk Hnd IH]; intros c w Hall.
  - exists c, w. repeat split. apply evolved_refl.
  - rewrite list_elem_of_In in Hk.
    inversion Hall as [| ? ? [Hl (cat & Hget & Hterm)] Hrest]; subst.
    cbn [category_loop read_running]. destruct (running (reads w)).
    + destruct (process_one_evolves state_name wave k c
                  (mkWorld (S (reads w)) (waves_run w)) cat Hw Hl Hget Hterm)
        as (c1 & w1 & -> & Hcity & Hstate & Hev & Hother).
      destruct (IH c1 w1) as (c2 & w2 & Hloop & Hcity2 & Hstate2 & Hev2).
      { apply List.Forall_forall. intros k' Hk'.
        destruct (proj1 (List.Forall_forall _ _) Hrest k' Hk')
          as (Hl' & cat' & Hget' & Hterm').
        split; [exact Hl' |]. exists cat'. split; [| exact Hterm'].
        rewrite Hother; [exact Hget' |]. intros ->. contradiction. }
      exists c2, w2. split; [exact Hloop |].
      split; [congruence |]. split; [congruence |].
      now apply evolved_trans with (categories c1).
    + eexists. eexists. split; [reflexivity |]. repeat split.
      apply evolved_refl.
Qed.

Definition keyed_city (c : CityResolution) : Prop :=
  NoDup (map fst (categories c)) /\ Forall labelled (map fst (categories c)).

Lemma NoDup_map_filter {A B : Type} (f : A -> B) (p : A -> bool) (l : list A) :
  NoDup (map f l) -> NoDup (map f (List.filter p l)).
Proof.
  induction l as [| x l IH]; simpl; [auto |].
  intros Hnd. apply NoDup_cons in Hnd as [Hx Hnd].
  destruct (p x); [| now apply IH]. simpl.
  apply NoDup_cons. split; [| now apply IH].
  rewrite list_elem_of_In in *. intros Hin. apply Hx.
  apply in_map_iff in Hin as (y & Hy & Hin).
  apply filter_In in Hin as [Hin _]. rewrite <- Hy. now apply in_map.
Qed.

Lemma unresolved_spec (c : CityResolution) :
  keyed_city c ->
  NoDup (unresolved c) /\
  Forall (fun k =>
            labelled k /\
            exists cat,
              dict_get k (categories c) = Some cat /\
              terminal (cat_status cat) = false) (unresolved c).
Proof.
  intros [Hnd Hl]. unfold unresolved. split; [now apply NoDup_map_filter |].
  apply List.Forall_forall. intros k Hk.
  apply in_map_iff in Hk as ([k0 v] & <- & Hin).
  apply filter_In in Hin as [Hin Hterm]. simpl in *. split.
  - apply (proj1 (List.Forall_forall _ _) Hl). apply in_map_iff.
    now exists (k0, v).
  - exists v. split; [now apply dict_get_In |]. now apply negb_true_iff.
Qed.

Lemma keyed_city_evolved (c c' : CityResolution) :
  keyed_city c -> evolved (categories c) (categories c') -> keyed_city c'.
Proof.
  intros [Hnd Hl] Hev. unfold keyed_city.
  now rewrite (evolved_keys _ _ Hev).
Qed.

Lemma wave_loop_evolves (state_name : string) (waves : list Z) :
  Forall (fun wave => 1 <= wave <= MAX_WAVES) waves ->
  forall (c : CityResolution) (w : World),
    keyed_city c ->
    exists c' w',
      wave_loop running ext state_name waves c w = Some (c', w') /\
      cr_city c' = cr_city c /\ cr_state c' = cr_state c /\
      evolved (categories c) (categories c').
Proof.
  induction 1 as [| wave waves Hw Hwaves IH]; intros c w Hkeyed.
  - exists c, w. repeat split. apply evolved_refl.
  - cbn [wave_loop read_running]. destruct (running (reads w));
      [| eexists; eexists; split; [reflexivity |]; repeat split;
         apply evolved_refl].
    destruct (unresolved_spec c Hkeyed) as [Hnd Hall].
    destruct (unresolved c) as [| k keys] eqn:Hun;
      [eexists; eexists; split; [reflexivity |]; repeat split;
       apply evolved_refl |].
    destruct (category_loop_evolves state_name wave (k :: keys) Hw Hnd c
                (mkWorld (S (reads w)) (waves_run w)) Hall)
      as (c1 & w1 & -> & Hcity & Hstate & Hev).
    destruct (is_resolved c1);
      [exists c1, w1; split; [reflexivity |]; now repeat split |].
    destruct (IH c1 w1 (keyed_city_evolved c c1 Hkeyed Hev))
      as (c2 & w2 & Hloop & Hcity2 & Hstate2 & Hev2).
    exists c2, w2. split; [exact Hloop |].
    split; [congruence |]. split; [congruence |].
    now apply evolved_trans with (categories c1).
Qed.

Lemma wave_numbers_range : Forall (fun wave => 1 <= wave <= MAX_WAVES) wave_numbers.
Proof. repeat constructor; discriminate. Qed.

Lemma exhaust_all (cats : dict CategoryResolution) :
  evolved cats (map (fun kv => (fst kv, exhaust_category (snd kv))) cats) /\
  Forall (fun v => terminal (cat_status v) = true)
    (dict_values (map (fun kv => (fst kv, exhaust_category (snd kv))) cats)).
Proof.
  unfold dict_values.
  induction cats as [| [k v] cats [IHev IHall]]; [split; constructor |].
  split; cbn [map fst snd]; constructor; try assumption.
  - split; [reflexivity |]. cbn [snd]. unfold exhaust_category.
    destruct (terminal (cat_status v)) eqn:Hterm; [apply rel_refl |].
    split; [reflexivity |]. split; [intros Habs; congruence | now left].
  - unfold exhaust_category.
    destruct (terminal (cat_status v)) eqn:Hterm; [exact Hterm | reflexivity].
Qed.

(** What [_process_city] does to a city whose category keys are distinct and
    labelled. *)
Lemma process_city_spec (c : CityResolution) (state_name : string) (w : World) :
  keyed_city c ->
  exists c' w',
    _process_city running ext c state_name w = Some (c', w') /\
    cr_city c' = cr_city c /\ cr_state c' = cr_state c /\
    evolved (categories c) (categories c') /\
    Forall (fun v => terminal (cat_status v) = true)
      (dict_values (categories c')) /\
    cr_status c' = (if is_resolved c' then RESOLVED else PARTIAL).
Proof.
  intros Hkeyed. unfold _process_city.
  destruct (wave_loop_evolves state_name wave_numbers wave_numbers_range
              (with_status IN_PROGRESS (categories c) c) w Hkeyed)
    as (c1 & w1 & -> & Hcity & Hstate & Hev).
  destruct (exhaust_all (categories c1)) as [Hev2 Hterm].
  eexists. eexists. split; [reflexivity |]. cbn.
  split; [exact Hcity |]. split; [exact Hstate |].
  split; [now apply evolved_trans with (categories c1) |].
  split; [exact Hterm | reflexivity].
Qed.

(** Whatever the collaborators answer and whenever the run is stopped,
    [_process_city] returns with every category of the city resolved or
    failed, none left pending or in progress; the city is marked resolved
    when all its categories are resolved and partial otherwise.  The
    categories keep their keys and names; a category that was already
    resolved or failed is left exactly as it was, and the wave counter of
    the others is either untouched or a wave number from 1 to
    [MAX_WAVES]. *)
Theorem process_city_settles (c : CityResolution) (state_name : string)
    (w : World) :
  NoDup (map fst (categories c)) ->
  Forall (fun k => In k CATEGORIES) (map fst (categories c)) ->
  exists c' w',
    _process_city running ext c state_name w = Some (c', w') /\
    map fst (categories c') = map fst (categories c) /\
    Forall (fun v => cat_status v = RESOLVED \/ cat_status v = FAILED)
      (dict_values (categories c')) /\
    cr_status c'
    = (if forallb (fun v => is_RESOLVED (cat_status v))
            (dict_values (categories c'))
       then RESOLVED else PARTIAL) /\
    forall k old,
      dict_get k (categories c) = Some old ->
      exists new,
        dict_get k (categories c') = Some new /\
        category new = category old /\
        (cat_status old = RESOLVED \/ cat_status old = FAILED -> new = old) /\
        (waves_attempted new = waves_attempted old \/
         1 <= waves_attempted new <= MAX_WAVES).
Proof.
  intros Hnd Hcats.
  assert (keyed_city c) as Hkeyed.
  { split; [exact Hnd |]. apply (Forall_impl _ _ _ Hcats). intros k Hk.
    unfold labelled. simpl in Hk.
    destruct Hk as [<- | [<- | [<- | []]]]; discriminate. }
  destruct (process_city_spec c state_name w Hkeyed)
    as (c' & w' & Hcall & _ & _ & Hev & Hterm & Hstatus).
  exists c', w'. split; [exact Hcall |].
  split; [now apply evolved_keys |]. split; [| split; [exact Hstatus |]].
  - apply (Forall_impl _ _ _ Hterm). intros v Hv.
    destruct (cat_status v); try discriminate; auto.
  - intros k old Hk.
    destruct (evolved_lookup _ _ k old Hev Hk) as (new & Hnew & Hc & Ht & Hw).
    exists new. split; [exact Hnew |]. split; [exact Hc |].
    split; [| exact Hw].
    intros [Hs | Hs]; apply Ht; now rewrite Hs.
Qed.

Lemma dict_set_NoDup {V : Type} (k : string) (v : V) (d : dict V) :
  NoDup (map fst d) -> NoDup (map fst (dict_set k v d)).
Proof.
  intros Hnd. destruct (dict_get k d) as [v0 |] eqn:Hk.
  - now rewrite (dict_set_present_keys k v v0 d Hk).
  - rewrite (dict_set_fresh k v d Hk), map_app. simpl.
    apply NoDup_app. split; [exact Hnd |]. split; [| apply NoDup_singleton].
    intros x Hx [-> | []]%list_elem_of_In. apply list_elem_of_In in Hx.
    now apply dict_get_None_iff in Hk.
Qed.

Lemma dict_set_keys_In {V : Type} (k k' : string) (v : V) (d : dict V) :
  In k' (map fst (dict_set k v d)) <-> k' = k \/ In k' (map fst d).
Proof.
  induction d as [| [k0 v0] d IH]; simpl; [intuition congruence |].
  destruct (String.eqb_spec k k0) as [-> | Hne]; simpl;
    [intuition congruence |].
  rewrite IH. tauto.
Qed.

Lemma dict_get_Some_In {V : Type} (k : string) (v : V) (d : dict V) :
  dict_get k d = Some v -> In (k, v) d.
Proof.
  induction d as [| [k0 v0] d IH]; simpl; [discriminate |].
  destruct (String.eqb_spec k k0) as [-> | _]; [intros [= ->]; now left |].
  intros H. right. now apply IH.
Qed.

Lemma dict_get_key {V : Type} (k : string) (d : dict V) :
  In k (map fst d) -> exists v, dict_get k d = Some v.
Proof.
  intros Hin. destruct (dict_get k d) as [v |] eqn:Hk; [eauto |].
  now apply dict_get_None_iff in Hk.
Qed.

Lemma dict_set_values {V : Type} (P : V -> Prop) (k : string) (v : V)
    (d : dict V) :
  Forall P (dict_values d) -> P v -> Forall P (dict_values (dict_set k v d)).
Proof.
  unfold dict_values. intros Hd Hv.
  induction d as [| [k0 v0] d IH]; simpl in *; [now repeat constructor |].
  inversion Hd; subst.
  destruct (String.eqb k k0); simpl; constructor; auto.
Qed.

Lemma new_city_keyed (city state_name : string) :
  keyed_city (new_city city state_name).
Proof.
  split.
  - apply (bool_decide_unpack _). vm_compute. exact I.
  - repeat constructor; discriminate.
Qed.

(** A city that [process_state] is done with. *)
Definition done_city (c : CityResolution) : Prop :=
  is_fully_attempted c = true /\
  (cr_status c = RESOLVED \/ cr_status c = PARTIAL).

Lemma process_city_done (c : CityResolution) (state_name : string) (w : World) :
  keyed_city c ->
  exists c' w',
    _process_city running ext c state_name w = Some (c', w') /\
    keyed_city c' /\ done_city c'.
Proof.
  intros Hkeyed.
  destruct (process_city_spec c state_name w Hkeyed)
    as (c' & w' & Hcall & _ & _ & Hev & Hterm & Hstatus).
  exists c', w'. split; [exact Hcall |].
  split; [now apply keyed_city_evolved with c |]. split.
  - unfold is_fully_attempted. apply forallb_forall. intros v Hv.
    exact (proj1 (List.Forall_forall _ _) Hterm v Hv).
  - rewrite Hstatus. destruct (is_resolved c'); auto.
Qed.

Lemma city_loop_spec (state_name : string) (names : list string) :
  forall (sr : StateResolution) (w : World),
    Forall keyed_city (dict_values (cities sr)) ->
    Forall (fun n => In n (map fst (cities sr))) names ->
    exists sr' w',
      city_loop running ext state_name names sr w = Some (sr', w') /\
      sr_state sr' = sr_state sr /\
      (forall k, In k (map fst (cities sr')) <-> In k (map fst (cities sr))) /\
      (NoDup (map fst (cities sr)) -> NoDup (map fst (cities sr'))) /\
      ((forall n, running n = true) ->
       forall k v,
         dict_get k (cities sr') = Some v ->
         done_city v \/ ~ In k names /\ dict_get k (cities sr) = Some v).
Proof.
  induction names as [| n names IH]; intros sr w Hkeyed Hnames.
  - exists sr, w. split; [reflexivity |]. split; [reflexivity |].
    split; [tauto |]. split; [auto |]. intros _ k v Hk. right. now split.
  - inversion Hnames as [| ? ? Hn Hrest]; subst.
    cbn [city_loop read_running].
    destruct (running (reads w)) eqn:Hflag.
    + destruct (dict_get_key n (cities sr) Hn) as (c & Hc). rewrite Hc.
      assert (keyed_city c) as Hkc.
      { apply (proj1 (List.Forall_forall _ _) Hkeyed).
        unfold dict_values. apply in_map_iff. exists (n, c).
        split; [reflexivity | now apply dict_get_Some_In]. }
      destruct (process_city_done c state_name
                  (mkWorld (S (reads w)) (waves_run w)) Hkc)
        as (c' & w1 & -> & Hkc' & Hdone).
      destruct (IH (mkStateResolution (sr_state sr) (sr_status sr)
                      (dict_set n c' (cities sr))) w1)
        as (sr' & w' & Hloop & Hstate & Hkeys & Hnd & Hall).
      { cbn. now apply dict_set_values. }
      { cbn. apply (Forall_impl _ _ _ Hrest). intros k Hk.
        apply dict_set_keys_In. now right. }
      exists sr', w'. split; [exact Hloop |]. split; [exact Hstate |].
      cbn in Hkeys, Hnd, Hall. split; [| split].
      * intros k. rewrite Hkeys, dict_set_keys_In.
        split; [intros [-> | Hk]; auto | auto].
      * intros Hnd0. now apply Hnd, dict_set_NoDup.
      * intros Hrun k v Hk. destruct (Hall Hrun k v Hk) as [Hd | [Hnot Hget]];
          [now left |].
        destruct (String.eqb_spec k n) as [-> | Hne].
        -- rewrite dict_get_set_eq in Hget. injection Hget as <-. now left.
        -- rewrite dict_get_set_ne in Hget by congruence. right.
           split; [| exact Hget]. intros [Heq | Hin]; [congruence | tauto].
    + eexists. eexists. split; [reflexivity |]. split; [reflexivity |].
      split; [tauto |]. split; [auto |].
      intros Hrun. rewrite Hrun in Hflag. discriminate.
Qed.

(** The cities [process_state] starts from. *)
Lemma initial_cities (state_name : string) (names : list string) :
  forall acc : dict CityResolution,
    NoDup (map fst acc) ->
    Forall (fun c => keyed_city c /\ is_fully_attempted c = false)
      (dict_values acc) ->
    NoDup (map fst
             (fold_left (fun d c => dict_set c (new_city c state_name) d)
                names acc)) /\
    Forall (fun c => keyed_city c /\ is_fully_attempted c = false)
      (dict_values
         (fold_left (fun d c => dict_set c (new_city c state_name) d)
            names acc)) /\
    forall k,
      In k (map fst
              (fold_left (fun d c => dict_set c (new_city c state_name) d)
                 names acc)) <->
      In k names \/ In k (map fst acc).
Proof.
  induction names as [| n names IH]; intros acc Hnd Hall.
  - simpl. split; [exact Hnd |]. split; [exact Hall | tauto].
  - cbn [fold_left].
    destruct (IH (dict_set n (new_city n state_name) acc)) as (H1 & H2 & H3).
    + now apply dict_set_NoDup.
    + apply dict_set_values; [exact Hall |].
      split; [apply new_city_keyed | reflexivity].
    + split; [exact H1 |]. split; [exact H2 |].
      intros k. rewrite H3, dict_set_keys_In. simpl.
      split; [intros [Hk | [-> | Hk]]; auto | intros [[-> | Hk] | Hk]; auto].
Qed.

(** [process_state] always returns, with the state marked resolved or
    partial and one city record per city name.  If the run is never
    stopped the state is marked resolved, whatever the searches found:
    every city is then marked resolved or partial and each of its
    categories is resolved or failed.  If the run is already stopped when
    the loop over a non-empty list of cities starts, the state is marked
    partial. *)
Theorem process_state_status (state_name : string) (names : list string)
    (w : World) :
  exists sr w',
    process_state running ext state_name names w = Some (sr, w') /\
    (sr_status sr = RESOLVED \/ sr_status sr = PARTIAL) /\
    (forall k, In k (map fst (cities sr)) <-> In k names) /\
    ((forall n, running n = true) ->
     sr_status sr = RESOLVED /\
     Forall
       (fun c =>
          (cr_status c = RESOLVED \/ cr_status c = PARTIAL) /\
          Forall (fun v => cat_status v = RESOLVED \/ cat_status v = FAILED)
            (dict_values (categories c)))
       (dict_values (cities sr))) /\
    (names <> [] -> running (reads w) = false -> sr_status sr = PARTIAL).
Proof.
  unfold process_state.
  destruct (initial_cities state_name names [] (NoDup_nil_2 (A := string))
              (List.Forall_nil _))
    as (Hnd0 & Hall0 & Hkeys0).
  set (d0 := fold_left (fun d c => dict_set c (new_city c state_name) d)
               names []) in *.
  destruct (city_loop_spec state_name names
              (mkStateResolution state_name IN_PROGRESS d0) w)
    as (sr' & w' & Hloop & Hstate & Hkeys & Hnd & Hall).
  { cbn. apply (Forall_impl _ _ _ Hall0). now intros c []. }
  { cbn. apply List.Forall_forall. intros k Hk. apply Hkeys0. now left. }
  rewrite Hloop. eexists. eexists. split; [reflexivity |]. cbn.
  cbn in Hkeys, Hnd, Hall. specialize (Hnd Hnd0).
  split; [destruct (state_is_resolved sr'); auto |].
  split; [intros k; rewrite Hkeys, Hkeys0; simpl; tauto |].
  split.
  - intros Hrun.
    assert (Forall done_city (dict_values (cities sr'))) as Hdone.
    { apply List.Forall_forall. intros v Hv. unfold dict_values in Hv.
      apply in_map_iff in Hv as ([k v0] & <- & Hin). simpl.
      pose proof (dict_get_In k v0 (cities sr') Hnd Hin) as Hget.
      destruct (Hall Hrun k v0 Hget) as [Hd | [Hnot _]]; [exact Hd |].
      exfalso. apply Hnot.
      assert (In k (map fst (cities sr'))) as Hk
          by (apply in_map_iff; now exists (k, v0)).
      apply Hkeys, Hkeys0 in Hk. simpl in Hk. tauto. }
    split.
    + assert (state_is_resolved sr' = true) as ->; [| reflexivity].
      unfold state_is_resolved. apply forallb_forall. intros v Hv.
      exact (proj1 (proj1 (List.Forall_forall _ _) Hdone v Hv)).
    + apply (Forall_impl _ _ _ Hdone). intros c [Hfa Hst].
      split; [exact Hst |]. apply List.Forall_forall. intros v Hv.
      unfold is_fully_attempted in Hfa.
      apply (proj1 (forallb_forall _ _) Hfa) in Hv.
      destruct (cat_status v); try discriminate; auto.
  - intros Hne Hflag. destruct names as [| n names]; [congruence |].
    cbn [city_loop read_running] in Hloop. rewrite Hflag in Hloop.
    injection Hloop as <- _.
    assert (forallb is_fully_attempted (dict_values d0) = false) as Hfalse;
      [| try unfold state_is_resolved; cbn [cities]; now rewrite Hfalse].
    assert (In n (map fst d0)) as Hin by (apply Hkeys0; left; now left).
    apply in_map_iff in Hin as ([k c] & _ & Hin).
    assert (In c (dict_values d0)) as Hc
        by (unfold dict_values; apply in_map_iff; now exists (k, c)).
    apply not_true_iff_false. intros Hfa.
    apply (proj1 (forallb_forall _ _) Hfa) in Hc as Hatt.
    apply (proj1 (List.Forall_forall _ _) Hall0) in Hc as [_ Hnot].
    congruence.
Qed.

End LoopFacts.

(** A city where no search returns anything, run to the end. *)
Definition always_running (_ : nat) : bool := true.

Definition barren_everywhere (_ _ : string) (_ : Z) : Collaborators :=
  barren_collaborators.

Lemma process_city_settles_demo :
  exists c' w',
    _process_city always_running barren_everywhere (new_city "Austin" "Texas")
      "Texas" (mkWorld 0 []) = Some (c', w') /\
    Forall (fun v => cat_status v = RESOLVED \/ cat_status v = FAILED)
      (dict_values (categories c')) /\
    cr_status c' = PARTIAL /\
    length (waves_run w') = 9%nat.
Proof.
  destruct (process_city_settles always_running barren_everywhere
              (new_city "Austin" "Texas") "Texas" (mkWorld 0 []))
    as (c' & w' & Hcall & _ & Hterm & Hstatus & _).
  - apply (bool_decide_unpack _). vm_compute. exact I.
  - cbn. repeat (apply List.Forall_cons; [simpl; auto 6 |]).
    apply List.Forall_nil.
  - exists c', w'. split; [exact Hcall |]. split; [exact Hterm |].
    rewrite Hstatus. revert Hcall. vm_compute. intros [= <- <-].
    split; reflexivity.
Defined.

End PipelineCityFacts.

(** ** pipeline/pipeline_core/query_generator.py

    A query is a dict with optional ["query"] and ["angle"] entries.  Text
    is ASCII: [lower] maps the letters A to Z, [split] cuts at runs of ASCII
    whitespace.  What the language model returned is an argument of
    [generate_queries]. *)

Module QueryGenerator.
Import PyDict.

Record QueryDict := mkQueryDict {
  qd_query : option string;
  qd_angle : option string
}.

Definition lower_ascii (a : ascii) : ascii :=
  let n := nat_of_ascii a in
  if ((65 <=? n) && (n <=? 90))%nat then ascii_of_nat (n + 32) else a.

Fixpoint lower (s : string) : string :=
  match s with
  | EmptyString => EmptyString
  | String a rest => String (lower_ascii a) (lower rest)
  end.

Definition flush (cur : option string) : list string :=
  match cur with
  | Some w => [String.rev w]
  | None => []
  end.

(** [text.split()]; [cur] is the word being read, last character first. *)
Fixpoint split_go (cur : option string) (s : string) : list string :=
  match s with
  | EmptyString => flush cur
  | String a rest =>
      if Py.is_space a then flush cur ++ split_go None rest
      else split_go (Some (String a (default "" cur))) rest
  end.

Definition split (s : string) : list string := split_go None s.

(** [set(q.get("query","").lower().split())] *)
Definition words (q : QueryDict) : gset string :=
  list_to_set (split (lower (default "" (qd_query q)))).

(** [len(words & prev) / max(len(words | prev), 1)] *)
Definition overlap (a b : gset string) : Q :=
  (inject_Z (Z.of_nat (size (a ∩ b)))
   / inject_Z (Z.max (Z.of_nat (size (a ∪ b))) 1))%Q.

Definition too_similar (a b : gset string) : bool :=
  Py.Qltb (7 # 10) (overlap a b).

Definition dedup_step (st : list QueryDict * list (gset string))
    (q : QueryDict) : list QueryDict * list (gset string) :=
  let '(unique, seen_words) := st in
  if existsb (too_similar (words q)) seen_words then st
  else (unique ++ [q], seen_words ++ [words q]).

Definition _dedup_queries (queries : list QueryDict) : list QueryDict :=
  fst (fold_left dedup_step queries ([], [])).

Definition CATEGORY_SEARCH_TERMS : dict (list string) :=
  [("cinema",
    ["movie review"; "film review"; "film critic"; "cinema";
     "movie commentary"; "film analysis"]);
   ("gaming",
    ["gaming"; "gamer"; "gameplay"; "let's play"; "game review";
     "video game"; "streamer"]);
   ("culture_entertainment",
    ["vlog"; "lifestyle"; "culture"; "entertainment"; "comedy"; "podcast";
     "pop culture"])].

(** The double quote character. *)
Definition dq : string :=
  String (Ascii false true false false false true false false) EmptyString.

Definition quoted (s : string) : string := dq +:+ s +:+ dq.

Definition fb (angle query : string) : QueryDict :=
  mkQueryDict (Some query) (Some angle).

(** [fallback_queries].  Every list of search terms in the table, and the
    default one, is non-empty, so [t[0]] is defined. *)
Definition fallback_queries (city state cat_key : string) (wave : Z)
    : list QueryDict :=
  let t := default ["content creator"] (dict_get cat_key CATEGORY_SEARCH_TERMS) in
  let t1 := hd "" t in
  let t2 := if (1 <? length t)%nat then nth 1 t "" else t1 in
  let t3 := if (2 <? length t)%nat then nth 2 t "" else t1 in
  if wave =? 1 then
    [fb "direct" (quoted city +:+ " youtuber " +:+ t1);
     fb "reddit" ("site:reddit.com " +:+ quoted city +:+ " youtube " +:+ t2);
     fb "list" (quoted ("youtubers from " +:+ state) +:+ " " +:+ t1 +:+ " OR "
                +:+ t2);
     fb "press" (quoted city +:+ " " +:+ quoted "content creator" +:+ " " +:+ t3
                 +:+ " interview");
     fb "social" (quoted city +:+ " " +:+ t1 +:+ " youtube channel subscribers");
     fb "community" (quoted city +:+ " " +:+ quoted t2 +:+ " "
                     +:+ quoted "my channel" +:+ " OR " +:+ quoted "subscribe")]
  else if wave =? 2 then
    [fb "wide" (quoted state +:+ " youtube channel " +:+ t1 +:+ " 2024 OR 2025");
     fb "bio" ("site:twitter.com OR site:instagram.com " +:+ quoted city +:+ " "
               +:+ t1 +:+ " youtube");
     fb "event" (quoted city +:+ " " +:+ t2
                 +:+ " meetup OR convention OR festival");
     fb "forum" (quoted city +:+ " " +:+ t1
                 +:+ " recommendation OR underrated youtube");
     fb "collab" (quoted state +:+ " " +:+ t3 +:+ " youtuber collab OR feature");
     fb "news" (quoted city +:+ " local " +:+ t1 +:+ " creator OR influencer")]
  else
    [fb "metro" (quoted ("greater " +:+ city) +:+ " OR "
                 +:+ quoted (city +:+ " area") +:+ " youtuber " +:+ t1);
     fb "podcast" (quoted city +:+ " " +:+ t2 +:+ " podcast OR interview youtuber");
     fb "emerging" (quoted state +:+ " underrated " +:+ t1
                    +:+ " youtube small channel");
     fb "best_of" (quoted ("best " +:+ t1 +:+ " youtubers") +:+ " "
                   +:+ quoted state +:+ " OR " +:+ quoted city);
     fb "linkedin" ("site:linkedin.com " +:+ quoted city +:+ " youtube " +:+ t1
                    +:+ " creator");
     fb "tiktok" (quoted city +:+ " " +:+ t2 +:+ " tiktok youtube creator")].

(** [q.get("query","").lower().strip()] *)
Definition norm (q : QueryDict) : string :=
  Py.strip (lower (default "" (qd_query q))).

Definition add_fallback (st : list QueryDict * gset string) (f : QueryDict)
    : list QueryDict * gset string :=
  let '(queries, seen) := st in
  if bool_decide (norm f ∈ seen) then st
  else (queries ++ [f], seen ∪ {[norm f]}).

(** [generate_queries].  [llm_queries] is [result["queries"]], [None] when
    the model's answer is empty or has no such entry. *)
Definition generate_queries (city state cat_key : string) (wave : Z)
    (llm_queries : option (list QueryDict)) : list QueryDict :=
  let queries := _dedup_queries (default [] llm_queries) in
  let queries :=
    if (length queries <? 4)%nat then
      fst (fold_left add_fallback (fallback_queries city state cat_key wave)
             (queries, list_to_set (map norm queries)))
    else queries in
  take 8 queries.

End QueryGenerator.

(** *** Properties of the query generator *)

Module QueryGeneratorFacts.
Import PyDict QueryGenerator.

(** A later query is not too similar to an earlier one. *)
Definition distinct_enough (earlier later : QueryDict) : Prop :=
  too_similar (words later) (words earlier) = false.

Lemma StronglySorted_snoc {A : Type} (R : A -> A -> Prop) (l : list A) (x : A) :
  StronglySorted R l -> Forall (fun a => R a x) l -> StronglySorted R (l ++ [x]).
Proof.
  induction 1 as [| a l Hs IH Ha]; intros Hx; simpl.
  - repeat constructor.
  - inversion Hx; subst. constructor; [now apply IH |].
    apply Forall_app. split; [exact Ha | now repeat constructor].
Qed.

Lemma dedup_fold (queries : list QueryDict) :
  forall unique : list QueryDict,
    StronglySorted distinct_enough unique ->
    exists added,
      fold_left dedup_step queries (unique, map words unique)
      = (unique ++ added, map words (unique ++ added)) /\
      sublist added queries /\
      StronglySorted distinct_enough (unique ++ added) /\
      forall q, In q queries ->
                In q added \/
                exists k, In k (unique ++ added) /\
                          too_similar (words q) (words k) = true.
Proof.
  induction queries as [| q queries IH]; intros unique Hs.
  - exists []. rewrite app_nil_r. split; [reflexivity |].
    split; [constructor |]. split; [exact Hs | intros q []].
  - cbn [fold_left dedup_step].
    destruct (existsb (too_similar (words q)) (map words unique)) eqn:Hdup.
    + destruct (IH unique Hs) as (added & Hfold & Hsub & Hs' & Hcov).
      exists added. split; [exact Hfold |].
      split; [now apply sublist_cons |]. split; [exact Hs' |].
      intros x [<- | Hx]; [| now apply Hcov].
      right. apply existsb_exists in Hdup as (w & Hw & Hsim).
      apply in_map_iff in Hw as (k & <- & Hk).
      exists k. split; [apply in_or_app; now left | exact Hsim].
    + assert (StronglySorted distinct_enough (unique ++ [q])) as Hs1.
      { apply StronglySorted_snoc; [exact Hs |].
        apply List.Forall_forall. intros k Hk. unfold distinct_enough.
        destruct (too_similar (words q) (words k)) eqn:Hsim; [| reflexivity].
        assert (existsb (too_similar (words q)) (map words unique) = true)
          as Habs; [| congruence].
        apply existsb_exists. exists (words k). split; [| exact Hsim].
        now apply in_map. }
      destruct (IH (unique ++ [q]) Hs1) as (added & Hfold & Hsub & Hs' & Hcov).
      exists (q :: added). rewrite (map_app words unique [q]) in Hfold.
      replace (unique ++ q :: added) with ((unique ++ [q]) ++ added)
        by now rewrite <- app_assoc.
      split; [exact Hfold |]. split; [now apply sublist_skip |].
      split; [exact Hs' |].
      intros x [<- | Hx]; [left; now left |].
      destruct (Hcov x Hx) as [Hin | Hk]; [left; now right | now right].
Qed.

(** [_dedup_queries] keeps a subsequence of its input in which no query is
    too similar (more than 70 percent of the words of the two queries in
    common) to an earlier kept one, and drops a query only if it is too
    similar to a kept one. *)
Theorem dedup_queries_spec (queries : list QueryDict) :
  sublist (_dedup_queries queries) queries /\
  StronglySorted distinct_enough (_dedup_queries queries) /\
  forall q,
    In q queries ->
    In q (_dedup_queries queries) \/
    exists k,
      In k (_dedup_queries queries) /\
      too_similar (words q) (words k) = true.
Proof.
  unfold _dedup_queries.
  destruct (dedup_fold queries [] ltac:(constructor))
    as (added & Hfold & Hsub & Hs & Hcov).
  simpl in Hfold. rewrite Hfold. simpl in *. auto.
Qed.

Lemma add_fallback_fold (fallbacks : list QueryDict) :
  forall (queries : list QueryDict) (seen : gset string),
    exists extra,
      fst (fold_left add_fallback fallbacks (queries, seen)) = queries ++ extra /\
      sublist extra fallbacks /\
      (forall f rest, fallbacks = f :: rest -> norm f ∉ seen -> extra <> []).
Proof.
  induction fallbacks as [| f fallbacks IH]; intros queries seen.
  - exists []. rewrite app_nil_r. split; [reflexivity |].
    split; [constructor | discriminate].
  - cbn [fold_left add_fallback].
    destruct (bool_decide_reflect (norm f ∈ seen)) as [Hin | Hnot].
    + destruct (IH queries seen) as (extra & Hfold & Hsub & _).
      exists extra. split; [exact Hfold |]. split; [now apply sublist_cons |].
      intros f' rest [= <- <-] Hnot. contradiction.
    + destruct (IH (queries ++ [f]) (seen ∪ {[norm f]}))
        as (extra & Hfold & Hsub & _).
      exists (f :: extra). rewrite Hfold, <- app_assoc.
      split; [reflexivity |]. split; [now apply sublist_skip | discriminate].
Qed.

Lemma fallback_queries_six (city state cat_key : string) (wave : Z) :
  exists f rest, fallback_queries city state cat_key wave = f :: rest /\
                 length rest = 5%nat.
Proof.
  unfold fallback_queries.
  destruct (wave =? 1); [| destruct (wave =? 2)]; eexists; eexists;
    split; reflexivity.
Qed.

Lemma generate_queries_nonempty (city state cat_key : string) (wave : Z)
    (llm_queries : option (list QueryDict)) :
  generate_queries city state cat_key wave llm_queries <> [] /\
  (length (generate_queries city state cat_key wave llm_queries) <= 8)%nat.
Proof.
  unfold generate_queries.
  set (kept := _dedup_queries (default [] llm_queries)).
  assert (forall l : list QueryDict, l <> [] -> take 8 l <> []) as Htake
      by (intros [| x l] H; [congruence | discriminate]).
  split; [| destruct (length kept <? 4)%nat; rewrite length_take; lia].
  destruct (Nat.ltb_spec (length kept) 4) as [Hlt | Hge]; apply Htake.
  - destruct (add_fallback_fold (fallback_queries city state cat_key wave) kept
                (list_to_set (map norm kept)))
      as (extra & Hfold & _ & Hfirst).
    rewrite Hfold. destruct kept as [| q kept0] eqn:Hkept; [| discriminate].
    destruct (fallback_queries_six city state cat_key wave)
      as (f & rest & Hfb & _).
    simpl. apply (Hfirst f rest Hfb). simpl. set_solver.
  - destruct kept; [simpl in Hge; lia | discriminate].
Qed.

(** [generate_queries] never returns an empty list and never more than 8
    queries, whatever the language model answered: it returns the first 8
    of the de-duplicated model queries followed by fall-back queries, and
    fall-backs are added only when fewer than 4 model queries are left. *)
Theorem generate_queries_never_empty (city state cat_key : string) (wave : Z)
    (llm_queries : option (list QueryDict)) :
  generate_queries city state cat_key wave llm_queries <> [] /\
  (length (generate_queries city state cat_key wave llm_queries) <= 8)%nat /\
  exists extra,
    generate_queries city state cat_key wave llm_queries
    = take 8 (_dedup_queries (default [] llm_queries) ++ extra) /\
    sublist extra (fallback_queries city state cat_key wave) /\
    ((4 <= length (_dedup_queries (default [] llm_queries)))%nat ->
     extra = []).
Proof.
  unfold generate_queries.
  set (kept := _dedup_queries (default [] llm_queries)).
  assert (forall l : list QueryDict, l <> [] -> take 8 l <> []) as Htake
      by (intros [| x l] H; [congruence | discriminate]).
  destruct (Nat.ltb_spec (length kept) 4) as [Hlt | Hge].
  - destruct (add_fallback_fold (fallback_queries city state cat_key wave) kept
                (list_to_set (map norm kept)))
      as (extra & Hfold & Hsub & Hfirst).
    rewrite Hfold. split; [| split].
    + apply Htake. destruct kept as [| q kept0] eqn:Hkept; [| discriminate].
      destruct (fallback_queries_six city state cat_key wave)
        as (f & rest & Hfb & _).
      simpl. apply (Hfirst f rest Hfb). simpl. set_solver.
    + rewrite length_take. lia.
    + exists extra. split; [reflexivity |]. split; [exact Hsub |]. lia.
  - split; [| split].
    + apply Htake. destruct kept; [simpl in Hge; lia | discriminate].
    + rewrite length_take. lia.
    + exists []. rewrite app_nil_r. split; [reflexivity |].
      split; [apply sublist_nil_l | reflexivity].
Qed.

End QueryGeneratorFacts.

(** ** Strategy planner: counting the queries of a plan *)

Module StrategyCounts.
Import PyDict StrategyPlanner.

(** What one turn of the loop of [_count_step_queries] adds to [total]: the
    queries of the step, then those of its sub-steps. *)
Fixpoint count_step (step : Step) : Z :=
  Z.of_nat (length (queries step)) +
  (fix count_list (subs : list Step) (total : Z) : Z :=
     match subs with
     | [] => total
     | sub :: rest => count_list rest (total + count_step sub)
     end) (sub_steps step) 0.

Definition _count_step_queries (steps : list Step) : Z :=
  fold_left (fun total step => total + count_step step) steps 0.

(** One turn of the loop of [count_queries].  ["total"] is in the
    dictionary from the start, so reading it never fails. *)
Definition count_strategy (counts : dict Z) (strat : Strategy) : dict Z :=
  let n := _count_step_queries (steps strat) in
  let counts :=
    dict_set (tier strat) (default 0 (dict_get (tier strat) counts) + n) counts in
  dict_set "total" (default 0 (dict_get "total" counts) + n) counts.

Definition count_queries (last_strategies : list Strategy)
    (strategies : option (list Strategy)) : dict Z :=
  fold_left count_strategy (or_last strategies last_strategies)
    [("direct", 0); ("semi_direct", 0); ("indirect", 0); ("total", 0)].

End StrategyCounts.

Module StrategyCountsFacts.
Import PyDict PyDictFacts StrategyPlanner StrategyPlannerFacts StrategyCounts.

Lemma count_step_walk (sn tr city state : string) (step : Step) :
  count_step step
  = Z.of_nat (length (flat_map (step_queries sn tr city state) (preorder step))).
Proof.
  induction step as [i a d qs eo subs st p dep c IH] using Step_tree_ind.
  cbn [count_step preorder flat_map queries sub_steps].
  rewrite length_app. unfold step_queries at 1. rewrite length_map.
  cbn [queries].
  assert (forall total,
            (fix count_list (subs : list Step) (total : Z) : Z :=
               match subs with
               | [] => total
               | sub :: rest => count_list rest (total + count_step sub)
               end) subs total
            = total + Z.of_nat
                        (length (flat_map (step_queries sn tr city state)
                                   (flat_map preorder subs)))) as Hsubs.
  { induction IH as [| sub subs Hsub _ IHsubs]; intros total; simpl; [lia |].
    rewrite IHsubs, Hsub, flat_map_app, length_app. lia. }
  rewrite Hsubs. lia.
Qed.

Lemma count_steps_walk (sn tr city state : string) (l : list Step) :
  _count_step_queries l
  = Z.of_nat (length (flat_map (step_queries sn tr city state)
                        (flat_map preorder l))).
Proof.
  unfold _count_step_queries.
  assert (forall total,
            fold_left (fun total step => total + count_step step) l total
            = total + Z.of_nat
                        (length (flat_map (step_queries sn tr city state)
                                   (flat_map preorder l)))) as H.
  { induction l as [| step l IH]; intros total; simpl; [lia |].
    rewrite IH, (count_step_walk sn tr city state), flat_map_app, length_app.
    lia. }
  rewrite H. lia.
Qed.

Definition of_tier (t : string) (d : QueryDescriptor) : bool :=
  String.eqb (q_tier d) t.

(** The queries the walk finds in one strategy. *)
Definition strategy_queries (city state : string) (strat : Strategy)
    : list QueryDescriptor :=
  flat_map (step_queries (name strat) (tier strat) city state)
    (flat_map preorder (steps strat)).

Lemma strategy_queries_tier (city state : string) (strat : Strategy) (t : string) :
  List.filter (of_tier t) (strategy_queries city state strat)
  = if String.eqb (tier strat) t then strategy_queries city state strat else [].
Proof.
  unfold strategy_queries.
  induction (flat_map preorder (steps strat)) as [| step l IH]; simpl.
  - now destruct (String.eqb (tier strat) t).
  - rewrite List.filter_app, IH.
    assert (List.filter (of_tier t)
              (step_queries (name strat) (tier strat) city state step)
            = if String.eqb (tier strat) t
              then step_queries (name strat) (tier strat) city state step
              else []) as ->.
    { unfold step_queries. induction (queries step) as [| q qs IHq]; simpl.
      - now destruct (String.eqb (tier strat) t).
      - unfold of_tier at 1. cbn [q_tier describe]. rewrite IHq.
        now destruct (String.eqb (tier strat) t). }
    now destruct (String.eqb (tier strat) t).
Qed.

Lemma count_fold (city state : string) (strategies : list Strategy) :
  forall counts : dict Z,
    (forall t,
       t <> "total" ->
       default 0 (dict_get t (fold_left count_strategy strategies counts))
       = default 0 (dict_get t counts)
         + Z.of_nat (length (List.filter (of_tier t)
                               (dfs_queries strategies city state)))) /\
    (Forall (fun s => tier s <> "total") strategies ->
     default 0 (dict_get "total" (fold_left count_strategy strategies counts))
     = default 0 (dict_get "total" counts)
       + Z.of_nat (length (dfs_queries strategies city state))).
Proof.
  induction strategies as [| strat l IH]; intros counts.
  - simpl. split; intros; lia.
  - cbn [fold_left]. destruct (IH (count_strategy counts strat)) as [IHt IHtotal].
    change (dfs_queries (strat :: l) city state)
      with (strategy_queries city state strat ++ dfs_queries l city state).
    pose proof (count_steps_walk (name strat) (tier strat) city state
                  (steps strat)) as Hn.
    fold (strategy_queries city state strat) in Hn.
    split.
    + intros t Ht. rewrite (IHt t Ht), List.filter_app, length_app.
      rewrite strategy_queries_tier. unfold count_strategy.
      rewrite dict_get_set_ne by congruence.
      destruct (String.eqb_spec (tier strat) t) as [<- | Hne].
      * rewrite dict_get_set_eq. simpl. rewrite Hn. lia.
      * rewrite dict_get_set_ne by congruence. simpl. lia.
    + intros Hall. inversion Hall as [| ? ? Hs Hl]; subst.
      rewrite (IHtotal Hl), length_app. unfold count_strategy.
      rewrite dict_get_set_eq. simpl.
      rewrite dict_get_set_ne by congruence. rewrite Hn. lia.
Qed.

Lemma filter_length_perm {A : Type} (p : A -> bool) (l l' : list A) :
  Permutation l l' -> length (List.filter p l) = length (List.filter p l').
Proof.
  induction 1 as [| x l l' _ IH | x y l | l l' l'' _ IH1 _ IH2]; simpl.
  - reflexivity.
  - destruct (p x); simpl; now rewrite IH.
  - destruct (p x), (p y); reflexivity.
  - now rewrite IH1.
Qed.

(** [count_queries] agrees with [flatten_queries]: for every tier name other
    than ["total"], the count it reports (0 if it reports none) is the
    number of flattened queries of that tier, whatever city and state are
    filled in; and unless a strategy is itself of tier ["total"], the
    ["total"] entry is the number of all flattened queries. *)
Theorem count_queries_matches_flatten (last : list Strategy)
    (strategies : option (list Strategy)) (city state : string) :
  (forall t,
     t <> "total" ->
     default 0 (dict_get t (count_queries last strategies))
     = Z.of_nat (length (List.filter (of_tier t)
                           (flatten_queries last strategies city state)))) /\
  (Forall (fun s => tier s <> "total") (or_last strategies last) ->
   default 0 (dict_get "total" (count_queries last strategies))
   = Z.of_nat (length (flatten_queries last strategies city state))).
Proof.
  rewrite flatten_queries_dfs. unfold count_queries.
  destruct (count_fold city state (or_last strategies last)
              [("direct", 0); ("semi_direct", 0); ("indirect", 0); ("total", 0)])
    as [Ht Htotal].
  pose proof (sort_perm (dfs_queries (or_last strategies last) city state))
    as Hperm.
  split.
  - intros t Hne. rewrite (Ht t Hne).
    rewrite <- (filter_length_perm _ _ _ Hperm).
    assert (default 0
              (dict_get t
                 [("direct", 0); ("semi_direct", 0); ("indirect", 0);
                  ("total", 0)]) = 0) as ->; [| lia].
    simpl. repeat (destruct (String.eqb t _); [reflexivity |]). reflexivity.
  - intros Hall. rewrite (Htotal Hall).
    rewrite <- (Permutation_length Hperm). reflexivity.
Qed.

End StrategyCountsFacts.

(** ** models/data_models.py: fragments of a candidate *)

Module CandidateFragments.
Import DataModels.

Definition set_fragments (c : ChannelCandidate) (fs : list Fragment)
    (count sources : Z) : ChannelCandidate :=
  {| candidate_id := candidate_id c;
     channel_name := channel_name c;
     channel_url := channel_url c;
     alternative_names := alternative_names c;
     target_city := target_city c;
     target_state := target_state c;
     target_category := target_category c;
     fragments := fs;
     fragment_count := count;
     independent_sources := sources;
     city_evidence := city_evidence c;
     city_score := city_score c;
     category_evidence := category_evidence c;
     category_score := category_score c;
     yt_verified := yt_verified c;
     yt_exists := yt_exists c;
     yt_real_name := yt_real_name c;
     yt_subscribers_text := yt_subscribers_text c;
     yt_subscribers_count := yt_subscribers_count c;
     yt_subscriber_match := yt_subscriber_match c;
     yt_last_upload_text := yt_last_upload_text c;
     yt_last_upload_recent := yt_last_upload_recent c;
     yt_description := yt_description c;
     total_score := total_score c;
     verified := verified c;
     rejection_reasons := rejection_reasons c |}.

(** [f["source_url"] for f in self.fragments if f.get("source_url")]: the
    urls of the fragments that have a non-empty one. *)
Definition fragment_urls (fs : list Fragment) : list string :=
  List.filter (fun u => negb (bool_decide (u = ""))) (map source_url fs).

(** [add_fragment]: the fragment is appended, and both counters are
    recomputed from the whole list. *)
Definition add_fragment (c : ChannelCandidate) (frag : Fragment)
    : ChannelCandidate :=
  let fs := fragments c ++ [frag] in
  set_fragments c fs
    (Z.of_nat (length fs))
    (Z.of_nat (length (remove_dups (fragment_urls fs)))).

End CandidateFragments.

(** *** Properties of the fragment counters and of the score ranges *)

Module CandidateFragmentsFacts.
Import DataModels DataModelsFacts CandidateFragments.

Lemma remove_dups_length_le {A : Type} `{EqDecision A} (l : list A) :
  (length (remove_dups l) <= length l)%nat.
Proof.
  induction l as [| x l IH]; simpl; [lia |].
  destruct (decide_rel elem_of x l); simpl; lia.
Qed.

Lemma remove_dups_snoc_length {A : Type} `{EqDecision A} (l : list A) (u : A) :
  length (remove_dups (l ++ [u]))
  = (length (remove_dups l) + (if bool_decide (u ∈ l) then 0 else 1))%nat.
Proof.
  assert (Hperm : Permutation (remove_dups (l ++ [u]))
                    (if bool_decide (u ∈ l) then remove_dups l
                     else remove_dups l ++ [u])).
  { apply NoDup_Permutation.
    - apply NoDup_remove_dups.
    - destruct (bool_decide (u ∈ l)) eqn:Hu.
      + apply NoDup_remove_dups.
      + apply bool_decide_eq_false in Hu. apply NoDup_app.
        split; [apply NoDup_remove_dups |].
        split; [| apply NoDup_singleton].
        intros x Hx ->%list_elem_of_singleton.
        now rewrite elem_of_remove_dups in Hx.
    - intros x. rewrite elem_of_remove_dups, elem_of_app, list_elem_of_singleton.
      destruct (bool_decide (u ∈ l)) eqn:Hu.
      + apply bool_decide_eq_true in Hu. rewrite elem_of_remove_dups.
        split; [intros [H' | ->]; [exact H' | exact Hu] | now left].
      + rewrite elem_of_app, elem_of_remove_dups, list_elem_of_singleton.
        tauto. }
  rewrite (Permutation_length Hperm).
  destruct (bool_decide (u ∈ l)); [simpl; lia |].
  rewrite length_app. reflexivity.
Qed.

Lemma fragment_urls_snoc (fs : list Fragment) (g : Fragment) :
  fragment_urls (fs ++ [g])
  = fragment_urls fs ++ (if bool_decide (source_url g = "") then []
                         else [source_url g]).
Proof.
  unfold fragment_urls. rewrite map_app, List.filter_app. simpl.
  now destruct (bool_decide (source_url g = "")).
Qed.

Lemma fragment_urls_elem (fs : list Fragment) (u : string) :
  u ∈ fragment_urls fs <-> u <> "" /\ u ∈ map source_url fs.
Proof.
  unfold fragment_urls.
  rewrite !list_elem_of_In, List.filter_In, negb_true_iff, bool_decide_eq_false.
  tauto.
Qed.

(** The counters agree with the fragment list. *)
Definition in_step (c : ChannelCandidate) : Prop :=
  fragment_count c = Z.of_nat (length (fragments c)) /\
  independent_sources c
  = Z.of_nat (length (remove_dups (fragment_urls (fragments c)))).

Lemma add_fragment_in_step (c : ChannelCandidate) (g : Fragment) :
  in_step (add_fragment c g).
Proof. split; reflexivity. Qed.

Lemma add_fragments_fold (more : list Fragment) :
  forall c,
    in_step c ->
    let c1 := fold_left add_fragment more c in
    in_step c1 /\ fragments c1 = fragments c ++ more /\
    total_score c1 = total_score c /\ city_score c1 = city_score c.
Proof.
  induction more as [| g more IH]; intros c Hc; cbn zeta; simpl.
  - rewrite app_nil_r. auto.
  - destruct (IH (add_fragment c g) (add_fragment_in_step c g))
      as (H1 & H2 & H3 & H4).
    split; [exact H1 |]. split; [| split; assumption].
    rewrite H2. simpl. now rewrite <- app_assoc.
Qed.

(** Once a fragment has been added through [add_fragment], and after any
    number of further ones, the candidate holds all fragments in the order
    they were added, [fragment_count] is their number, and
    [independent_sources] lies between 0 and [fragment_count], whatever the
    counters held before; it is at least 1 as soon as one fragment has a
    source url.  Adding one more fragment raises [independent_sources] by one
    if its source url is non-empty and not the url of an earlier fragment,
    and leaves it unchanged otherwise.  The scores are not recomputed. *)
Theorem add_fragment_counters (c : ChannelCandidate) (frag : Fragment)
    (more : list Fragment) :
  let c1 := fold_left add_fragment more (add_fragment c frag) in
  fragments c1 = fragments c ++ frag :: more /\
  fragment_count c1 = Z.of_nat (length (fragments c1)) /\
  (0 <= independent_sources c1 <= fragment_count c1)%Z /\
  (forall u,
     u <> "" -> u ∈ map source_url (fragments c1) ->
     (1 <= independent_sources c1)%Z) /\
  (forall g,
     independent_sources (add_fragment c1 g)
     = (independent_sources c1
        + (if bool_decide (source_url g = "" \/
                           source_url g ∈ map source_url (fragments c1))
           then 0 else 1))%Z) /\
  total_score c1 = total_score c /\ city_score c1 = city_score c.
Proof.
  destruct (add_fragments_fold more (add_fragment c frag)
              (add_fragment_in_step c frag)) as ((Hn & Hk) & Hfs & Ht & Hs).
  cbn zeta in *. set (c1 := fold_left add_fragment more (add_fragment c frag)) in *.
  split; [| split; [exact Hn | split; [| split; [| split; [| split]]]]].
  - rewrite Hfs. simpl. now rewrite <- app_assoc.
  - rewrite Hn, Hk.
    pose proof (remove_dups_length_le (fragment_urls (fragments c1))).
    assert (length (fragment_urls (fragments c1)) <= length (fragments c1))%nat.
    { unfold fragment_urls.
      rewrite <- (length_map source_url (fragments c1)).
      apply List.filter_length_le. }
    lia.
  - intros u Hu Hin. rewrite Hk.
    assert (Hel : u ∈ remove_dups (fragment_urls (fragments c1))).
    { rewrite elem_of_remove_dups, fragment_urls_elem. auto. }
    destruct (remove_dups (fragment_urls (fragments c1))); simpl; [| lia].
    now apply elem_of_nil in Hel.
  - intros g. rewrite Hk. unfold add_fragment. cbn [independent_sources set_fragments].
    rewrite fragment_urls_snoc.
    destruct (bool_decide (source_url g = "")) eqn:Hg.
    + apply bool_decide_eq_true in Hg. rewrite app_nil_r.
      rewrite bool_decide_true by now left. lia.
    + apply bool_decide_eq_false in Hg. rewrite remove_dups_snoc_length.
      rewrite Nat2Z.inj_add. f_equal.
      destruct (bool_decide (source_url g ∈ fragment_urls (fragments c1)))
        eqn:Hin.
      * apply bool_decide_eq_true, fragment_urls_elem in Hin.
        rewrite bool_decide_true by (right; tauto). reflexivity.
      * apply bool_decide_eq_false in Hin. rewrite fragment_urls_elem in Hin.
        rewrite bool_decide_false by tauto. reflexivity.
  - exact Ht.
  - exact Hs.
Qed.

End CandidateFragmentsFacts.

(** *** Ranges of the city score and of the total score *)

Module CandidateScoreFacts.
Import DataModels DataModelsFacts.






End CandidateScoreFacts.

(** ** pipeline/pipeline.py: helpers of the orchestrator *)

Module PipelineHelpers.
Import StrategyPlanner QueryGenerator.

(** The characters of the class [a-zA-Z0-9_-]. *)
Definition is_safe_char (a : ascii) : bool :=
  let n := nat_of_ascii a in
  ((97 <=? n) && (n <=? 122) || (65 <=? n) && (n <=? 90)
   || (48 <=? n) && (n <=? 57) || (n =? 95) || (n =? 45))%nat.

(** [_re.sub(r'[^a-zA-Z0-9_-]', '', s)] *)
Fixpoint keep_safe (s : string) : string :=
  match s with
  | EmptyString => EmptyString
  | String a rest =>
      if is_safe_char a then String a (keep_safe rest) else keep_safe rest
  end.

(** [s[:stop]]: a negative [stop] counts from the end. *)
Definition slice_to (stop : Z) (s : string) : string :=
  let n := Z.of_nat (String.length s) in
  substring 0 (Z.to_nat (if stop <? 0 then n + stop else stop)) s.

(** [_safe(text, maxlen)]; every caller leaves [maxlen] at its default 40.
    A character outside ASCII is removed by the pattern, and so is each byte
    of its UTF-8 encoding here, so the result is the same on the encoded
    text. *)
Definition _safe (text : string) (maxlen : Z) : string :=
  slice_to maxlen (keep_safe (replace " " "_" text)).

(** One entry of the list [_load_plan_queries] builds. *)
Record PlanQuery := mkPlanQuery {
  pq_query : string;
  pq_angle : string;
  pq_step_id : string;
  pq_source_type : string
}.

Definition plan_entry (city state : string) (step : Step) (q : string)
    : PlanQuery :=
  mkPlanQuery (fill city state q) (action step) (id step) (source_type step).

(** [l[i]]: a negative index counts from the end; [None] is IndexError. *)
Definition py_index {A : Type} (l : list A) (i : Z) : option A :=
  let n := Z.of_nat (length l) in
  if 0 <=? i then nth_error l (Z.to_nat i)
  else if 0 <=? n + i then nth_error l (Z.to_nat (n + i))
  else None.

(** The body of the loop over [strat["steps"]]: the queries of the step,
    then those of each of its sub-steps; sub-steps of sub-steps are not
    visited. *)
Definition step_entries (city state : string) (queries : list PlanQuery)
    (step : Step) : list PlanQuery :=
  let queries :=
    fold_left (fun acc q => acc ++ [plan_entry city state step q])
      (StrategyPlanner.queries step) queries in
  fold_left
    (fun acc sub =>
       fold_left (fun acc q => acc ++ [plan_entry city state sub q])
         (StrategyPlanner.queries sub) acc)
    (sub_steps step) queries.

(** [_load_plan_queries].  [plan] is the list under ["strategies"] of the
    saved plan, as [save_plan] writes it; it is [None] when the file is
    missing or cannot be read, and empty when the key is missing.  An index
    out of range raises inside the [try], so it gives [None] as well. *)
Definition _load_plan_queries (plan : option (list Strategy))
    (city state : string) (wave : Z) : option (list PlanQuery) :=
  match plan with
  | None => None
  | Some [] => None
  | Some strategies =>
      let tier_idx := Z.min (wave - 1) (Z.of_nat (length strategies) - 1) in
      match py_index strategies tier_idx with
      | None => None
      | Some strat =>
          match fold_left (step_entries city state) (steps strat) [] with
          | [] => None
          | queries => Some queries
          end
      end
  end.

(** [_generate_queries]: the first 12 plan queries if a plan gives any,
    the query generator otherwise.  The two sources build dicts of
    different shapes. *)
Definition _generate_queries (plan : option (list Strategy))
    (city state cat_key : string) (wave : Z)
    (llm_queries : option (list QueryDict)) : list (PlanQuery + QueryDict) :=
  match _load_plan_queries plan city state wave with
  | Some (q :: rest) => map inl (take 12 (q :: rest))
  | _ => map inr (generate_queries city state cat_key wave llm_queries)
  end.

End PipelineHelpers.

(** *** Properties of the helpers *)

Module PipelineHelpersFacts.
Import StrategyPlanner StrategyPlannerFacts QueryGenerator QueryGeneratorFacts PipelineHelpers.

Fixpoint all_chars (p : ascii -> bool) (s : string) : bool :=
  match s with
  | EmptyString => true
  | String a rest => p a && all_chars p rest
  end.

Definition not_space (a : ascii) : bool := negb (Ascii.eqb a " ").

Lemma keep_safe_all (s : string) : all_chars is_safe_char (keep_safe s) = true.
Proof.
  induction s as [| a s IH]; simpl; [reflexivity |].
  destruct (is_safe_char a) eqn:Ha; simpl; [now rewrite Ha | exact IH].
Qed.

Lemma keep_safe_fixed (s : string) :
  all_chars is_safe_char s = true -> keep_safe s = s.
Proof.
  induction s as [| a s IH]; simpl; [reflexivity |].
  intros [Ha Hs]%andb_true_iff. now rewrite Ha, IH.
Qed.

Lemma substring_all (p : ascii -> bool) (s : string) :
  forall n, all_chars p s = true -> all_chars p (substring 0 n s) = true.
Proof.
  induction s as [| a s IH]; intros [| n]; simpl; try reflexivity.
  intros [Ha Hs]%andb_true_iff. now rewrite Ha, IH.
Qed.

Lemma substring_length_le (s : string) :
  forall n, (String.length (substring 0 n s) <= n)%nat.
Proof.
  induction s as [| a s IH]; intros [| n]; simpl; try lia.
  specialize (IH n). lia.
Qed.

Lemma substring_whole (s : string) :
  forall n, (String.length s <= n)%nat -> substring 0 n s = s.
Proof.
  induction s as [| a s IH]; intros [| n]; simpl; try reflexivity; try lia.
  intros H. now rewrite IH by lia.
Qed.

Lemma safe_not_space (s : string) :
  all_chars is_safe_char s = true -> all_chars not_space s = true.
Proof.
  induction s as [| a s IH]; simpl; [reflexivity |].
  intros [Ha Hs]%andb_true_iff. rewrite (IH Hs), andb_true_r.
  unfold not_space. destruct (Ascii.eqb a " ") eqn:Hsp; [| reflexivity].
  apply Ascii.eqb_eq in Hsp. subst a. discriminate Ha.
Qed.

Lemma replace_space_cons (c : ascii) (rest : string) :
  replace_go " " "_" 0 (String c rest)
  = String (if Ascii.eqb c " " then "_"%char else c)
      (replace_go " " "_" 0 rest).
Proof.
  cbn [replace_go]. unfold String.prefix.
  destruct (ascii_dec " " c) as [<- | Hne].
  - destruct rest; reflexivity.
  - destruct (Ascii.eqb c " ") eqn:Hc; [| reflexivity].
    apply Ascii.eqb_eq in Hc. now subst c.
Qed.

Lemma replace_space_fixed (s : string) :
  all_chars not_space s = true -> replace " " "_" s = s.
Proof.
  unfold replace. induction s as [| a s IH]; [reflexivity |].
  cbn [all_chars]. intros [Ha Hs]%andb_true_iff.
  rewrite replace_space_cons, (IH Hs).
  unfold not_space in Ha. now destruct (Ascii.eqb a " ").
Qed.

Lemma replace_space_clean (s : string) :
  all_chars not_space (replace " " "_" s) = true.
Proof.
  unfold replace. induction s as [| a s IH]; [reflexivity |].
  rewrite replace_space_cons. cbn [all_chars]. rewrite IH, andb_true_r.
  unfold not_space. destruct (Ascii.eqb a " ") eqn:Ha; [reflexivity |].
  now rewrite Ha.
Qed.

(** [_safe] returns only ASCII letters, digits, underscores and hyphens,
    so no path separator, dot or space.  With a non-negative [maxlen] the
    result has at most [maxlen] characters and [_safe] leaves it unchanged
    when applied again; a text that is already of that form and short enough
    is returned as it is.  Spaces and underscores are not told apart: a text
    and the same text with its spaces replaced by underscores get the same
    name. *)
Theorem safe_name_spec (text : string) (maxlen : Z) :
  let s := _safe text maxlen in
  all_chars is_safe_char s = true /\
  (forall a, is_safe_char a = true ->
             a <> "/"%char /\ a <> "."%char /\ a <> " "%char /\ a <> "\"%char) /\
  (0 <= maxlen -> Z.of_nat (String.length s) <= maxlen) /\
  (0 <= maxlen -> _safe s maxlen = s) /\
  (forall t,
     all_chars is_safe_char t = true ->
     Z.of_nat (String.length t) <= maxlen ->
     _safe t maxlen = t) /\
  _safe (replace " " "_" text) maxlen = s.
Proof.
  cbv zeta.
  assert (Hall : all_chars is_safe_char (_safe text maxlen) = true).
  { unfold _safe, slice_to. apply substring_all, keep_safe_all. }
  assert (Hlen : 0 <= maxlen ->
                 Z.of_nat (String.length (_safe text maxlen)) <= maxlen).
  { intros Hm. unfold _safe, slice_to.
    destruct (Z.ltb_spec maxlen 0) as [Hneg | _]; [lia |].
    pose proof (substring_length_le (keep_safe (replace " " "_" text))
                  (Z.to_nat maxlen)). lia. }
  assert (Hfix : forall t,
            all_chars is_safe_char t = true ->
            Z.of_nat (String.length t) <= maxlen ->
            _safe t maxlen = t).
  { intros t Ht Hl. unfold _safe, slice_to.
    rewrite (replace_space_fixed t (safe_not_space t Ht)), (keep_safe_fixed t Ht).
    destruct (Z.ltb_spec maxlen 0) as [Hneg | _]; [lia |].
    apply substring_whole. lia. }
  split; [exact Hall |].
  split; [intros a Ha; repeat split; intros ->; discriminate Ha |].
  split; [exact Hlen |].
  split; [intros Hm; apply Hfix; [exact Hall | exact (Hlen Hm)] |].
  split; [exact Hfix |].
  unfold _safe.
  now rewrite (replace_space_fixed _ (replace_space_clean text)).
Qed.

(** The walk of [_load_plan_queries] over one strategy, as a list
    expression. *)
Definition two_levels (city state : string) (strat : Strategy)
    : list PlanQuery :=
  flat_map
    (fun step =>
       map (plan_entry city state step) (queries step)
       ++ flat_map (fun sub => map (plan_entry city state sub) (queries sub))
            (sub_steps step))
    (steps strat).

(** No sub-step of the strategy has sub-steps of its own. *)
Definition two_deep (strat : Strategy) : Prop :=
  Forall (fun step => Forall (fun sub => sub_steps sub = []) (sub_steps step))
    (steps strat).

Definition texts (city state : string) (step : Step) : list string :=
  map (fill city state) (queries step).

Lemma step_entries_walk (city state : string) (step : Step)
    (acc : list PlanQuery) :
  step_entries city state acc step
  = acc ++ map (plan_entry city state step) (queries step)
        ++ flat_map (fun sub => map (plan_entry city state sub) (queries sub))
             (sub_steps step).
Proof.
  unfold step_entries. rewrite fold_left_snoc, app_assoc.
  generalize (acc ++ map (plan_entry city state step) (queries step)).
  induction (sub_steps step) as [| sub subs IH]; intros l; simpl.
  - now rewrite app_nil_r.
  - now rewrite IH, fold_left_snoc, <- app_assoc.
Qed.

Lemma load_walk (city state : string) (l : list Step) :
  forall acc,
    fold_left (step_entries city state) l acc
    = acc ++ flat_map
               (fun step =>
                  map (plan_entry city state step) (queries step)
                  ++ flat_map
                       (fun sub => map (plan_entry city state sub) (queries sub))
                       (sub_steps step)) l.
Proof.
  induction l as [| step l IH]; intros acc; simpl.
  - now rewrite app_nil_r.
  - now rewrite IH, step_entries_walk, <- !app_assoc.
Qed.

Lemma map_flat_map' {A B C : Type} (g : B -> C) (f : A -> list B) (l : list A) :
  map g (flat_map f l) = flat_map (fun x => map g (f x)) l.
Proof.
  induction l as [| x l IH]; simpl; [reflexivity |].
  now rewrite map_app, IH.
Qed.

Lemma flat_map_flat_map {A B C : Type} (g : B -> list C) (f : A -> list B)
    (l : list A) :
  flat_map g (flat_map f l) = flat_map (fun x => flat_map g (f x)) l.
Proof.
  induction l as [| x l IH]; simpl; [reflexivity |].
  now rewrite flat_map_app, IH.
Qed.

Lemma sublist_flat_map {A B : Type} (f g : A -> list B) (l : list A) :
  Forall (fun x => sublist (f x) (g x)) l ->
  sublist (flat_map f l) (flat_map g l).
Proof.
  induction 1 as [| x l Hx _ IH]; simpl; [constructor |].
  now apply sublist_app.
Qed.

Lemma eq_flat_map {A B : Type} (f g : A -> list B) (l : list A) :
  Forall (fun x => f x = g x) l -> flat_map f l = flat_map g l.
Proof.
  induction 1 as [| x l Hx _ IH]; simpl; [reflexivity |].
  now rewrite Hx, IH.
Qed.

Lemma walked_texts (city state : string) (strat : Strategy) :
  map pq_query (two_levels city state strat)
  = flat_map
      (fun step =>
         texts city state step ++ flat_map (texts city state) (sub_steps step))
      (steps strat).
Proof.
  unfold two_levels. rewrite map_flat_map'. apply flat_map_ext. intros step.
  rewrite map_app, map_flat_map', map_map. f_equal.
  apply flat_map_ext. intros sub. now rewrite map_map.
Qed.

Lemma dfs_texts (city state : string) (strat : Strategy) :
  map q_query (dfs_queries [strat] city state)
  = flat_map
      (fun step =>
         texts city state step
         ++ flat_map (fun sub => flat_map (texts city state) (preorder sub))
              (sub_steps step))
      (steps strat).
Proof.
  unfold dfs_queries. simpl. rewrite app_nil_r.
  rewrite flat_map_flat_map, map_flat_map'. apply flat_map_ext. intros step.
  rewrite map_flat_map'.
  assert (Hq : forall l : list Step,
            flat_map
              (fun x => map q_query
                          (step_queries (name strat) (tier strat) city state x)) l
            = flat_map (texts city state) l).
  { intros l. apply flat_map_ext. intros x. unfold step_queries, texts.
    now rewrite map_map. }
  rewrite Hq. destruct step as [i a d qs eo subs st p dep c].
  cbn [preorder sub_steps flat_map]. f_equal.
  now rewrite flat_map_flat_map.
Qed.

Lemma preorder_texts_head (city state : string) (sub : Step) :
  flat_map (texts city state) (preorder sub)
  = texts city state sub
    ++ flat_map (texts city state) (flat_map preorder (sub_steps sub)).
Proof. now destruct sub. Qed.

Lemma py_index_wave {A : Type} (l : list A) (wave : Z) :
  l <> [] -> 1 <= wave ->
  exists x,
    nth_error l (Z.to_nat (Z.min (wave - 1) (Z.of_nat (length l) - 1))) = Some x /\
    py_index l (Z.min (wave - 1) (Z.of_nat (length l) - 1)) = Some x.
Proof.
  intros Hl Hw. assert (0 < length l)%nat by (destruct l; simpl; [easy | lia]).
  destruct (nth_error l (Z.to_nat (Z.min (wave - 1) (Z.of_nat (length l) - 1))))
    as [x |] eqn:Hx.
  - exists x. split; [reflexivity |]. unfold py_index.
    destruct (Z.leb_spec 0 (Z.min (wave - 1) (Z.of_nat (length l) - 1)));
      [exact Hx | lia].
  - apply nth_error_None in Hx. lia.
Qed.

Lemma load_plan_never_empty (plan : option (list Strategy))
    (city state : string) (wave : Z) :
  _load_plan_queries plan city state wave <> Some [].
Proof.
  unfold _load_plan_queries. destruct plan as [[| s l] |]; try discriminate.
  destruct (py_index _ _); [| discriminate].
  destruct (fold_left _ _ _); discriminate.
Qed.

(** [_generate_queries] never returns an empty list and never more than 12
    queries, and [_load_plan_queries] returns [None] rather than an empty
    list.  With a non-empty saved plan and a wave number from 1 on, the
    strategy consulted is the one at index [min(wave - 1, len - 1)]; the
    plan queries are those of its steps and of their direct sub-steps, in
    order, which is a subsequence of what [flatten_queries] walks for that
    strategy and all of it when no sub-step has sub-steps of its own; the
    wave gets the first 12 of them, or the generated queries if there are
    none. *)
Theorem wave_queries_spec (plan : option (list Strategy))
    (city state cat_key : string) (wave : Z)
    (llm_queries : option (list QueryDict)) :
  let loaded := _load_plan_queries plan city state wave in
  let qs := _generate_queries plan city state cat_key wave llm_queries in
  loaded <> Some [] /\
  qs <> [] /\
  (length qs <= 12)%nat /\
  (forall strategies,
     plan = Some strategies -> strategies <> [] -> 1 <= wave ->
     exists strat,
       nth_error strategies
         (Z.to_nat (Z.min (wave - 1) (Z.of_nat (length strategies) - 1)))
       = Some strat /\
       let walked := two_levels city state strat in
       loaded = match walked with [] => None | _ :: _ => Some walked end /\
       qs = match walked with
            | [] => map inr (generate_queries city state cat_key wave llm_queries)
            | _ :: _ => map inl (take 12 walked)
            end /\
       sublist (map pq_query walked)
         (map q_query (dfs_queries [strat] city state)) /\
       (two_deep strat ->
        map pq_query walked = map q_query (dfs_queries [strat] city state))).
Proof.
  cbv zeta.
  pose proof (generate_queries_nonempty city state cat_key wave llm_queries)
    as [Hgen Hgen8].
  split; [apply load_plan_never_empty |].
  split; [| split].
  - unfold _generate_queries.
    destruct (_load_plan_queries plan city state wave) as [[| q rest] |];
      simpl; try discriminate.
    all: intros Habs; apply map_eq_nil in Habs; contradiction.
  - unfold _generate_queries.
    destruct (_load_plan_queries plan city state wave) as [[| q rest] |];
      rewrite length_map; try lia.
    rewrite length_take. lia.
  - intros strategies -> Hne Hw.
    destruct (py_index_wave strategies wave Hne Hw) as (strat & Hnth & Hidx).
    exists strat. split; [exact Hnth |].
    assert (Hload :
      _load_plan_queries (Some strategies) city state wave
      = match two_levels city state strat with
        | [] => None
        | _ :: _ => Some (two_levels city state strat)
        end).
    { unfold _load_plan_queries. destruct strategies as [| s l]; [easy |].
      rewrite Hidx, load_walk. cbn [app]. fold (two_levels city state strat).
      now destruct (two_levels city state strat). }
    split; [exact Hload |].
    split; [unfold _generate_queries; rewrite Hload;
            now destruct (two_levels city state strat) |].
    rewrite walked_texts, dfs_texts. split.
    + apply sublist_flat_map, List.Forall_forall. intros step _.
      apply sublist_app; [reflexivity |].
      apply sublist_flat_map, List.Forall_forall. intros sub _.
      rewrite preorder_texts_head. apply sublist_inserts_r. reflexivity.
    + intros Hdeep. apply eq_flat_map.
      apply (List.Forall_impl _ (P := fun step =>
               Forall (fun sub => sub_steps sub = []) (sub_steps step)));
        [| exact Hdeep].
      intros step Hstep. f_equal. apply eq_flat_map.
      apply (List.Forall_impl _ (P := fun sub => sub_steps sub = []));
        [| exact Hstep].
      intros sub Hsub. rewrite preorder_texts_head, Hsub. simpl.
      now rewrite app_nil_r.
Qed.

End PipelineHelpersFacts.
